(** * Spectrum notch filter (ComfyUI_NotchFilter, [nodes.py])

    A shallow embedding of the two nodes of [nodes.py] and of their helper
    routines, with the properties of the specification proved about it.

    Conventions of the embedding.
    - A float32 sample is a [spec_float] of precision 24 and maximal exponent
      128 (IEEE 754 binary32, round to nearest even), as defined in the
      Standard Library; NumPy keeps float32 arrays in float32 when they are
      combined with Python scalars.
    - A NumPy array is a nested list (rows, then columns, then channels); the
      shape is read off the lists.
    - The index grids of [np.ogrid] are int64 arrays: their arithmetic wraps
      around modulo 2^64 and a Python integer that does not fit in int64
      raises [OverflowError] when it meets them (NumPy 2 promotion rules).
    - A Python exception is a value [Raise e] of the [result] type.
    - SciPy's [gaussian_filter] and Python's [json] and [int(str)] are
      library code: they are fields of the class [Library]; a reference
      instance is given at the end of the definitions.

    The file has three parts: the definitions (the embedding, the
    vocabulary of the statements, test data), the lemmas, and the claims of
    the specification, each with its identifier (C1 to C10). *)

From Stdlib Require Import ZArith List Bool Lia String Ascii Sorted.
From Stdlib Require Import DecimalString DecimalZ DecimalPos DecimalFacts.
From Stdlib Require Import Floats.SpecFloat.
Import ListNotations.
Local Open Scope Z_scope.

(** ** Python exceptions *)

Inductive exn : Type :=
| ValueError
| IndexError
| AttributeError
| TypeError
| OverflowError.

Inductive result (A : Type) : Type :=
| Ok (a : A)
| Raise (e : exn).

Arguments Ok {A} a.
Arguments Raise {A} e.

Definition bind {A B : Type} (m : result A) (k : A -> result B) : result B :=
  match m with
  | Ok a => k a
  | Raise e => Raise e
  end.

Notation "x <- m ;; k" := (bind m (fun x => k))
  (at level 61, m at next level, right associativity).

Fixpoint mapM {A B : Type} (f : A -> result B) (l : list A) : result (list B) :=
  match l with
  | [] => Ok []
  | a :: l' => b <- f a ;; bs <- mapM f l' ;; Ok (b :: bs)
  end.

(** ** float32 *)

Module F32.

Definition prec : Z := 24.
Definition emax : Z := 128.

Definition add : spec_float -> spec_float -> spec_float := SFadd prec emax.
Definition sub : spec_float -> spec_float -> spec_float := SFsub prec emax.
Definition mul : spec_float -> spec_float -> spec_float := SFmul prec emax.

Definition eqb : spec_float -> spec_float -> bool := SFeqb.
Definition ltb : spec_float -> spec_float -> bool := SFltb.
Definition leb : spec_float -> spec_float -> bool := SFleb.

(** The float32 nearest to [m * 2^e]. *)
Definition of_Z (m e : Z) : spec_float := binary_normalize prec emax m e false.

Definition zero : spec_float := S754_zero false.
Definition one : spec_float := S754_finite false 8388608 (-23).

(** The Python literals of the source, rounded to float32. *)
Definition c0_299 : spec_float := S754_finite false 10032775 (-25).
Definition c0_587 : spec_float := S754_finite false 9848226 (-24).
Definition c0_114 : spec_float := S754_finite false 15300821 (-27).
Definition c0_2 : spec_float := S754_finite false 13421773 (-26).
Definition c0_5 : spec_float := S754_finite false 8388608 (-24).
Definition c0_9 : spec_float := S754_finite false 15099494 (-24).
Definition c255 : spec_float := S754_finite false 16711680 (-16).

Definition is_nan (x : spec_float) : bool :=
  match x with
  | S754_nan => true
  | _ => false
  end.

Definition is_zero (x : spec_float) : bool :=
  match x with
  | S754_zero _ => true
  | _ => false
  end.

Definition is_finite (x : spec_float) : bool :=
  match x with
  | S754_zero _ | S754_finite _ _ _ => true
  | _ => false
  end.

(** [np.maximum] on two samples: [(a >= b || isnan(a)) ? a : b]. *)
Definition np_maximum (a b : spec_float) : spec_float :=
  if is_nan a then a else if leb b a then a else b.

(** [np.clip(x, 0.0, 1.0)] on one sample; a NaN stays a NaN. *)
Definition clip01 (x : spec_float) : spec_float :=
  if is_nan x then x
  else if ltb x zero then zero
  else if ltb one x then one
  else x.

(** The integer part of a finite sample (truncation toward zero). *)
Definition trunc (x : spec_float) : Z :=
  match x with
  | S754_finite s m e =>
      let a := match e with
               | Zneg p => Z.shiftr (Zpos m) (Zpos p)
               | _ => Z.shiftl (Zpos m) e
               end in
      if s then - a else a
  | _ => 0
  end.

(** The nearest integer, ties to even ([np.round], Python's [round]). *)
Definition nearest (x : spec_float) : Z :=
  match x with
  | S754_finite s m e =>
      let a := match e with
               | Zneg p =>
                   let q := Z.shiftr (Zpos m) (Zpos p) in
                   let r := Zpos m - Z.shiftl q (Zpos p) in
                   let half := Z.shiftl 1 (Zpos p - 1) in
                   match Z.compare r half with
                   | Lt => q
                   | Gt => q + 1
                   | Eq => if Z.even q then q else q + 1
                   end
               | _ => Z.shiftl (Zpos m) e
               end in
      if s then - a else a
  | _ => 0
  end.

End F32.

Abbreviation f32 := spec_float.

(** ** int64 index arithmetic *)

Module I64.

Definition fits (z : Z) : bool := (- 2 ^ 63 <=? z) && (z <? 2 ^ 63).

Definition wrap (z : Z) : Z := (z + 2 ^ 63) mod 2 ^ 64 - 2 ^ 63.

Definition add (a b : Z) : Z := wrap (a + b).
Definition sub (a b : Z) : Z := wrap (a - b).
Definition sq (a : Z) : Z := wrap (a * a).

End I64.

(** A Python integer meeting an int64 array. *)
Definition to_i64 (z : Z) : result Z :=
  if I64.fits z then Ok z else Raise OverflowError.

(** [(X - c) ** 2 + (Y - r) ** 2 <= rad ** 2] at the grid point [(y, x)]:
    the left-hand side is int64 arithmetic, the right-hand side a Python
    integer. *)
Definition in_disk (r c rad : Z) (y x : Z) : bool :=
  I64.add (I64.sq (I64.sub x c)) (I64.sq (I64.sub y r)) <=? rad ^ 2.

(** ** Arrays as nested lists *)

Definition len {A : Type} (l : list A) : Z := Z.of_nat (List.length l).

Fixpoint mapi_from {A B : Type} (i : Z) (f : Z -> A -> B) (l : list A) : list B :=
  match l with
  | [] => []
  | a :: l' => f i a :: mapi_from (i + 1) f l'
  end.

Definition mapi {A B : Type} (f : Z -> A -> B) (l : list A) : list B :=
  mapi_from 0 f l.

Definition mapi2 {A B : Type} (f : Z -> Z -> A -> B) (a : list (list A))
  : list (list B) :=
  mapi (fun y row => mapi (fun x v => f y x v) row) a.

Definition tab {A : Type} (n : Z) (f : Z -> A) : list A :=
  map (fun i => f (Z.of_nat i)) (seq 0 (Z.to_nat n)).

Definition tab2 {A : Type} (H W : Z) (f : Z -> Z -> A) : list (list A) :=
  tab H (fun y => tab W (fun x => f y x)).

Definition get {A : Type} (l : list A) (i : Z) (d : A) : A :=
  if i <? 0 then d else nth (Z.to_nat i) l d.

Definition get2 {A : Type} (a : list (list A)) (y x : Z) (d : A) : A :=
  get (get a y []) x d.

Definition get3 {A : Type} (a : list (list (list A))) (y x k : Z) (d : A) : A :=
  get (get2 a y x []) k d.

Definition height {A : Type} (a : list (list A)) : Z := len a.
Definition width {A : Type} (a : list (list A)) : Z := len (hd [] a).
Definition channels {A : Type} (a : list (list (list A))) : Z :=
  len (hd [] (hd [] a)).

(** A rectangular [H] x [W] array: NumPy arrays are never ragged. *)
Definition rect2 {A : Type} (H W : Z) (a : list (list A)) : Prop :=
  len a = H /\ Forall (fun row => len row = W) a.

Definition rect3 {A : Type} (H W C : Z) (a : list (list (list A))) : Prop :=
  len a = H /\ Forall (fun row => len row = W /\ Forall (fun px => len px = C) row) a.

Definition shape2_is {A : Type} (H W : Z) (a : list (list A)) : bool :=
  (len a =? H) && forallb (fun row => len row =? W) a.

(** [arr[cond] = v] with a boolean grid [cond] over [np.ogrid]. *)
Definition assign_where {A : Type} (cond : Z -> Z -> bool) (v : A)
  (a : list (list A)) : list (list A) :=
  mapi2 (fun y x old => if cond y x then v else old) a.

(** [np.argwhere(m).tolist()]: the true positions in row-major order. *)
Definition argwhere (m : list (list bool)) : list (Z * Z) :=
  List.concat (mapi (fun y row =>
            List.concat (mapi (fun x (b : bool) => if b then [(y, x)] else []) row)) m).

(** [a.max()] of a float array; an empty array raises. *)
Definition amax (a : list (list f32)) : result f32 :=
  match List.concat a with
  | [] => Raise ValueError
  | x :: l => Ok (fold_left F32.np_maximum l x)
  end.

(** [np.stack] over the frames of a batch. *)
Definition np_stack {A : Type} (l : list A) : result (list A) :=
  match l with
  | [] => Raise ValueError
  | _ => Ok l
  end.

(** ** [scipy.ndimage.maximum_filter]

    Modelled from SciPy's documentation: a square window of side [size],
    mode ['reflect'] (d c b a | a b c d | d c b a) and origin 0, computed one
    axis after the other; the window of output [i] covers the inputs
    [i - size // 2 .. i - size // 2 + size - 1]. *)

Definition reflect (n i : Z) : Z :=
  let m := i mod (2 * n) in
  if m <? n then m else 2 * n - 1 - m.

Definition f32_max (a b : f32) : f32 := if F32.ltb a b then b else a.

Definition window_max (size : Z) (f : Z -> f32) : f32 :=
  fold_left (fun acc k => f32_max acc (f (Z.of_nat k)))
            (seq 1 (Z.to_nat size - 1)) (f 0).

Definition maximum_filter1d (size n : Z) (line : Z -> f32) (i : Z) : f32 :=
  window_max size (fun k => line (reflect n (i - size / 2 + k))).

Definition maximum_filter (input : list (list f32)) (size : Z) : list (list f32) :=
  let H := height input in
  let W := width input in
  let axis0 := tab2 H W (fun y x =>
                 maximum_filter1d size H (fun i => get2 input i x F32.zero) y) in
  tab2 H W (fun y x =>
    maximum_filter1d size W (fun j => get2 axis0 y j F32.zero) x).

(** ** Grayscale reduction *)

Definition _to_gray (frame : list (list (list f32))) : result (list (list f32)) :=
  let C := channels frame in
  if 3 <=? C then
    Ok (map (map (fun px =>
          F32.add (F32.add (F32.mul F32.c0_299 (get px 0 F32.zero))
                           (F32.mul F32.c0_587 (get px 1 F32.zero)))
                  (F32.mul F32.c0_114 (get px 2 F32.zero)))) frame)
  else if C =? 0 then Raise IndexError
  else Ok (map (map (fun px => get px 0 F32.zero)) frame).

(** ** Peak detection (the body of [apply_notch], lines 194-203)

    [threshold_rel] is the Python float as the float32 it becomes when it
    multiplies the float32 scalar [gray.max()]. *)

Definition detect_peaks (H W : Z) (gray : list (list f32))
  (threshold_rel : f32) (min_distance protect_dc : Z) : result (list (Z * Z)) :=
  let nbhd := maximum_filter gray (Z.max 3 (min_distance * 2 + 1)) in
  gmax <- amax gray ;;
  let t := F32.mul threshold_rel gmax in
  let local_max :=
    mapi2 (fun y x v => F32.eqb v (get2 nbhd y x F32.zero) && F32.leb t v) gray in
  let cy := H / 2 in
  let cx := W / 2 in
  let local_max :=
    if 0 <? protect_dc
    then assign_where (in_disk cy cx protect_dc) false local_max
    else local_max in
  Ok (argwhere local_max).

(** ** Mask construction and application *)

Definition zeros (H W : Z) : result (list (list f32)) :=
  if (H <? 0) || (W <? 0) then Raise ValueError
  else Ok (tab2 H W (fun _ _ => F32.zero)).

(** One pass of the loop [for peak in peaks]: the circle of radius [rad]
    around [(r, c)] is set to 1.0. *)
Definition draw_circle (r c rad : Z) (mask : list (list f32))
  : result (list (list f32)) :=
  c' <- to_i64 c ;;
  r' <- to_i64 r ;;
  Ok (assign_where (in_disk r' c' rad) F32.one mask).

Fixpoint draw_circles (circles : list (Z * Z * Z)) (mask : list (list f32))
  : result (list (list f32)) :=
  match circles with
  | [] => Ok mask
  | (r, c, rad) :: rest => mask' <- draw_circle r c rad mask ;; draw_circles rest mask'
  end.

(** Two lists combined position by position, up to the shorter one. *)
Fixpoint zip_with {A B C : Type} (f : A -> B -> C) (l : list A) (l' : list B)
  : list C :=
  match l, l' with
  | a :: l, b :: l' => f a b :: zip_with f l l'
  | _, _ => []
  end.

(** [frame * (1.0 - mask[..., np.newaxis])]: every channel of every pixel is
    multiplied by one minus the mask at that pixel. *)
Definition apply_mask (frame : list (list (list f32))) (mask : list (list f32))
  : list (list (list f32)) :=
  zip_with (zip_with (fun px m => map (fun v => F32.mul v (F32.sub F32.one m)) px))
           frame mask.

(** [np.stack([mask, mask, mask], axis=-1)]. *)
Definition mask_image (mask : list (list f32)) : list (list (list f32)) :=
  map (map (fun m => [m; m; m])) mask.

(** ** JSON values, as [json.loads] returns them *)

#[local] Unset Elimination Schemes.

Inductive json : Type :=
| JNull
| JBool (b : bool)
| JInt (z : Z)
| JFloat (f : spec_float)
| JStr (s : string)
| JList (l : list json)
| JDict (d : list (string * json)).

#[local] Set Elimination Schemes.

(** The value bound to [k] in a dict given by its items: the last one wins. *)
Fixpoint dict_get (k : string) (d : list (string * json)) : option json :=
  match d with
  | [] => None
  | (k', v) :: d' =>
      match dict_get k d' with
      | Some v' => Some v'
      | None => if String.eqb k k' then Some v else None
      end
  end.

(** [p.get(k, default)]: only a dict has the method. *)
Definition py_get (p : json) (k : string) (default : json) : result json :=
  match p with
  | JDict d => Ok (match dict_get k d with Some v => v | None => default end)
  | _ => Raise AttributeError
  end.

(** The integer part of a double (truncation toward zero). *)
Definition float_trunc (x : spec_float) : Z := F32.trunc x.

(** ** Library code the nodes call *)

Class Library : Type := {
  (** [scipy.ndimage.gaussian_filter(mask, sigma=feather)] *)
  gaussian_filter : list (list f32) -> Z -> list (list f32);
  (** [json.loads(s)]; [None] when it raises *)
  json_loads : string -> option json;
  (** [json.dumps(v)] *)
  json_dumps : json -> string;
  (** [int(s)] on a string; [None] when it raises [ValueError] *)
  int_of_str : string -> option Z
}.

Section Nodes.

Context {L : Library}.

(** [int(v)] on a value of a parsed JSON document. *)
Definition py_int (v : json) : result Z :=
  match v with
  | JInt z => Ok z
  | JBool b => Ok (if b then 1 else 0)
  | JFloat S754_nan => Raise ValueError
  | JFloat (S754_infinity _) => Raise OverflowError
  | JFloat f => Ok (float_trunc f)
  | JStr s => match int_of_str s with
              | Some z => Ok z
              | None => Raise ValueError
              end
  | JNull | JList _ | JDict _ => Raise TypeError
  end.

Definition feathered (mask : list (list f32)) (feather : Z) : list (list f32) :=
  if 0 <? feather
  then map (map F32.clip01) (gaussian_filter mask feather)
  else mask.

Definition _build_circular_mask (H W : Z) (peaks : list (Z * Z))
  (radius feather : Z) : result (list (list f32)) :=
  mask <- zeros H W ;;
  mask <- draw_circles (map (fun p => (fst p, snd p, radius)) peaks) mask ;;
  Ok (feathered mask feather).

(** *** Preview annotation *)

Definition set_chan (k : Z) (v : f32) (px : list f32) : list f32 :=
  mapi (fun i old => if i =? k then v else old) px.

(** [preview[ring, k] = v]: the boolean grid has the shape [(H, W)] of
    [np.ogrid[:H, :W]] and must match the first two axes of the array. *)
Definition paint (H W : Z) (ring : Z -> Z -> bool) (k : Z) (v : f32)
  (img : list (list (list f32))) : result (list (list (list f32))) :=
  if shape2_is H W img && (k <? channels img)
  then Ok (mapi2 (fun y x px => if ring y x then set_chan k v px else px) img)
  else Raise IndexError.

Definition ring_of (r c outer inner : Z) (y x : Z) : bool :=
  in_disk r c outer y x && negb (in_disk r c inner y x).

Definition paint_rgb (H W : Z) (ring : Z -> Z -> bool) (v0 v1 v2 : f32)
  (img : list (list (list f32))) : result (list (list (list f32))) :=
  img <- paint H W ring 0 v0 img ;;
  img <- paint H W ring 1 v1 img ;;
  paint H W ring 2 v2 img.

Definition annotate_peak (C radius H W : Z) (peak : Z * Z)
  (preview : list (list (list f32))) : result (list (list (list f32))) :=
  c <- to_i64 (snd peak) ;;
  r <- to_i64 (fst peak) ;;
  let ring := ring_of r c (radius + 2) (Z.max 0 (radius - 1)) in
  if 3 <=? C
  then paint_rgb H W ring F32.one F32.c0_9 F32.zero preview
  else paint H W ring 0 F32.one preview.

Fixpoint annotate_peaks (C radius H W : Z) (peaks : list (Z * Z))
  (preview : list (list (list f32))) : result (list (list (list f32))) :=
  match peaks with
  | [] => Ok preview
  | peak :: rest =>
      preview' <- annotate_peak C radius H W peak preview ;;
      annotate_peaks C radius H W rest preview'
  end.

Definition _annotate_preview (frame : list (list (list f32)))
  (peaks : list (Z * Z)) (radius dc_r H W : Z)
  : result (list (list (list f32))) :=
  let preview := map (map (map F32.clip01)) frame in
  let C := channels frame in
  let cy := H / 2 in
  let cx := W / 2 in
  preview <-
    (if 0 <? dc_r then
       let ring := ring_of cy cx (dc_r + 1) (dc_r - 1) in
       if 3 <=? C
       then paint_rgb H W ring F32.c0_2 F32.c0_5 F32.one preview
       else Ok preview
     else Ok preview) ;;
  annotate_peaks C radius H W peaks preview.

(** *** Preview export *)

(** [astype(np.uint8)] of a float32: the C conversion drops the fraction
    (it is undefined on a NaN, which is 0 here). *)
Definition astype_u8 (x : f32) : Z := F32.trunc x mod 256.

Record saved_image : Type := {
  pixels : list (list (list Z));
  subfolder : string;
  type_ : string
}.

(** The image written by [pil.save] (the random file name is left out). *)
Definition _save_temp_image (frame : list (list (list f32))) : result saved_image :=
  let img_u8 :=
    map (map (map (fun v => astype_u8 (F32.mul (F32.clip01 v) F32.c255)))) frame in
  let C := channels frame in
  if C =? 0 then Raise TypeError
  else
    let pil :=
      if C =? 1
      then map (map (fun px => let g := get px 0 0 in [g; g; g])) img_u8
      else map (map (firstn 3)) img_u8 in
    Ok {| pixels := pil; subfolder := EmptyString; type_ := "temp" |}.

(** *** Node 1: [SpectrumNotchAutoNode.apply_notch] *)

Inductive tensor : Type :=
| T3 (a : list (list (list f32)))
| T4 (a : list (list (list (list f32)))).

(** [(B,H,W)] tensors become [(B,H,W,1)]. *)
Definition to_bhwc (t : tensor) : list (list (list (list f32))) :=
  match t with
  | T3 a => map (map (map (fun v => [v]))) a
  | T4 a => a
  end.

Record frame_out : Type := {
  fo_filtered : list (list (list f32));
  fo_mask : list (list (list f32));
  fo_preview : list (list (list f32));
  fo_peaks : list (Z * Z)
}.

(** The body of the loop [for b in range(B)]. *)
Definition auto_frame (H W : Z) (threshold_rel : f32)
  (min_distance notch_radius protect_dc feather : Z)
  (frame : list (list (list f32))) : result frame_out :=
  gray <- _to_gray frame ;;
  peaks <- detect_peaks H W gray threshold_rel min_distance protect_dc ;;
  mask <- _build_circular_mask H W peaks notch_radius feather ;;
  let filtered := apply_mask frame mask in
  let mask_img := mask_image mask in
  preview <- _annotate_preview frame peaks notch_radius protect_dc H W ;;
  Ok {| fo_filtered := filtered; fo_mask := mask_img;
        fo_preview := preview; fo_peaks := peaks |}.

Definition peak_obj (notch_radius : Z) (p : Z * Z) : json :=
  JDict [("x"%string, JInt (snd p)); ("y"%string, JInt (fst p));
         ("r"%string, JInt notch_radius)].

Record auto_out : Type := {
  filtered_spectrum : list (list (list (list f32)));
  notch_mask : list (list (list (list f32)));
  preview : list (list (list (list f32)));
  peak_positions : string
}.

Definition apply_notch (spectrum : tensor) (threshold_rel : f32)
  (min_distance notch_radius protect_dc feather : Z) : result auto_out :=
  let img_np := to_bhwc spectrum in
  let H := height (hd [] img_np) in
  let W := width (hd [] img_np) in
  outs <- mapM (auto_frame H W threshold_rel min_distance notch_radius
                  protect_dc feather) img_np ;;
  let all_peaks :=
    match outs with
    | o :: _ => map (peak_obj notch_radius) (fo_peaks o)
    | [] => []
    end in
  t_filtered <- np_stack (map fo_filtered outs) ;;
  t_mask <- np_stack (map fo_mask outs) ;;
  t_preview <- np_stack (map fo_preview outs) ;;
  Ok {| filtered_spectrum := t_filtered; notch_mask := t_mask;
        preview := t_preview; peak_positions := json_dumps (JList all_peaks) |}.

(** *** Node 2: [SpectrumNotchManualNode.apply_manual_notch] *)

(** Lines 287-292: anything but a parsed list is the empty list. *)
Definition parse_points (notch_points : string) : list json :=
  match json_loads notch_points with
  | Some (JList l) => l
  | _ => []
  end.

(** Lines 308-309: the points as [(row, col)] pairs and radii. *)
Definition point_circles (points : list json) : result (list (Z * Z * Z)) :=
  peaks <- mapM (fun p =>
             y <- (v <- py_get p "y" (JInt 0) ;; py_int v) ;;
             x <- (v <- py_get p "x" (JInt 0) ;; py_int v) ;;
             Ok (y, x)) points ;;
  radii <- mapM (fun p => v <- py_get p "r" (JInt 8) ;; py_int v) points ;;
  Ok (zip_with (fun p rad => (fst p, snd p, rad)) peaks radii).

(** Lines 312-320: the mask before feathering. *)
Definition manual_mask (H W : Z) (circles : list (Z * Z * Z)) (protect_dc : Z)
  : result (list (list f32)) :=
  mask <- zeros H W ;;
  mask <- draw_circles circles mask ;;
  Ok (if 0 <? protect_dc
      then assign_where (in_disk (H / 2) (W / 2) protect_dc) F32.one mask
      else mask).

Definition manual_frame (points : list json) (H W feather protect_dc : Z)
  (frame : list (list (list f32)))
  : result (list (list (list f32)) * list (list (list f32))) :=
  circles <- point_circles points ;;
  mask <- manual_mask H W circles protect_dc ;;
  let mask := feathered mask feather in
  Ok (apply_mask frame mask, mask_image mask).

Record manual_out : Type := {
  m_filtered : list (list (list (list f32)));
  m_mask : list (list (list (list f32)));
  ui_image : saved_image
}.

(** Lines 294-342, for the point list [points]. *)
Definition manual_run (points : list json) (spectrum : tensor)
  (feather protect_dc : Z) : result manual_out :=
  let img_np := to_bhwc spectrum in
  let H := height (hd [] img_np) in
  let W := width (hd [] img_np) in
  outs <- mapM (manual_frame points H W feather protect_dc) img_np ;;
  t_filtered <- np_stack (map fst outs) ;;
  t_mask <- np_stack (map snd outs) ;;
  preview_info <- _save_temp_image (hd [] img_np) ;;
  Ok {| m_filtered := t_filtered; m_mask := t_mask; ui_image := preview_info |}.

Definition apply_manual_notch (spectrum : tensor) (notch_points : string)
  (feather protect_dc : Z) : result manual_out :=
  manual_run (parse_points notch_points) spectrum feather protect_dc.

End Nodes.

(** ** A reference instance of the library

    Used to run the nodes on concrete inputs.  [loads] follows the grammar of
    CPython's [json] scanner (strict mode, with the constants [NaN],
    [Infinity] and [-Infinity]) on a UTF-8 encoded text, without CPython's
    limits on nesting depth and on the number of digits; [dumps] writes with
    the default separators and is exact on the documents the node writes
    (floats are written with their full decimal expansion, non-ASCII bytes
    are copied); [int_of_str] reads ASCII text; [blur] is a three-tap
    smoothing filter standing in for the Gaussian kernel. *)

Module Ref.

Definition quote : ascii := "034"%char.
Definition backslash : ascii := "092"%char.

(** Test inputs are written with ['] for the double quote. *)
Fixpoint dq (s : string) : string :=
  match s with
  | EmptyString => EmptyString
  | String c r => String (if (c =? "'")%char then quote else c) (dq r)
  end.

Definition is_ws (c : ascii) : bool :=
  (c =? " ")%char || (c =? "009")%char || (c =? "010")%char || (c =? "013")%char.

Fixpoint skip_ws (s : string) : string :=
  match s with
  | String c r => if is_ws c then skip_ws r else s
  | EmptyString => s
  end.

Definition is_digit (c : ascii) : bool :=
  let n := nat_of_ascii c in (48 <=? n)%nat && (n <=? 57)%nat.

Fixpoint span_digits (s : string) : string * string :=
  match s with
  | String c r =>
      if is_digit c
      then let '(ds, rest) := span_digits r in (String c ds, rest)
      else (EmptyString, s)
  | EmptyString => (EmptyString, s)
  end.

Fixpoint strip_prefix (p s : string) : option string :=
  match p, s with
  | EmptyString, _ => Some s
  | String a p', String b s' => if (a =? b)%char then strip_prefix p' s' else None
  | _, _ => None
  end.

Definition digits_value (ds : string) : Z :=
  match NilZero.uint_of_string ds with
  | Some u => Z.of_uint u
  | None => 0
  end.

(** The double nearest to [d * 10^e10] (Python's [float]). *)
Definition f64_of_decimal (neg : bool) (d e10 : Z) : spec_float :=
  match d with
  | Zpos _ =>
      if 0 <=? e10
      then match d * 10 ^ e10 with
           | Zpos n => binary_round 53 1024 neg n 0
           | _ => S754_zero neg
           end
      else
        let den := 10 ^ (- e10) in
        let k := Z.max 0 (Z.log2 den - Z.log2 d + 64) in
        let n := Z.shiftl d k in
        let m := 2 * (n / den) + (if n mod den =? 0 then 0 else 1) in
        match m with
        | Zpos pm => binary_round 53 1024 neg pm (- k - 1)
        | _ => S754_zero neg
        end
  | _ => S754_zero neg
  end.

(** A number at the head of [s]: an optional minus sign, then 0 or a
    digit string without leading zero, then an optional fraction (a dot
    and digits) and an optional exponent (e or E, a sign, digits). *)
Definition scan_number (s : string) : option (json * string) :=
  let '(neg, s1) :=
    match s with
    | String c r => if (c =? "-")%char then (true, r) else (false, s)
    | EmptyString => (false, s)
    end in
  match s1 with
  | EmptyString => None
  | String c r =>
      if negb (is_digit c) then None
      else
        let '(ip, rest) :=
          if (c =? "0")%char then ("0"%string, r) else span_digits s1 in
        let '(frac, rest1) :=
          match rest with
          | String dot (String d r') =>
              if (dot =? ".")%char && is_digit d
              then span_digits (String d r')
              else (EmptyString, rest)
          | _ => (EmptyString, rest)
          end in
        let '(ex, rest2) :=
          match rest1 with
          | String e r' =>
              if (e =? "e")%char || (e =? "E")%char then
                let '(eneg, r'') :=
                  match r' with
                  | String sg (String d r3) =>
                      if (sg =? "-")%char then (true, String d r3)
                      else if (sg =? "+")%char then (false, String d r3)
                      else (false, r')
                  | _ => (false, r')
                  end in
                let '(es, r3) := span_digits r'' in
                match es with
                | EmptyString => (None, rest1)
                | _ => (Some (if eneg then - digits_value es else digits_value es), r3)
                end
              else (None, rest1)
          | EmptyString => (None, rest1)
          end in
        match frac, ex with
        | EmptyString, None =>
            Some (JInt (if neg then - digits_value ip else digits_value ip), rest2)
        | _, _ =>
            let e10 := match ex with Some e => e | None => 0 end in
            Some (JFloat (f64_of_decimal neg (digits_value (String.append ip frac))
                            (e10 - Z.of_nat (String.length frac))), rest2)
        end
  end.

Definition hex_val (c : ascii) : option Z :=
  let n := Z.of_nat (nat_of_ascii c) in
  if (48 <=? n) && (n <=? 57) then Some (n - 48)
  else if (65 <=? n) && (n <=? 70) then Some (n - 55)
  else if (97 <=? n) && (n <=? 102) then Some (n - 87)
  else None.

Definition hex4 (s : string) : option (Z * string) :=
  match s with
  | String a (String b (String c (String d r))) =>
      match hex_val a, hex_val b, hex_val c, hex_val d with
      | Some x, Some y, Some z, Some w => Some (((x * 16 + y) * 16 + z) * 16 + w, r)
      | _, _, _, _ => None
      end
  | _ => None
  end.

Definition byte (z : Z) : ascii := ascii_of_nat (Z.to_nat z).

Definition utf8 (cp : Z) (tail : string) : string :=
  if cp <? 128 then String (byte cp) tail
  else if cp <? 2048 then
    String (byte (192 + cp / 64)) (String (byte (128 + cp mod 64)) tail)
  else if cp <? 65536 then
    String (byte (224 + cp / 4096))
      (String (byte (128 + (cp / 64) mod 64)) (String (byte (128 + cp mod 64)) tail))
  else
    String (byte (240 + cp / 262144))
      (String (byte (128 + (cp / 4096) mod 64))
         (String (byte (128 + (cp / 64) mod 64)) (String (byte (128 + cp mod 64)) tail))).

Definition simple_escape (c : ascii) : option ascii :=
  if (c =? quote)%char then Some quote
  else if (c =? backslash)%char then Some backslash
  else if (c =? "/")%char then Some "/"%char
  else if (c =? "b")%char then Some "008"%char
  else if (c =? "f")%char then Some "012"%char
  else if (c =? "n")%char then Some "010"%char
  else if (c =? "r")%char then Some "013"%char
  else if (c =? "t")%char then Some "009"%char
  else None.

(** A [\uXXXX] escape, and a low surrogate after a high one. *)
Definition unicode_escape (s : string) : option (Z * string) :=
  match hex4 s with
  | None => None
  | Some (cp, r) =>
      if (55296 <=? cp) && (cp <=? 56319) then
        match r with
        | String b (String u r') =>
            if (b =? backslash)%char && (u =? "u")%char then
              match hex4 r' with
              | Some (cp2, r'') =>
                  if (56320 <=? cp2) && (cp2 <=? 57343)
                  then Some (65536 + (cp - 55296) * 1024 + (cp2 - 56320), r'')
                  else Some (cp, r)
              | None => Some (cp, r)
              end
            else Some (cp, r)
        | _ => Some (cp, r)
        end
      else Some (cp, r)
  end.

(** The string literal whose opening quote has been read. *)
Fixpoint scanstring (fuel : nat) (s : string) : option (string * string) :=
  match fuel with
  | O => None
  | S fuel =>
      match s with
      | EmptyString => None
      | String c r =>
          if (c =? quote)%char then Some (EmptyString, r)
          else if (c =? backslash)%char then
            match r with
            | String e r' =>
                if (e =? "u")%char then
                  match unicode_escape r' with
                  | Some (cp, r'') =>
                      match scanstring fuel r'' with
                      | Some (str, rest) => Some (utf8 cp str, rest)
                      | None => None
                      end
                  | None => None
                  end
                else
                  match simple_escape e with
                  | Some ch =>
                      match scanstring fuel r' with
                      | Some (str, rest) => Some (String ch str, rest)
                      | None => None
                      end
                  | None => None
                  end
            | EmptyString => None
            end
          else if (nat_of_ascii c <? 32)%nat then None
          else
            match scanstring fuel r with
            | Some (str, rest) => Some (String c str, rest)
            | None => None
            end
      end
  end.

Fixpoint parse_value (fuel : nat) (s : string) {struct fuel}
  : option (json * string) :=
  match fuel with
  | O => None
  | S fuel =>
      match s with
      | EmptyString => None
      | String c r =>
          if (c =? quote)%char then
            match scanstring (S (String.length r)) r with
            | Some (str, rest) => Some (JStr str, rest)
            | None => None
            end
          else if (c =? "{")%char then
            match skip_ws r with
            | String c1 r1 =>
                if (c1 =? "}")%char then Some (JDict [], r1)
                else match parse_members fuel (String c1 r1) with
                     | Some (kvs, rest) => Some (JDict kvs, rest)
                     | None => None
                     end
            | EmptyString => None
            end
          else if (c =? "[")%char then
            match skip_ws r with
            | String c1 r1 =>
                if (c1 =? "]")%char then Some (JList [], r1)
                else match parse_elements fuel (String c1 r1) with
                     | Some (vs, rest) => Some (JList vs, rest)
                     | None => None
                     end
            | EmptyString => None
            end
          else
            match strip_prefix "null" s with
            | Some rest => Some (JNull, rest)
            | None =>
            match strip_prefix "true" s with
            | Some rest => Some (JBool true, rest)
            | None =>
            match strip_prefix "false" s with
            | Some rest => Some (JBool false, rest)
            | None =>
            match strip_prefix "NaN" s with
            | Some rest => Some (JFloat S754_nan, rest)
            | None =>
            match strip_prefix "Infinity" s with
            | Some rest => Some (JFloat (S754_infinity false), rest)
            | None =>
            match strip_prefix "-Infinity" s with
            | Some rest => Some (JFloat (S754_infinity true), rest)
            | None => scan_number s
            end end end end end end
      end
  end

with parse_elements (fuel : nat) (s : string) {struct fuel}
  : option (list json * string) :=
  match fuel with
  | O => None
  | S fuel =>
      match parse_value fuel s with
      | Some (v, r) =>
          match skip_ws r with
          | String c r1 =>
              if (c =? "]")%char then Some ([v], r1)
              else if (c =? ",")%char then
                match parse_elements fuel (skip_ws r1) with
                | Some (vs, rest) => Some (v :: vs, rest)
                | None => None
                end
              else None
          | EmptyString => None
          end
      | None => None
      end
  end

with parse_members (fuel : nat) (s : string) {struct fuel}
  : option (list (string * json) * string) :=
  match fuel with
  | O => None
  | S fuel =>
      match s with
      | String c r =>
          if (c =? quote)%char then
            match scanstring (S (String.length r)) r with
            | Some (key, r1) =>
                match skip_ws r1 with
                | String c2 r2 =>
                    if (c2 =? ":")%char then
                      match parse_value fuel (skip_ws r2) with
                      | Some (v, r3) =>
                          match skip_ws r3 with
                          | String c3 r4 =>
                              if (c3 =? "}")%char then Some ([(key, v)], r4)
                              else if (c3 =? ",")%char then
                                match parse_members fuel (skip_ws r4) with
                                | Some (kvs, rest) => Some ((key, v) :: kvs, rest)
                                | None => None
                                end
                              else None
                          | EmptyString => None
                          end
                      | None => None
                      end
                    else None
                | EmptyString => None
                end
            | None => None
            end
          else None
      | EmptyString => None
      end
  end.

Definition loads (s : string) : option json :=
  match parse_value (S (String.length s)) (skip_ws s) with
  | Some (v, rest) =>
      match skip_ws rest with
      | EmptyString => Some v
      | _ => None
      end
  | None => None
  end.

(** *** [json.dumps] *)

Definition print_int (z : Z) : string := NilZero.string_of_int (Z.to_int z).

Definition hex_digit (z : Z) : ascii :=
  byte (if z <? 10 then 48 + z else 87 + z).

Fixpoint escape (s : string) : string :=
  match s with
  | EmptyString => EmptyString
  | String c r =>
      let n := Z.of_nat (nat_of_ascii c) in
      if (c =? quote)%char then String backslash (String quote (escape r))
      else if (c =? backslash)%char then String backslash (String backslash (escape r))
      else if (c =? "010")%char then String backslash (String "n" (escape r))
      else if (c =? "013")%char then String backslash (String "r" (escape r))
      else if (c =? "009")%char then String backslash (String "t" (escape r))
      else if (c =? "008")%char then String backslash (String "b" (escape r))
      else if (c =? "012")%char then String backslash (String "f" (escape r))
      else if n <? 32 then
        String backslash (String "u" (String "0" (String "0"
          (String (hex_digit (n / 16)) (String (hex_digit (n mod 16)) (escape r))))))
      else String c (escape r)
  end.

Definition print_str (s : string) : string :=
  String quote (String.append (escape s) (String quote EmptyString)).

(** The decimal expansion of [m * 2^e], in full. *)
Definition print_float (f : spec_float) : string :=
  match f with
  | S754_nan => "NaN"%string
  | S754_infinity s => if s then "-Infinity"%string else "Infinity"%string
  | S754_zero s => if s then "-0.0"%string else "0.0"%string
  | S754_finite s m e =>
      let body :=
        if 0 <=? e then String.append (print_int (Zpos m * 2 ^ e)) ".0"%string
        else
          let k := - e in
          let n := Zpos m * 5 ^ k in
          let frac := print_int (10 ^ k + n mod 10 ^ k) in
          String.append (print_int (n / 10 ^ k))
            (String "." (match frac with
                         | String _ r => r
                         | EmptyString => "0"%string
                         end)) in
      if s then String "-" body else body
  end.

Fixpoint join (sep : string) (l : list string) : string :=
  match l with
  | [] => EmptyString
  | [x] => x
  | x :: rest => String.append x (String.append sep (join sep rest))
  end.

Fixpoint dumps (v : json) : string :=
  match v with
  | JNull => "null"%string
  | JBool b => if b then "true"%string else "false"%string
  | JInt z => print_int z
  | JFloat f => print_float f
  | JStr s => print_str s
  | JList l =>
      String.append "[" (String.append (join ", " (map dumps l)) "]")
  | JDict d =>
      String.append "{"
        (String.append
           (join ", " (map (fun kv => let '(k, x) := kv in
                             String.append (print_str k)
                               (String.append ": " (dumps x))) d)) "}")
  end.

(** *** [int] on a string *)

Definition is_space (c : ascii) : bool :=
  let n := nat_of_ascii c in
  ((9 <=? n)%nat && (n <=? 13)%nat) || (n =? 32)%nat.

Fixpoint lstrip (s : string) : string :=
  match s with
  | String c r => if is_space c then lstrip r else s
  | EmptyString => s
  end.

Fixpoint rstrip (s : string) : string :=
  match s with
  | String c r =>
      match rstrip r with
      | EmptyString => if is_space c then EmptyString else String c EmptyString
      | r' => String c r'
      end
  | EmptyString => s
  end.

(** Digits, with single underscores between them. *)
Fixpoint digits_us (s : string) (acc : Z) (prev_digit : bool) : option Z :=
  match s with
  | EmptyString => if prev_digit then Some acc else None
  | String c r =>
      if is_digit c
      then digits_us r (10 * acc + (Z.of_nat (nat_of_ascii c) - 48)) true
      else if (c =? "_")%char && prev_digit then digits_us r acc false
      else None
  end.

Definition int_of_str (s : string) : option Z :=
  let s := rstrip (lstrip s) in
  let '(neg, body) :=
    match s with
    | String c r =>
        if (c =? "-")%char then (true, r)
        else if (c =? "+")%char then (false, r)
        else (false, s)
    | EmptyString => (false, s)
    end in
  match digits_us body 0 false with
  | Some n => Some (if neg then - n else n)
  | None => None
  end.

(** *** A smoothing filter *)

Definition blur1d (n : Z) (line : Z -> f32) (i : Z) : f32 :=
  F32.add
    (F32.add (F32.mul (F32.of_Z 1 (-2)) (line (reflect n (i - 1))))
             (F32.mul F32.c0_5 (line i)))
    (F32.mul (F32.of_Z 1 (-2)) (line (reflect n (i + 1)))).

Definition blur (input : list (list f32)) (sigma : Z) : list (list f32) :=
  let H := height input in
  let W := width input in
  let axis0 := tab2 H W (fun y x =>
                 blur1d H (fun i => get2 input i x F32.zero) y) in
  tab2 H W (fun y x => blur1d W (fun j => get2 axis0 y j F32.zero) x).

#[export] Instance library : Library := {
  gaussian_filter := blur;
  json_loads := loads;
  json_dumps := dumps;
  int_of_str := int_of_str
}.

End Ref.

(** ** The vocabulary of the statements *)

(** No sample of the array is a NaN. *)
Definition no_nan (a : list (list f32)) : Prop :=
  Forall (Forall (fun v => F32.is_nan v = false)) a.

(** The pixels [(i, j)] of the [H] x [W] image at most [h] rows and [h]
    columns away from [(y, x)]: the square window of side [2 h + 1]. *)
Definition in_window (H W h y x i j : Z) : Prop :=
  0 <= i < H /\ 0 <= j < W /\ Z.abs (i - y) <= h /\ Z.abs (j - x) <= h.

(** [g] is a sample of the array that no sample exceeds. *)
Definition is_global_max (H W : Z) (gray : list (list f32)) (g : f32) : Prop :=
  (exists i j, 0 <= i < H /\ 0 <= j < W /\ g = get2 gray i j F32.zero) /\
  (forall i j, 0 <= i < H -> 0 <= j < W -> F32.leb (get2 gray i j F32.zero) g = true).

(** The centre of a circle fits in int64. *)
Definition fits_circle (c : Z * Z * Z) : Prop :=
  I64.fits (fst (fst c)) = true /\ I64.fits (snd (fst c)) = true.

(** The pixel lies in one of the circles, by the test of the source. *)
Definition covered (circles : list (Z * Z * Z)) (y x : Z) : bool :=
  existsb (fun c => in_disk (fst (fst c)) (snd (fst c)) (snd c) y x) circles.

(** Every sample lies in [0, 1]. *)
Definition within01 (mask : list (list f32)) : Prop :=
  Forall (Forall (fun v => F32.leb F32.zero v = true /\ F32.leb v F32.one = true)) mask.

Definition fits_peak (p : Z * Z) : Prop :=
  I64.fits (fst p) = true /\ I64.fits (snd p) = true.

(** The ring drawn around a peak by the annotator. *)
Definition peak_ring (radius : Z) (p : Z * Z) (y x : Z) : bool :=
  ring_of (fst p) (snd p) (radius + 2) (Z.max 0 (radius - 1)) y x.

Definition in_image (H W : Z) (p : Z * Z) : Prop :=
  0 <= fst p < H /\ 0 <= snd p < W.

Definition get4 {A : Type} (a : list (list (list (list A)))) (b y x k : Z) (d : A) : A :=
  get3 (get a b []) y x k d.

(** [filtered = frame * (1 - mask)], the same mask on every channel. *)
Definition masked (H W C : Z) (frames filtered mask : list (list (list (list f32))))
  : Prop :=
  len filtered = len frames /\ len mask = len frames /\
  forall b y x, 0 <= b < len frames -> 0 <= y < H -> 0 <= x < W ->
    (forall k, 0 <= k < C ->
       get4 filtered b y x k F32.zero =
       F32.mul (get4 frames b y x k F32.zero)
               (F32.sub F32.one (get4 mask b y x 0 F32.zero))) /\
    (forall j, 0 <= j < 3 ->
       get4 mask b y x j F32.zero = get4 mask b y x 0 F32.zero).

(** A batch as the host passes it: at least one frame, all of one shape. *)
Definition wf_batch (H W C : Z) (frames : list (list (list (list f32)))) : Prop :=
  frames <> [] /\ Forall (rect3 H W C) frames /\
  1 <= H <= 2 ^ 31 /\ 1 <= W <= 2 ^ 31 /\ 1 <= C.

Definition empty_frame_out : frame_out :=
  {| fo_filtered := []; fo_mask := []; fo_preview := []; fo_peaks := [] |}.

(** The 8-bit code of a sample in the exported preview. *)
Definition encode_u8 (v : f32) : Z :=
  F32.trunc (F32.mul (F32.clip01 v) F32.c255) mod 256.


(** A sample is a float32: its mantissa and exponent are those of a binary32
    number (NaN, the infinities and the zeros are). *)
Definition is_f32 (v : f32) : Prop := valid_binary F32.prec F32.emax v = true.

(** Row-major order of pixel positions: by row, then by column. *)
Definition row_major_lt (p q : Z * Z) : Prop :=
  fst p < fst q \/ (fst p = fst q /\ snd p < snd q).

(** The sample that painting a ring leaves on channel [i]: the colour
    [(v0, v1, v2)] on the first three channels of a frame with at least three
    channels, [v0] on the first channel of a frame with fewer, and the old
    sample elsewhere. *)
Definition ring_sample (C : Z) (v0 v1 v2 : f32) (i : Z) (old : f32) : f32 :=
  if 3 <=? C
  then if i =? 0 then v0 else if i =? 1 then v1 else if i =? 2 then v2 else old
  else if i =? 0 then v0 else old.

(** The sample lies in [0, 1]. *)
Definition in_unit (v : f32) : Prop :=
  F32.leb F32.zero v = true /\ F32.leb v F32.one = true.

(** [int(p.get(k, default))] on one point of the list. *)
Definition point_field {L : Library} (p : json) (k : string) (default : Z) : result Z :=
  v <- py_get p k (JInt default) ;; py_int v.

(** ** The order of float32 samples, as a lexicographic order on keys *)

Module F32Order.

(** A key whose lexicographic order is the order of the samples. *)
Definition key (x : spec_float) : Z * Z * Z :=
  match x with
  | S754_nan => (0, 0, 0)
  | S754_zero _ => (0, 0, 0)
  | S754_infinity s => (if s then -2 else 2, 0, 0)
  | S754_finite s m e => if s then (-1, - e, - Zpos m) else (1, e, Zpos m)
  end.

Definition lex_le (a b : Z * Z * Z) : Prop :=
  let '(a1, a2, a3) := a in
  let '(b1, b2, b3) := b in
  a1 < b1 \/ (a1 = b1 /\ (a2 < b2 \/ (a2 = b2 /\ a3 <= b3))).

Definition lex_lt (a b : Z * Z * Z) : Prop :=
  let '(a1, a2, a3) := a in
  let '(b1, b2, b3) := b in
  a1 < b1 \/ (a1 = b1 /\ (a2 < b2 \/ (a2 = b2 /\ a3 < b3))).

End F32Order.

(** ** Test data *)

Module Examples.

(** A 3 x 3 frame with [C] equal channels: 1.0 at [(r, c)], 0.0 elsewhere. *)
Definition spike (C r c : Z) : list (list (list f32)) :=
  tab2 3 3 (fun y x =>
    tab C (fun _ => if (y =? r) && (x =? c) then F32.one else F32.zero)).

Definition black (C : Z) : list (list (list f32)) :=
  tab2 3 3 (fun _ _ => tab C (fun _ => F32.zero)).

Definition quarter : f32 := S754_finite false 8388608 (-25).

(** A 3 x 3 grayscale array with the values 1.0 at the centre and 0.0 elsewhere. *)
Definition gray_spike : list (list f32) :=
  tab2 3 3 (fun y x => if (y =? 1) && (x =? 1) then F32.one else F32.zero).

(** The same, 0.0 everywhere. *)
Definition gray_black : list (list f32) := tab2 3 3 (fun _ _ => F32.zero).

(** What the automatic node computes for the 3 x 3 one-channel spike. *)
Definition spike_out : frame_out :=
  Eval vm_compute in
    match auto_frame (L := Ref.library) 3 3 F32.c0_5 2 1 0 0 (spike 1 1 1) with
    | Ok fo => fo
    | Raise _ => empty_frame_out
    end.

(** The scenario of the specification: a 64 x 64 one-channel frame, 0.0
    everywhere but 1.0 at (10, 10). *)
Definition frame64 : list (list (list f32)) :=
  tab2 64 64 (fun y x => [if (y =? 10) && (x =? 10) then F32.one else F32.zero]).

End Examples.

(** * Part II: lemmas *)

(** * Lemmas on arrays *)

Section ArrayFacts.

Context {A B : Type}.

Lemma length_mapi_from (f : Z -> A -> B) (l : list A) (i : Z) :
  List.length (mapi_from i f l) = List.length l.
Proof. revert i; induction l as [|a l IH]; intros i; simpl; [reflexivity | now rewrite IH]. Qed.

Lemma len_mapi (f : Z -> A -> B) (l : list A) : len (mapi f l) = len l.
Proof. unfold len, mapi. now rewrite length_mapi_from. Qed.

Lemma nth_mapi_from (f : Z -> A -> B) (l : list A) (i : Z) (n : nat) (d : A) (d' : B) :
  (n < List.length l)%nat ->
  nth n (mapi_from i f l) d' = f (i + Z.of_nat n) (nth n l d).
Proof.
  revert i n; induction l as [|a l IH]; intros i n Hn; simpl in *; [lia|].
  destruct n as [|n].
  - now rewrite Z.add_0_r.
  - rewrite (IH (i + 1) n) by lia. f_equal. lia.
Qed.

Lemma get_mapi (f : Z -> A -> B) (l : list A) (i : Z) (d : A) (d' : B) :
  0 <= i < len l -> get (mapi f l) i d' = f i (get l i d).
Proof.
  intros Hi. unfold get, mapi, len in *.
  destruct (Z.ltb_spec i 0); [lia|].
  rewrite (nth_mapi_from f l 0 (Z.to_nat i) d d') by lia.
  f_equal. lia.
Qed.

Lemma get_out (l : list A) (i : Z) (d : A) :
  ~ (0 <= i < len l) -> get l i d = d.
Proof.
  intros Hi. unfold get, len in *.
  destruct (Z.ltb_spec i 0); [reflexivity|].
  apply nth_overflow. lia.
Qed.

Lemma len_tab (n : Z) (f : Z -> A) : len (tab n f) = Z.max 0 n.
Proof. unfold len, tab. rewrite length_map, length_seq. lia. Qed.

Lemma get_tab (n : Z) (f : Z -> A) (i : Z) (d : A) :
  0 <= i < n -> get (tab n f) i d = f i.
Proof.
  intros Hi. unfold get, tab.
  destruct (Z.ltb_spec i 0); [lia|].
  rewrite (nth_indep _ d (f 0)) by (rewrite length_map, length_seq; lia).
  rewrite (map_nth (fun k => f (Z.of_nat k)) (seq 0 (Z.to_nat n)) 0%nat).
  rewrite seq_nth by lia. f_equal. lia.
Qed.

Lemma len_nonneg (l : list A) : 0 <= len l.
Proof. unfold len. lia. Qed.

Lemma get_In (l : list A) (i : Z) (d : A) :
  0 <= i < len l -> In (get l i d) l.
Proof.
  intros Hi. unfold get, len in *.
  destruct (Z.ltb_spec i 0); [lia|]. apply nth_In. lia.
Qed.

Lemma In_get (l : list A) (a : A) (d : A) :
  In a l -> exists i, 0 <= i < len l /\ get l i d = a.
Proof.
  intros Ha. destruct (In_nth l a d Ha) as (n & Hn & Hnth).
  exists (Z.of_nat n). unfold get, len. split; [lia|].
  destruct (Z.ltb_spec (Z.of_nat n) 0); [lia|]. now rewrite Nat2Z.id.
Qed.

End ArrayFacts.

Lemma get2_mapi2 {A B : Type} (f : Z -> Z -> A -> B) (a : list (list A))
  (y x : Z) (d : A) (d' : B) :
  0 <= y < len a -> 0 <= x < len (get a y []) ->
  get2 (mapi2 f a) y x d' = f y x (get2 a y x d).
Proof.
  intros Hy Hx. unfold get2, mapi2.
  rewrite (get_mapi _ a y [] []) by assumption.
  now rewrite (get_mapi _ _ x d d') by assumption.
Qed.

Lemma len_mapi2 {A B : Type} (f : Z -> Z -> A -> B) (a : list (list A)) :
  len (mapi2 f a) = len a.
Proof. unfold mapi2. apply len_mapi. Qed.

Lemma len_get_mapi2 {A B : Type} (f : Z -> Z -> A -> B) (a : list (list A)) (y : Z) :
  len (get (mapi2 f a) y []) = len (get a y []).
Proof.
  unfold mapi2.
  destruct (Z.ltb_spec y 0) as [Hy|Hy]; [|destruct (Z.ltb_spec y (len a)) as [Hy'|Hy']].
  - rewrite !get_out by (pose proof (len_nonneg a); rewrite ?len_mapi; lia). reflexivity.
  - rewrite (get_mapi _ a y [] []) by lia. apply len_mapi.
  - rewrite !get_out by (rewrite ?len_mapi; lia). reflexivity.
Qed.

Lemma get2_tab2 {A : Type} (H W : Z) (f : Z -> Z -> A) (y x : Z) (d : A) :
  0 <= y < H -> 0 <= x < W -> get2 (tab2 H W f) y x d = f y x.
Proof.
  intros Hy Hx. unfold get2, tab2.
  rewrite get_tab by assumption. now rewrite get_tab.
Qed.

Lemma rect2_get {A : Type} (H W : Z) (a : list (list A)) (y : Z) :
  rect2 H W a -> 0 <= y < H -> len (get a y []) = W.
Proof.
  intros [Hl Hr] Hy. rewrite Forall_forall in Hr. apply Hr.
  apply get_In. lia.
Qed.

Lemma rect2_tab2 {A : Type} (H W : Z) (f : Z -> Z -> A) :
  0 <= H -> 0 <= W -> rect2 H W (tab2 H W f).
Proof.
  intros HH HW. split.
  - unfold tab2. rewrite len_tab. lia.
  - apply Forall_forall. intros row Hrow. unfold tab2, tab in Hrow.
    apply in_map_iff in Hrow. destruct Hrow as (k & <- & _).
    fold (tab W (fun x => f (Z.of_nat k) x)). rewrite len_tab. lia.
Qed.

Lemma rect2_mapi2 {A B : Type} (H W : Z) (f : Z -> Z -> A -> B) (a : list (list A)) :
  rect2 H W a -> rect2 H W (mapi2 f a).
Proof.
  intros [Hl Hr]. split.
  - now rewrite len_mapi2.
  - apply Forall_forall. intros row Hrow.
    destruct (In_get _ _ [] Hrow) as (y & Hy & <-).
    rewrite len_mapi2 in Hy. rewrite len_get_mapi2.
    rewrite Forall_forall in Hr. apply Hr. apply get_In. lia.
Qed.

Lemma In_concat_mapi {A B : Type} (f : Z -> A -> list B) (l : list A) (b : B) (d : A) :
  In b (List.concat (mapi f l)) <-> exists i, 0 <= i < len l /\ In b (f i (get l i d)).
Proof.
  rewrite in_concat. split.
  - intros (bs & Hbs & Hb).
    destruct (In_get _ _ [] Hbs) as (i & Hi & Hg).
    rewrite len_mapi in Hi. rewrite (get_mapi f l i d []) in Hg by assumption.
    exists i. split; [assumption|]. now rewrite Hg.
  - intros (i & Hi & Hb). exists (f i (get l i d)). split; [|assumption].
    rewrite <- (get_mapi f l i d []) by assumption.
    apply get_In. now rewrite len_mapi.
Qed.

Lemma In_argwhere (m : list (list bool)) (y x : Z) :
  In (y, x) (argwhere m) <->
  0 <= y < len m /\ 0 <= x < len (get m y []) /\ get2 m y x false = true.
Proof.
  unfold argwhere. rewrite (In_concat_mapi _ m (y, x) []). split.
  - intros (i & Hi & Hin).
    rewrite (In_concat_mapi _ _ (y, x) false) in Hin.
    destruct Hin as (j & Hj & Hin).
    destruct (get (get m i []) j false) eqn:E; simpl in Hin; [|contradiction].
    destruct Hin as [Heq|[]]. inversion Heq; subst. unfold get2. auto.
  - intros (Hy & Hx & Hg). exists y. split; [assumption|].
    rewrite (In_concat_mapi _ _ (y, x) false). exists x. split; [assumption|].
    unfold get2 in Hg. rewrite Hg. now left.
Qed.

(** * The order of float32 samples *)

Module F32Facts.

Import F32Order.

Ltac cmp_cases :=
  repeat match goal with
  | |- context [Z.compare ?a ?b] => destruct (Z.compare_spec a b)
  | |- context [Pos.compare_cont Eq ?a ?b] =>
      change (Pos.compare_cont Eq a b) with (Pos.compare a b);
      destruct (Pos.compare_spec a b)
  end.

Lemma leb_key (x y : spec_float) :
  F32.is_nan x = false -> F32.is_nan y = false ->
  (F32.leb x y = true <-> lex_le (key x) (key y)).
Proof.
  intros Hx Hy. unfold F32.leb, SFleb.
  destruct x as [sx|sx| |sx mx ex], y as [sy|sy| |sy my ey];
    try discriminate; try destruct sx; try destruct sy; simpl;
    cmp_cases; simpl; split; intros; subst; try lia; try discriminate;
    try reflexivity.
Qed.

Lemma ltb_key (x y : spec_float) :
  F32.is_nan x = false -> F32.is_nan y = false ->
  (F32.ltb x y = true <-> lex_lt (key x) (key y)).
Proof.
  intros Hx Hy. unfold F32.ltb, SFltb.
  destruct x as [sx|sx| |sx mx ex], y as [sy|sy| |sy my ey];
    try discriminate; try destruct sx; try destruct sy; simpl;
    cmp_cases; simpl; split; intros; subst; try lia; try discriminate;
    try reflexivity.
Qed.

Lemma eqb_key (x y : spec_float) :
  F32.is_nan x = false -> F32.is_nan y = false ->
  (F32.eqb x y = true <-> key x = key y).
Proof.
  intros Hx Hy. unfold F32.eqb, SFeqb.
  destruct x as [sx|sx| |sx mx ex], y as [sy|sy| |sy my ey];
    try discriminate; try destruct sx; try destruct sy; simpl;
    cmp_cases; simpl; split; intros HH; subst; try lia; try discriminate;
    try reflexivity; try congruence;
    try (inversion HH; subst; lia).
Qed.

Lemma leb_refl (x : spec_float) : F32.is_nan x = false -> F32.leb x x = true.
Proof.
  intros Hx. apply leb_key; try assumption.
  unfold lex_le. destruct (key x) as [[a b] c]. lia.
Qed.

Lemma leb_trans (x y z : spec_float) :
  F32.is_nan x = false -> F32.is_nan y = false -> F32.is_nan z = false ->
  F32.leb x y = true -> F32.leb y z = true -> F32.leb x z = true.
Proof.
  intros Hx Hy Hz. rewrite !leb_key by assumption.
  unfold lex_le. destruct (key x) as [[a b] c], (key y) as [[a' b'] c'],
    (key z) as [[a'' b''] c'']. lia.
Qed.

Lemma leb_total (x y : spec_float) :
  F32.is_nan x = false -> F32.is_nan y = false ->
  F32.ltb x y = false -> F32.leb y x = true.
Proof.
  intros Hx Hy Hlt. apply leb_key; try assumption.
  assert (Hn : ~ lex_lt (key x) (key y)).
  { intros H. apply ltb_key in H; try assumption. congruence. }
  unfold lex_le, lex_lt in *.
  destruct (key x) as [[a b] c], (key y) as [[a' b'] c']. lia.
Qed.

Lemma ltb_leb (x y : spec_float) :
  F32.is_nan x = false -> F32.is_nan y = false ->
  F32.ltb x y = true -> F32.leb x y = true.
Proof.
  intros Hx Hy. rewrite ltb_key, leb_key by assumption.
  unfold lex_le, lex_lt.
  destruct (key x) as [[a b] c], (key y) as [[a' b'] c']. lia.
Qed.

Lemma eqb_leb (x y : spec_float) :
  F32.is_nan x = false -> F32.is_nan y = false ->
  (F32.eqb x y = true <-> F32.leb x y = true /\ F32.leb y x = true).
Proof.
  intros Hx Hy. rewrite eqb_key, !leb_key by assumption.
  unfold lex_le.
  destruct (key x) as [[a b] c], (key y) as [[a' b'] c']. split.
  - intros H. inversion H; subst. lia.
  - intros H. assert (a = a' /\ b = b' /\ c = c') as (-> & -> & ->) by lia.
    reflexivity.
Qed.

Lemma leb_nan_l (x y : spec_float) : F32.leb x y = true -> F32.is_nan x = false.
Proof. destruct x; try reflexivity. destruct y; discriminate. Qed.

Lemma leb_nan_r (x y : spec_float) : F32.leb x y = true -> F32.is_nan y = false.
Proof. destruct y; try reflexivity. destruct x; discriminate. Qed.

End F32Facts.

Import F32Order F32Facts.

(** * The maximum filter *)

Lemma reflect_range (n i : Z) : 0 < n -> 0 <= reflect n i < n.
Proof.
  intros Hn. unfold reflect.
  pose proof (Z.mod_pos_bound i (2 * n) ltac:(lia)) as Hm.
  destruct (Z.ltb_spec (i mod (2 * n)) n); lia.
Qed.

Lemma reflect_id (n i : Z) : 0 <= i < n -> reflect n i = i.
Proof.
  intros Hi. unfold reflect.
  rewrite Z.mod_small by lia.
  destruct (Z.ltb_spec i n); lia.
Qed.

Lemma reflect_near (n r i : Z) :
  0 <= r < n -> Z.abs (reflect n i - r) <= Z.abs (i - r).
Proof.
  intros Hr. unfold reflect.
  pose proof (Z.mod_pos_bound i (2 * n) ltac:(lia)) as Hm.
  pose proof (Z.div_mod i (2 * n) ltac:(lia)) as Hd.
  set (q := i / (2 * n)) in *. set (m := i mod (2 * n)) in *.
  assert (Hq : q <= -1 \/ q = 0 \/ 1 <= q) by lia.
  destruct (Z.ltb_spec m n); destruct Hq as [Hq|[Hq|Hq]]; nia.
Qed.

Lemma no_nan_get2 (a : list (list f32)) (y x : Z) :
  no_nan a -> F32.is_nan (get2 a y x F32.zero) = false.
Proof.
  intros Ha. unfold get2.
  destruct (Z.ltb_spec y 0) as [Hy|Hy]; [|destruct (Z.ltb_spec y (len a)) as [Hy'|Hy']].
  - rewrite (get_out a) by lia. unfold get. destruct (x <? 0); [reflexivity|].
    now destruct (Z.to_nat x).
  - assert (Hrow : Forall (fun v => F32.is_nan v = false) (get a y [])).
    { unfold no_nan in Ha. rewrite Forall_forall in Ha. apply Ha. apply get_In. lia. }
    destruct (Z.ltb_spec x 0) as [Hx|Hx];
      [|destruct (Z.ltb_spec x (len (get a y []))) as [Hx'|Hx']].
    + rewrite get_out by lia. reflexivity.
    + rewrite Forall_forall in Hrow. apply Hrow. apply get_In. lia.
    + rewrite get_out by lia. reflexivity.
  - rewrite (get_out a) by lia. unfold get. destruct (x <? 0); [reflexivity|].
    now destruct (Z.to_nat x).
Qed.

Lemma f32_max_cases (a b : f32) :
  F32.is_nan a = false -> F32.is_nan b = false ->
  (f32_max a b = a \/ f32_max a b = b) /\
  F32.leb a (f32_max a b) = true /\ F32.leb b (f32_max a b) = true.
Proof.
  intros Ha Hb. unfold f32_max. destruct (F32.ltb a b) eqn:E.
  - repeat split; [now right | now apply ltb_leb | now apply leb_refl].
  - repeat split; [now left | now apply leb_refl | now apply leb_total].
Qed.

Lemma fold_max_spec (f : Z -> f32) (n : nat) :
  (forall k, 0 <= k <= Z.of_nat n -> F32.is_nan (f k) = false) ->
  (exists k, 0 <= k <= Z.of_nat n /\
     fold_left (fun acc k => f32_max acc (f (Z.of_nat k))) (seq 1 n) (f 0) = f k) /\
  (forall k, 0 <= k <= Z.of_nat n ->
     F32.leb (f k)
       (fold_left (fun acc k => f32_max acc (f (Z.of_nat k))) (seq 1 n) (f 0)) = true).
Proof.
  induction n as [|n IH]; intros Hf.
  - simpl. split.
    + exists 0. split; [lia | reflexivity].
    + intros k Hk. assert (k = 0) as -> by lia. apply leb_refl. apply Hf. lia.
  - rewrite seq_S, fold_left_app. cbn [fold_left].
    destruct IH as [(k0 & Hk0 & Hw) Hle]; [intros k Hk; apply Hf; lia|].
    set (w := fold_left _ (seq 1 n) (f 0)) in *.
    assert (Hwn : F32.is_nan w = false) by (rewrite Hw; apply Hf; lia).
    assert (Hfn : F32.is_nan (f (Z.of_nat (1 + n))) = false) by (apply Hf; lia).
    destruct (f32_max_cases w (f (Z.of_nat (1 + n))) Hwn Hfn) as (Hc & Hl1 & Hl2).
    split.
    + destruct Hc as [Hc|Hc]; rewrite Hc.
      * exists k0. split; [lia | assumption].
      * exists (Z.of_nat (1 + n)). split; [lia | reflexivity].
    + intros k Hk.
      assert (Hmn : F32.is_nan (f32_max w (f (Z.of_nat (1 + n)))) = false).
      { destruct Hc as [Hc|Hc]; rewrite Hc; assumption. }
      destruct (Z.eq_dec k (Z.of_nat (1 + n))) as [->|Hne]; [assumption|].
      apply leb_trans with w; try assumption.
      * apply Hf. lia.
      * apply Hle. lia.
Qed.

Lemma window_max_spec (size : Z) (f : Z -> f32) :
  1 <= size ->
  (forall k, 0 <= k < size -> F32.is_nan (f k) = false) ->
  (exists k, 0 <= k < size /\ window_max size f = f k) /\
  (forall k, 0 <= k < size -> F32.leb (f k) (window_max size f) = true).
Proof.
  intros Hs Hf. unfold window_max.
  destruct (fold_max_spec f (Z.to_nat size - 1)) as [(k & Hk & Hw) Hle].
  - intros k Hk. apply Hf. lia.
  - split.
    + exists k. split; [lia | assumption].
    + intros k' Hk'. apply Hle. lia.
Qed.

Lemma maximum_filter1d_spec (h n : Z) (line : Z -> f32) (i : Z) :
  0 <= h -> 0 <= i < n ->
  (forall k, F32.is_nan (line k) = false) ->
  (exists k, 0 <= k < n /\ Z.abs (k - i) <= h /\
             maximum_filter1d (2 * h + 1) n line i = line k) /\
  (forall k, 0 <= k < n -> Z.abs (k - i) <= h ->
             F32.leb (line k) (maximum_filter1d (2 * h + 1) n line i) = true).
Proof.
  intros Hh Hi Hline. unfold maximum_filter1d.
  replace ((2 * h + 1) / 2) with h by (apply Z.div_unique with 1; lia).
  destruct (window_max_spec (2 * h + 1)
              (fun k => line (reflect n (i - h + k)))) as [(k & Hk & Hw) Hle].
  - lia.
  - intros k _. apply Hline.
  - split.
    + exists (reflect n (i - h + k)). split; [apply reflect_range; lia|].
      split; [|assumption].
      pose proof (reflect_near n i (i - h + k) Hi). lia.
    + intros k' Hk' Habs.
      specialize (Hle (k' - i + h) ltac:(lia)). simpl in Hle.
      replace (i - h + (k' - i + h)) with k' in Hle by lia.
      now rewrite reflect_id in Hle by assumption.
Qed.

Lemma maximum_filter_spec (gray : list (list f32)) (H W h y x : Z) :
  rect2 H W gray -> no_nan gray -> 0 <= h -> 0 <= y < H -> 0 <= x < W ->
  let v := get2 (maximum_filter gray (2 * h + 1)) y x F32.zero in
  (exists i j, in_window H W h y x i j /\ v = get2 gray i j F32.zero) /\
  (forall i j, in_window H W h y x i j -> F32.leb (get2 gray i j F32.zero) v = true).
Proof.
  intros Hrect Hnan Hh Hy Hx. cbv zeta.
  assert (HH : height gray = H) by (destruct Hrect; assumption).
  assert (HW : width gray = W).
  { unfold width. destruct Hrect as [Hl Hr]. destruct gray as [|row rest].
    - unfold len in Hl. simpl in Hl. lia.
    - simpl. now inversion Hr. }
  unfold maximum_filter. rewrite HH, HW.
  set (axis0 := tab2 H W (fun y x =>
                  maximum_filter1d (2 * h + 1) H (fun i => get2 gray i x F32.zero) y)) in *.
  assert (Ha0 : forall y' x', 0 <= y' < H -> 0 <= x' < W ->
            get2 axis0 y' x' F32.zero =
            maximum_filter1d (2 * h + 1) H (fun i => get2 gray i x' F32.zero) y').
  { intros y' x' Hy' Hx'. unfold axis0. now rewrite get2_tab2. }
  assert (Ha0nan : forall j, F32.is_nan (get2 axis0 y j F32.zero) = false).
  { intros j. destruct (Z.ltb_spec j 0) as [Hj|Hj];
      [|destruct (Z.ltb_spec j W) as [Hj'|Hj']].
    - unfold get2. rewrite (get_out (get axis0 y [])) by lia. reflexivity.
    - rewrite Ha0 by lia.
      destruct (maximum_filter1d_spec h H (fun i => get2 gray i j F32.zero) y)
        as [(k & _ & _ & ->) _]; try assumption.
      + intros k. now apply no_nan_get2.
      + now apply no_nan_get2.
    - unfold get2. rewrite (get_out (get axis0 y [])); [reflexivity|].
      unfold axis0, tab2. rewrite get_tab by lia. rewrite len_tab. lia. }
  rewrite get2_tab2 by assumption.
  destruct (maximum_filter1d_spec h W (fun j => get2 axis0 y j F32.zero) x)
    as [(j1 & Hj1 & Hj1' & Hv) Hle]; try assumption.
  rewrite Hv. split.
  - rewrite Ha0 by lia.
    destruct (maximum_filter1d_spec h H (fun i => get2 gray i j1 F32.zero) y)
      as [(i1 & Hi1 & Hi1' & Hv') _]; try assumption.
    { intros k. now apply no_nan_get2. }
    exists i1, j1. split; [unfold in_window; lia | assumption].
  - intros i j (Hi & Hj & Hiy & Hjx).
    apply leb_trans with (get2 axis0 y j F32.zero).
    + now apply no_nan_get2.
    + apply Ha0nan.
    + apply Ha0nan.
    + rewrite Ha0 by lia.
      destruct (maximum_filter1d_spec h H (fun i => get2 gray i j F32.zero) y)
        as [_ Hle0]; try assumption.
      { intros k. now apply no_nan_get2. }
      now apply Hle0.
    + rewrite Hv in Hle. apply (Hle j); assumption.
Qed.

Lemma leb_false (x y : spec_float) :
  F32.is_nan x = false -> F32.is_nan y = false ->
  F32.leb x y = false -> F32.leb y x = true.
Proof.
  intros Hx Hy Hf. apply leb_key; try assumption.
  assert (Hn : ~ lex_le (key x) (key y)).
  { intros H. apply leb_key in H; try assumption. congruence. }
  unfold lex_le in *.
  destruct (key x) as [[a b] c], (key y) as [[a' b'] c']. lia.
Qed.

(** * int64 arithmetic without overflow *)

Lemma wrap_small (z : Z) : - 2 ^ 63 <= z < 2 ^ 63 -> I64.wrap z = z.
Proof. intros Hz. unfold I64.wrap. rewrite Z.mod_small; lia. Qed.

Lemma in_disk_exact (r c rad y x : Z) :
  Z.abs (x - c) < 2 ^ 31 -> Z.abs (y - r) < 2 ^ 31 ->
  in_disk r c rad y x = ((x - c) ^ 2 + (y - r) ^ 2 <=? rad ^ 2).
Proof.
  intros Hx Hy. unfold in_disk, I64.add, I64.sq, I64.sub.
  assert (H31 : 2 ^ 31 * 2 ^ 31 = 2 ^ 62) by reflexivity.
  assert (H63 : 2 ^ 63 = 2 * 2 ^ 62) by reflexivity.
  rewrite (wrap_small (x - c)) by lia.
  rewrite (wrap_small (y - r)) by lia.
  assert (0 <= (x - c) * (x - c) < 2 ^ 62) by nia.
  assert (0 <= (y - r) * (y - r) < 2 ^ 62) by nia.
  rewrite (wrap_small ((x - c) * (x - c))) by lia.
  rewrite (wrap_small ((y - r) * (y - r))) by lia.
  rewrite wrap_small by lia.
  now rewrite !Z.pow_2_r.
Qed.

(** * The global maximum *)

Lemma np_maximum_cases (a b : f32) :
  F32.is_nan a = false -> F32.is_nan b = false ->
  (F32.np_maximum a b = a \/ F32.np_maximum a b = b) /\
  F32.leb a (F32.np_maximum a b) = true /\ F32.leb b (F32.np_maximum a b) = true.
Proof.
  intros Ha Hb. unfold F32.np_maximum. rewrite Ha.
  destruct (F32.leb b a) eqn:E.
  - repeat split; [now left | now apply leb_refl | assumption].
  - repeat split; [now right | now apply leb_false | now apply leb_refl].
Qed.

Lemma fold_np_maximum_spec (l : list f32) (x : f32) :
  Forall (fun v => F32.is_nan v = false) (x :: l) ->
  In (fold_left F32.np_maximum l x) (x :: l) /\
  (forall v, In v (x :: l) -> F32.leb v (fold_left F32.np_maximum l x) = true).
Proof.
  revert x. induction l as [|b l IH]; intros x Hn.
  - simpl. split; [now left|]. intros v [<-|[]]. apply leb_refl. now inversion Hn.
  - simpl fold_left. inversion Hn as [|? ? Hx Hbl]; subst.
    inversion Hbl as [|? ? Hb Hl]; subst.
    destruct (np_maximum_cases x b Hx Hb) as (Hc & Hxa & Hba).
    assert (Hmn : F32.is_nan (F32.np_maximum x b) = false)
      by (destruct Hc as [-> | ->]; assumption).
    destruct (IH (F32.np_maximum x b)) as [Hin Hle]; [now constructor|].
    assert (Hfn : F32.is_nan (fold_left F32.np_maximum l (F32.np_maximum x b)) = false).
    { destruct Hin as [<-|Hin]; [assumption|].
      rewrite Forall_forall in Hl. now apply Hl. }
    split.
    + destruct Hin as [Hin|Hin].
      * rewrite <- Hin. destruct Hc as [-> | ->]; [now left | right; now left].
      * right; right; assumption.
    + intros v [<-|[<-|Hv]].
      * apply leb_trans with (F32.np_maximum x b); try assumption.
        apply Hle. now left.
      * apply leb_trans with (F32.np_maximum x b); try assumption.
        apply Hle. now left.
      * apply Hle. now right.
Qed.

Lemma In_concat_get2 {A : Type} (a : list (list A)) (H W : Z) (v d : A) :
  rect2 H W a ->
  (In v (List.concat a) <-> exists i j, 0 <= i < H /\ 0 <= j < W /\ v = get2 a i j d).
Proof.
  intros Hrect. rewrite in_concat. split.
  - intros (row & Hrow & Hv).
    destruct (In_get _ _ [] Hrow) as (i & Hi & <-).
    destruct (In_get _ _ d Hv) as (j & Hj & <-).
    destruct Hrect as [Hl Hr].
    exists i, j. rewrite (rect2_get H W a i) in Hj by (try split; try assumption; lia).
    repeat split; try lia.
  - intros (i & j & Hi & Hj & ->). exists (get a i []).
    destruct Hrect as [Hl Hr]. split.
    + apply get_In. lia.
    + apply get_In. rewrite (rect2_get H W a i); try split; try assumption; lia.
Qed.

Lemma amax_spec (gray : list (list f32)) (H W : Z) :
  rect2 H W gray -> 1 <= H -> 1 <= W -> no_nan gray ->
  exists g, amax gray = Ok g /\ is_global_max H W gray g.
Proof.
  intros Hrect HH HW Hnan. unfold amax.
  assert (Hall : Forall (fun v => F32.is_nan v = false) (List.concat gray)).
  { apply Forall_forall. intros v Hv. apply in_concat in Hv.
    destruct Hv as (row & Hrow & Hv). unfold no_nan in Hnan.
    rewrite Forall_forall in Hnan. specialize (Hnan row Hrow).
    rewrite Forall_forall in Hnan. now apply Hnan. }
  destruct (List.concat gray) as [|x l] eqn:E.
  - exfalso.
    assert (Hin : In (get2 gray 0 0 F32.zero) (List.concat gray)).
    { apply (In_concat_get2 gray H W _ F32.zero Hrect). exists 0, 0. repeat split; lia. }
    rewrite E in Hin. contradiction.
  - eexists. split; [reflexivity|].
    destruct (fold_np_maximum_spec l x Hall) as [Hin Hle]. split.
    + rewrite <- E in Hin. now apply (In_concat_get2 gray H W _ F32.zero Hrect) in Hin.
    + intros i j Hi Hj. apply Hle. rewrite <- E.
      apply (In_concat_get2 gray H W _ F32.zero Hrect). now exists i, j.
Qed.

(** * Peak detection *)

Lemma window_side (md : Z) :
  Z.max 3 (md * 2 + 1) = 2 * Z.max 1 md + 1 /\ Z.max 3 (md * 2 + 1) / 2 = Z.max 1 md.
Proof.
  assert (E : Z.max 3 (md * 2 + 1) = 2 * Z.max 1 md + 1) by lia.
  split; [assumption|]. rewrite E. symmetry. apply Z.div_unique with 1; lia.
Qed.

Lemma detect_peaks_spec (H W : Z) (gray : list (list f32)) (thr : f32) (md pdc : Z) :
  rect2 H W gray -> 1 <= H <= 2 ^ 31 -> 1 <= W <= 2 ^ 31 -> no_nan gray ->
  exists peaks gmax,
    detect_peaks H W gray thr md pdc = Ok peaks /\
    is_global_max H W gray gmax /\
    forall r c,
      In (r, c) peaks <->
      (0 <= r < H /\ 0 <= c < W /\
       (forall i j, in_window H W (Z.max 3 (md * 2 + 1) / 2) r c i j ->
                    F32.leb (get2 gray i j F32.zero) (get2 gray r c F32.zero) = true) /\
       F32.leb (F32.mul thr gmax) (get2 gray r c F32.zero) = true /\
       (0 < pdc -> pdc ^ 2 < (c - W / 2) ^ 2 + (r - H / 2) ^ 2)).
Proof.
  intros Hrect HH HW Hnan.
  destruct (amax_spec gray H W Hrect ltac:(lia) ltac:(lia) Hnan) as (g & Hg & Hgmax).
  destruct (window_side md) as [Eside Ehalf]. rewrite Ehalf.
  unfold detect_peaks. rewrite Hg. cbn [bind]. rewrite Eside.
  eexists. exists g. split; [reflexivity|]. split; [assumption|].
  intros r c. rewrite In_argwhere.
  set (lm := mapi2 _ gray).
  assert (Hlm : rect2 H W lm) by (apply rect2_mapi2; assumption).
  assert (Hdc : forall y x, 0 <= y < H -> 0 <= x < W ->
            in_disk (H / 2) (W / 2) pdc y x =
            ((x - W / 2) ^ 2 + (y - H / 2) ^ 2 <=? pdc ^ 2)).
  { intros y x Hy Hx.
    assert (0 <= W / 2 < W) by (split; [apply Z.div_pos | apply Z.div_lt]; lia).
    assert (0 <= H / 2 < H) by (split; [apply Z.div_pos | apply Z.div_lt]; lia).
    apply in_disk_exact; lia. }
  assert (Hwin : forall y x, 0 <= y < H -> 0 <= x < W ->
            (F32.eqb (get2 gray y x F32.zero)
               (get2 (maximum_filter gray (2 * Z.max 1 md + 1)) y x F32.zero) = true <->
             forall i j, in_window H W (Z.max 1 md) y x i j ->
               F32.leb (get2 gray i j F32.zero) (get2 gray y x F32.zero) = true)).
  { intros y x Hy Hx.
    destruct (maximum_filter_spec gray H W (Z.max 1 md) y x Hrect Hnan ltac:(lia) Hy Hx)
      as [(i1 & j1 & Hw1 & Hv) Hle].
    set (nb := get2 (maximum_filter gray (2 * Z.max 1 md + 1)) y x F32.zero) in *.
    assert (Hnb : F32.is_nan nb = false) by (rewrite Hv; now apply no_nan_get2).
    assert (Hself : in_window H W (Z.max 1 md) y x y x) by (unfold in_window; lia).
    rewrite eqb_leb by (try assumption; now apply no_nan_get2). split.
    - intros [_ Hnbv] i j Hw.
      apply leb_trans with nb; try assumption; try now apply no_nan_get2.
      now apply Hle.
    - intros Hall. split; [now apply Hle|]. rewrite Hv. now apply Hall. }
  assert (Hget : forall y x, 0 <= y < H -> 0 <= x < W ->
            get2 lm y x false =
            F32.eqb (get2 gray y x F32.zero)
              (get2 (maximum_filter gray (2 * Z.max 1 md + 1)) y x F32.zero)
            && F32.leb (F32.mul thr g) (get2 gray y x F32.zero)).
  { intros y x Hy Hx. unfold lm.
    rewrite (get2_mapi2 _ gray y x F32.zero false); [reflexivity| |].
    - destruct Hrect; lia.
    - rewrite (rect2_get H W gray y); assumption. }
  destruct (Z.ltb_spec 0 pdc) as [Hp|Hp].
  - assert (Hl1 : len (assign_where (in_disk (H / 2) (W / 2) pdc) false lm) = H).
    { unfold assign_where. rewrite len_mapi2. now destruct Hlm. }
    rewrite Hl1. split.
    + intros (Hr & Hc & Hv).
      unfold assign_where in Hc. rewrite len_get_mapi2 in Hc.
      rewrite (rect2_get H W lm r) in Hc by assumption.
      unfold assign_where in Hv.
      rewrite (get2_mapi2 _ lm r c false false) in Hv;
        [| destruct Hlm; lia | rewrite (rect2_get H W lm r); assumption].
      rewrite Hdc in Hv by assumption.
      destruct (Z.leb_spec ((c - W / 2) ^ 2 + (r - H / 2) ^ 2) (pdc ^ 2));
        [discriminate|].
      rewrite Hget in Hv by assumption. apply andb_true_iff in Hv.
      destruct Hv as [Hv1 Hv2].
      repeat split; try lia; try assumption.
      now apply Hwin.
    + intros (Hr & Hc & Hall & Hthr & Hout). specialize (Hout Hp).
      split; [assumption|]. unfold assign_where. rewrite len_get_mapi2.
      rewrite (rect2_get H W lm r) by assumption. split; [assumption|].
      rewrite (get2_mapi2 _ lm r c false false);
        [| destruct Hlm; lia | rewrite (rect2_get H W lm r); assumption].
      rewrite Hdc by assumption.
      destruct (Z.leb_spec ((c - W / 2) ^ 2 + (r - H / 2) ^ 2) (pdc ^ 2)); [lia|].
      rewrite Hget by assumption. apply andb_true_iff. split; [|assumption].
      now apply Hwin.
  - pose proof Hlm as [Hl1 Hr1]. rewrite Hl1. split.
    + intros (Hr & Hc & Hv).
      rewrite (rect2_get H W lm r) in Hc by assumption.
      rewrite Hget in Hv by assumption. apply andb_true_iff in Hv.
      destruct Hv as [Hv1 Hv2].
      repeat split; try lia; try assumption.
      now apply Hwin.
    + intros (Hr & Hc & Hall & Hthr & Hout).
      split; [assumption|].
      rewrite (rect2_get H W lm r) by assumption. split; [assumption|].
      rewrite Hget by assumption. apply andb_true_iff. split; [|assumption].
      now apply Hwin.
Qed.

(** * Masks *)

Lemma zeros_ok (H W : Z) :
  0 <= H -> 0 <= W ->
  zeros H W = Ok (tab2 H W (fun _ _ => F32.zero)).
Proof.
  intros HH HW. unfold zeros.
  destruct (Z.ltb_spec H 0); destruct (Z.ltb_spec W 0); try lia. reflexivity.
Qed.

Lemma get2_assign_where {A : Type} (H W : Z) (cond : Z -> Z -> bool) (v : A)
  (a : list (list A)) (y x : Z) (d : A) :
  rect2 H W a -> 0 <= y < H -> 0 <= x < W ->
  get2 (assign_where cond v a) y x d = if cond y x then v else get2 a y x d.
Proof.
  intros Hrect Hy Hx. unfold assign_where.
  rewrite (get2_mapi2 _ a y x d d); [reflexivity| |].
  - destruct Hrect; lia.
  - now rewrite (rect2_get H W a y).
Qed.

Lemma draw_circles_spec (H W : Z) (circles : list (Z * Z * Z)) (mask : list (list f32)) :
  rect2 H W mask -> Forall fits_circle circles ->
  exists mask',
    draw_circles circles mask = Ok mask' /\ rect2 H W mask' /\
    forall y x, 0 <= y < H -> 0 <= x < W ->
      get2 mask' y x F32.zero =
      if covered circles y x then F32.one else get2 mask y x F32.zero.
Proof.
  revert mask. induction circles as [|[[r c] rad] rest IH]; intros mask Hrect Hfit.
  - exists mask. simpl. auto.
  - inversion Hfit as [|? ? [Hr Hc] Hrest]; subst. simpl in Hr, Hc.
    cbn [draw_circles]. unfold draw_circle, to_i64. rewrite Hc, Hr. cbn [bind].
    destruct (IH (assign_where (in_disk r c rad) F32.one mask)) as (m' & Hm' & Hrect' & Hget).
    + now apply rect2_mapi2.
    + assumption.
    + exists m'. split; [assumption|]. split; [assumption|].
      intros y x Hy Hx. rewrite Hget by assumption.
      rewrite (get2_assign_where H W) by assumption.
      unfold covered. cbn [existsb fst snd].
      fold (covered rest y x).
      destruct (in_disk r c rad y x), (covered rest y x); reflexivity.
Qed.

Lemma draw_circles_raise (circles : list (Z * Z * Z)) (mask : list (list f32)) :
  Exists (fun c => ~ fits_circle c) circles ->
  draw_circles circles mask = Raise OverflowError.
Proof.
  revert mask. induction circles as [|[[r c] rad] rest IH]; intros mask Hex.
  - inversion Hex.
  - cbn [draw_circles]. unfold draw_circle, to_i64.
    destruct (I64.fits c) eqn:Ec; [|reflexivity].
    destruct (I64.fits r) eqn:Er; [|reflexivity].
    cbn [bind]. apply IH. inversion Hex as [? ? Hn|]; subst; [|assumption].
    exfalso. apply Hn. split; assumption.
Qed.

Lemma clip01_range (x : f32) :
  F32.is_nan x = false ->
  F32.leb F32.zero (F32.clip01 x) = true /\ F32.leb (F32.clip01 x) F32.one = true.
Proof.
  intros Hx. unfold F32.clip01. rewrite Hx.
  destruct (F32.ltb x F32.zero) eqn:E0; [split; reflexivity|].
  destruct (F32.ltb F32.one x) eqn:E1; [split; reflexivity|].
  split.
  - apply leb_total; [assumption | reflexivity | assumption].
  - apply leb_total; [reflexivity | assumption | assumption].
Qed.

Lemma within01_clip (m : list (list f32)) :
  no_nan m -> within01 (map (map F32.clip01) m).
Proof.
  intros Hm. unfold within01, no_nan in *.
  apply Forall_map. eapply Forall_impl; [|exact Hm].
  intros row Hrow. apply Forall_map. eapply Forall_impl; [|exact Hrow].
  intros v Hv. now apply clip01_range.
Qed.

Lemma Forall_tab {A : Type} (P : A -> Prop) (n : Z) (f : Z -> A) :
  (forall i, 0 <= i < n -> P (f i)) -> Forall P (tab n f).
Proof.
  intros Hf. unfold tab. apply Forall_forall. intros a Ha.
  apply in_map_iff in Ha. destruct Ha as (k & <- & Hk). apply in_seq in Hk.
  apply Hf. lia.
Qed.

Lemma Forall_get2 {A : Type} (P : A -> Prop) (H W : Z) (a : list (list A)) (d : A) :
  rect2 H W a ->
  (forall y x, 0 <= y < H -> 0 <= x < W -> P (get2 a y x d)) ->
  Forall (Forall P) a.
Proof.
  intros Hrect Hall. apply Forall_forall. intros row Hrow.
  destruct (In_get _ _ [] Hrow) as (y & Hy & <-).
  apply Forall_forall. intros v Hv.
  destruct (In_get _ _ d Hv) as (x & Hx & <-).
  pose proof Hrect as [Hl Hr].
  assert (Hyy : 0 <= y < H) by lia.
  rewrite (rect2_get H W a y) in Hx by assumption.
  now apply Hall.
Qed.

Lemma fits_small (z : Z) : Z.abs z <= 2 ^ 30 -> I64.fits z = true.
Proof.
  intros Hz. unfold I64.fits.
  assert (2 ^ 30 < 2 ^ 63) by reflexivity.
  apply andb_true_iff. split; [apply Z.leb_le | apply Z.ltb_lt]; lia.
Qed.

Lemma draw_circles_fits (circles : list (Z * Z * Z)) (mask mask' : list (list f32)) :
  draw_circles circles mask = Ok mask' -> Forall fits_circle circles.
Proof.
  revert mask. induction circles as [|[[r c] rad] rest IH]; intros mask Hd.
  - constructor.
  - cbn [draw_circles] in Hd. unfold draw_circle, to_i64 in Hd.
    destruct (I64.fits c) eqn:Ec; [|discriminate].
    destruct (I64.fits r) eqn:Er; [|discriminate].
    cbn [bind] in Hd. constructor; [split; assumption | eapply IH; eassumption].
Qed.

Lemma existsb_ext_in {A : Type} (f g : A -> bool) (l : list A) :
  (forall a, In a l -> f a = g a) -> existsb f l = existsb g l.
Proof.
  induction l as [|a l IH]; intros Hfg; simpl; [reflexivity|].
  rewrite Hfg by now left. rewrite IH; [reflexivity|].
  intros b Hb. apply Hfg. now right.
Qed.

Lemma existsb_map {A B : Type} (f : B -> bool) (g : A -> B) (l : list A) :
  existsb f (map g l) = existsb (fun a => f (g a)) l.
Proof. induction l as [|a l IH]; simpl; [reflexivity | now rewrite IH]. Qed.

Lemma half_range (n : Z) : 0 <= n -> 0 <= n / 2 /\ 2 * (n / 2) <= n.
Proof.
  intros Hn. split; [apply Z.div_pos; lia|].
  apply Z.mul_div_le. lia.
Qed.

Section MaskTheorems.

Context {L : Library}.

Lemma covered_is_union_of_disks (H W radius : Z) (peaks : list (Z * Z)) (y x : Z) :
  0 <= H <= 2 ^ 30 -> 0 <= W <= 2 ^ 30 ->
  Forall (fun p => Z.abs (fst p) <= 2 ^ 30 /\ Z.abs (snd p) <= 2 ^ 30) peaks ->
  0 <= y < H -> 0 <= x < W ->
  covered (map (fun p => (fst p, snd p, radius)) peaks) y x =
  existsb (fun p => (x - snd p) ^ 2 + (y - fst p) ^ 2 <=? radius ^ 2) peaks.
Proof.
  intros HH HW Hsmall Hy Hx. unfold covered. rewrite existsb_map. cbn [fst snd].
  apply existsb_ext_in.
  intros p Hp. rewrite Forall_forall in Hsmall. destruct (Hsmall p Hp) as [Hr Hc].
  assert (2 ^ 31 = 2 * 2 ^ 30) by reflexivity.
  apply in_disk_exact; lia.
Qed.

Lemma build_circular_mask_spec (H W : Z) (peaks : list (Z * Z)) (radius feather : Z) :
  0 <= H -> 0 <= W ->
  Forall fits_peak peaks ->
  (forall m0,
      draw_circles (map (fun p => (fst p, snd p, radius)) peaks)
                   (tab2 H W (fun _ _ => F32.zero)) = Ok m0 ->
      no_nan (gaussian_filter m0 feather)) ->
  exists mask,
    _build_circular_mask H W peaks radius feather = Ok mask /\
    within01 mask /\
    (feather <= 0 ->
     rect2 H W mask /\
     forall y x, 0 <= y < H -> 0 <= x < W ->
       get2 mask y x F32.zero =
       if covered (map (fun p => (fst p, snd p, radius)) peaks) y x
       then F32.one else F32.zero).
Proof.
  intros HH HW Hfit Hgauss.
  unfold _build_circular_mask. rewrite zeros_ok by lia. cbn [bind].
  destruct (draw_circles_spec H W (map (fun p => (fst p, snd p, radius)) peaks)
              (tab2 H W (fun _ _ => F32.zero))) as (m0 & Hm0 & Hrect & Hget).
  { apply rect2_tab2; lia. }
  { apply Forall_map. eapply Forall_impl; [|exact Hfit].
    intros p [Hr Hc]. split; assumption. }
  rewrite Hm0. cbn [bind]. eexists. split; [reflexivity|].
  assert (Hval : forall y x, 0 <= y < H -> 0 <= x < W ->
            get2 m0 y x F32.zero =
            if covered (map (fun p => (fst p, snd p, radius)) peaks) y x
            then F32.one else F32.zero).
  { intros y x Hy Hx. rewrite Hget by assumption.
    now rewrite get2_tab2 by assumption. }
  unfold feathered. destruct (Z.ltb_spec 0 feather) as [Hf|Hf].
  - split; [|lia]. apply within01_clip. now apply Hgauss.
  - split; [|intros _; split; assumption].
    apply (Forall_get2 _ H W m0 F32.zero Hrect).
    intros y x Hy Hx. rewrite Hval by assumption.
    destruct (covered _ y x); split; reflexivity.
Qed.

Lemma manual_mask_spec (H W : Z) (circles : list (Z * Z * Z)) (pdc : Z)
  (m0 : list (list f32)) :
  0 <= H <= 2 ^ 31 -> 0 <= W <= 2 ^ 31 ->
  manual_mask H W circles 0 = Ok m0 ->
  exists mask,
    manual_mask H W circles pdc = Ok mask /\ rect2 H W mask /\
    forall y x, 0 <= y < H -> 0 <= x < W ->
      get2 mask y x F32.zero =
      if (0 <? pdc) && ((x - W / 2) ^ 2 + (y - H / 2) ^ 2 <=? pdc ^ 2)
      then F32.one else get2 m0 y x F32.zero.
Proof.
  intros HH HW Hm0. unfold manual_mask in *.
  rewrite zeros_ok in * by lia. cbn [bind] in *.
  destruct (draw_circles circles (tab2 H W (fun _ _ => F32.zero))) as [m|e] eqn:Ed;
    [|discriminate].
  cbn [bind] in *. change (0 <? 0) with false in Hm0. inversion Hm0; subst m0.
  destruct (draw_circles_spec H W circles (tab2 H W (fun _ _ => F32.zero)))
    as (m' & Hm' & Hrect & _).
  { apply rect2_tab2; lia. }
  { eapply draw_circles_fits; eassumption. }
  rewrite Ed in Hm'. inversion Hm'; subst m'.
  eexists. split; [reflexivity|].
  destruct (Z.ltb_spec 0 pdc) as [Hp|Hp].
  - split; [now apply rect2_mapi2|].
    intros y x Hy Hx. rewrite (get2_assign_where H W) by assumption.
    cbn [andb].
    pose proof (half_range W ltac:(lia)). pose proof (half_range H ltac:(lia)).
    rewrite in_disk_exact by lia. reflexivity.
  - split; [assumption|]. intros y x Hy Hx. reflexivity.
Qed.

Lemma manual_mask_no_points (H W pdc : Z) :
  0 <= H <= 2 ^ 31 -> 0 <= W <= 2 ^ 31 ->
  exists mask,
    manual_mask H W [] pdc = Ok mask /\ rect2 H W mask /\
    forall y x, 0 <= y < H -> 0 <= x < W ->
      get2 mask y x F32.zero =
      if (0 <? pdc) && ((x - W / 2) ^ 2 + (y - H / 2) ^ 2 <=? pdc ^ 2)
      then F32.one else F32.zero.
Proof.
  intros HH HW.
  destruct (manual_mask_spec H W [] pdc (tab2 H W (fun _ _ => F32.zero)) HH HW)
    as (mask & Hm & Hrect & Hget).
  { unfold manual_mask. rewrite zeros_ok by lia. reflexivity. }
  exists mask. split; [assumption|]. split; [assumption|].
  intros y x Hy Hx. rewrite Hget by assumption.
  now rewrite get2_tab2 by assumption.
Qed.

End MaskTheorems.

(** * Three-dimensional arrays *)

Lemma rect3_rect2 {A : Type} (H W C : Z) (a : list (list (list A))) :
  rect3 H W C a -> rect2 H W a.
Proof.
  intros [Hl Hr]. split; [assumption|].
  eapply Forall_impl; [|exact Hr]. now intros row [Hw _].
Qed.

Lemma rect3_px {A : Type} (H W C : Z) (a : list (list (list A))) (y x : Z) :
  rect3 H W C a -> 0 <= y < H -> 0 <= x < W -> len (get2 a y x []) = C.
Proof.
  intros Hrect Hy Hx. pose proof Hrect as [Hl Hr].
  rewrite Forall_forall in Hr.
  destruct (Hr (get a y [])) as [Hw Hpx]; [apply get_In; lia|].
  rewrite Forall_forall in Hpx. apply Hpx. unfold get2. apply get_In. lia.
Qed.

Lemma rect3_intro {A : Type} (H W C : Z) (a : list (list (list A))) :
  rect2 H W a ->
  (forall y x, 0 <= y < H -> 0 <= x < W -> len (get2 a y x []) = C) ->
  rect3 H W C a.
Proof.
  intros Hrect Hpx. pose proof Hrect as [Hl Hr]. split; [assumption|].
  apply Forall_forall. intros row Hrow.
  destruct (In_get _ _ [] Hrow) as (y & Hy & <-).
  assert (Hw : len (get a y []) = W) by (apply (rect2_get H W); [assumption | lia]).
  split; [assumption|].
  apply Forall_forall. intros px Hin.
  destruct (In_get _ _ [] Hin) as (x & Hx & <-).
  apply (Hpx y x); lia.
Qed.

Lemma shape2_is_true {A : Type} (H W : Z) (a : list (list A)) :
  rect2 H W a -> shape2_is H W a = true.
Proof.
  intros [Hl Hr]. unfold shape2_is. apply andb_true_iff. split.
  - now apply Z.eqb_eq.
  - apply forallb_forall. intros row Hrow. apply Z.eqb_eq.
    rewrite Forall_forall in Hr. now apply Hr.
Qed.

Lemma hd_get {A : Type} (l : list A) (d : A) : hd d l = get l 0 d.
Proof. destruct l; reflexivity. Qed.

Lemma channels_rect3 {A : Type} (H W C : Z) (a : list (list (list A))) :
  rect3 H W C a -> 1 <= H -> 1 <= W -> channels a = C.
Proof.
  intros Hrect HH HW. unfold channels. rewrite !hd_get.
  apply (rect3_px H W C a 0 0 Hrect); lia.
Qed.

Lemma width_rect2 {A : Type} (H W : Z) (a : list (list A)) :
  rect2 H W a -> 1 <= H -> width a = W.
Proof.
  intros Hrect HH. unfold width. rewrite hd_get.
  apply (rect2_get H W a 0 Hrect). lia.
Qed.

Lemma get_map {A B : Type} (f : A -> B) (l : list A) (i : Z) (d : A) (d' : B) :
  0 <= i < len l -> get (map f l) i d' = f (get l i d).
Proof.
  intros Hi. unfold get, len in *. destruct (Z.ltb_spec i 0); [lia|].
  rewrite (nth_indep _ d' (f d)) by (rewrite length_map; lia).
  apply map_nth.
Qed.

Lemma len_map {A B : Type} (f : A -> B) (l : list A) : len (map f l) = len l.
Proof. unfold len. now rewrite length_map. Qed.

Lemma rect2_map {A B : Type} (H W : Z) (f : A -> B) (a : list (list A)) :
  rect2 H W a -> rect2 H W (map (map f) a).
Proof.
  intros [Hl Hr]. split; [now rewrite len_map|].
  apply Forall_map. eapply Forall_impl; [|exact Hr].
  intros row Hrow. now rewrite len_map.
Qed.

Lemma get2_map {A B : Type} (H W : Z) (f : A -> B) (a : list (list A))
  (y x : Z) (d : A) (d' : B) :
  rect2 H W a -> 0 <= y < H -> 0 <= x < W ->
  get2 (map (map f) a) y x d' = f (get2 a y x d).
Proof.
  intros Hrect Hy Hx. unfold get2. pose proof Hrect as [Hl Hr].
  rewrite (get_map (map f) a y [] []) by lia.
  apply get_map. now rewrite (rect2_get H W a y).
Qed.

Lemma rect3_map {A B : Type} (H W C : Z) (f : A -> B) (a : list (list (list A))) :
  rect3 H W C a -> rect3 H W C (map (map (map f)) a).
Proof.
  intros Hrect. apply rect3_intro.
  - apply rect2_map. now apply rect3_rect2 with C.
  - intros y x Hy Hx.
    rewrite (get2_map H W (map f) a y x [] []) by
      (try assumption; now apply rect3_rect2 with C).
    rewrite len_map. now apply (rect3_px H W C).
Qed.

Lemma get3_map {A B : Type} (H W C : Z) (f : A -> B) (a : list (list (list A)))
  (y x k : Z) (d : A) (d' : B) :
  rect3 H W C a -> 0 <= y < H -> 0 <= x < W -> 0 <= k < C ->
  get3 (map (map (map f)) a) y x k d' = f (get3 a y x k d).
Proof.
  intros Hrect Hy Hx Hk. unfold get3.
  rewrite (get2_map H W (map f) a y x [] []) by
    (try assumption; now apply rect3_rect2 with C).
  apply get_map. now rewrite (rect3_px H W C).
Qed.

(** * The preview annotator *)

Lemma len_set_chan (k : Z) (v : f32) (px : list f32) : len (set_chan k v px) = len px.
Proof. unfold set_chan. apply len_mapi. Qed.

Lemma get_set_chan (k : Z) (v : f32) (px : list f32) (i : Z) :
  0 <= i < len px ->
  get (set_chan k v px) i F32.zero = if i =? k then v else get px i F32.zero.
Proof.
  intros Hi. unfold set_chan. now rewrite (get_mapi _ px i F32.zero F32.zero).
Qed.

Section Annotate.

Context {L : Library}.

Lemma paint_spec (H W C : Z) (ring : Z -> Z -> bool) (k : Z) (v : f32)
  (img : list (list (list f32))) :
  rect3 H W C img -> 1 <= H -> 1 <= W -> 0 <= k < C ->
  exists img',
    paint H W ring k v img = Ok img' /\ rect3 H W C img' /\
    forall y x i, 0 <= y < H -> 0 <= x < W -> 0 <= i < C ->
      get3 img' y x i F32.zero =
      if ring y x && (i =? k) then v else get3 img y x i F32.zero.
Proof.
  intros Hrect HH HW Hk. unfold paint.
  pose proof (rect3_rect2 H W C img Hrect) as Hrect2.
  rewrite (shape2_is_true H W img Hrect2).
  rewrite (channels_rect3 H W C img Hrect HH HW).
  destruct (Z.ltb_spec k C); [|lia]. cbn [andb].
  eexists. split; [reflexivity|].
  assert (Hpx : forall y x, 0 <= y < H -> 0 <= x < W ->
            get2 (mapi2 (fun y x px => if ring y x then set_chan k v px else px) img)
                 y x [] =
            if ring y x then set_chan k v (get2 img y x []) else get2 img y x []).
  { intros y x Hy Hx. rewrite (get2_mapi2 _ img y x [] []); [reflexivity| |].
    - destruct Hrect2; lia.
    - now rewrite (rect2_get H W img y). }
  split.
  - apply rect3_intro; [now apply rect2_mapi2|].
    intros y x Hy Hx. rewrite Hpx by assumption.
    destruct (ring y x); rewrite ?len_set_chan; now apply (rect3_px H W C).
  - intros y x i Hy Hx Hi. unfold get3. rewrite Hpx by assumption.
    destruct (ring y x); cbn [andb]; [|reflexivity].
    apply get_set_chan. now rewrite (rect3_px H W C).
Qed.

Lemma paint_rgb_spec (H W C : Z) (ring : Z -> Z -> bool) (v0 v1 v2 : f32)
  (img : list (list (list f32))) :
  rect3 H W C img -> 1 <= H -> 1 <= W -> 3 <= C ->
  exists img',
    paint_rgb H W ring v0 v1 v2 img = Ok img' /\ rect3 H W C img' /\
    forall y x i, 0 <= y < H -> 0 <= x < W -> 0 <= i < C ->
      get3 img' y x i F32.zero =
      if ring y x
      then if i =? 0 then v0 else if i =? 1 then v1 else if i =? 2 then v2
           else get3 img y x i F32.zero
      else get3 img y x i F32.zero.
Proof.
  intros Hrect HH HW HC. unfold paint_rgb.
  destruct (paint_spec H W C ring 0 v0 img Hrect HH HW ltac:(lia))
    as (i0 & -> & Hr0 & Hg0).
  cbn [bind].
  destruct (paint_spec H W C ring 1 v1 i0 Hr0 HH HW ltac:(lia))
    as (i1 & -> & Hr1 & Hg1).
  cbn [bind].
  destruct (paint_spec H W C ring 2 v2 i1 Hr1 HH HW ltac:(lia))
    as (i2 & -> & Hr2 & Hg2).
  exists i2. split; [reflexivity|]. split; [assumption|].
  intros y x i Hy Hx Hi.
  rewrite Hg2, Hg1, Hg0 by assumption.
  destruct (ring y x); cbn [andb]; [|reflexivity].
  destruct (Z.eqb_spec i 0), (Z.eqb_spec i 1), (Z.eqb_spec i 2);
    try lia; reflexivity.
Qed.

Lemma annotate_peaks_spec (H W C radius : Z) (peaks : list (Z * Z))
  (img : list (list (list f32))) :
  rect3 H W C img -> 1 <= H -> 1 <= W -> 1 <= C ->
  Forall fits_peak peaks ->
  exists img',
    annotate_peaks C radius H W peaks img = Ok img' /\ rect3 H W C img' /\
    forall y x i, 0 <= y < H -> 0 <= x < W -> 0 <= i < C ->
      Forall (fun p => peak_ring radius p y x = false) peaks ->
      get3 img' y x i F32.zero = get3 img y x i F32.zero.
Proof.
  intros Hrect HH HW HC Hfit. revert img Hrect.
  induction Hfit as [|p rest [Hr Hc] Hrest IH]; intros img Hrect.
  - exists img. cbn. auto.
  - cbn [annotate_peaks]. unfold annotate_peak, to_i64. rewrite Hc, Hr. cbn [bind].
    cbv zeta.
    change (ring_of (fst p) (snd p) (radius + 2) (Z.max 0 (radius - 1)))
      with (peak_ring radius p).
    assert (Hstep : exists img1,
              (if 3 <=? C
               then paint_rgb H W (peak_ring radius p) F32.one F32.c0_9 F32.zero img
               else paint H W (peak_ring radius p) 0 F32.one img) = Ok img1 /\
              rect3 H W C img1 /\
              forall y x i, 0 <= y < H -> 0 <= x < W -> 0 <= i < C ->
                peak_ring radius p y x = false ->
                get3 img1 y x i F32.zero = get3 img y x i F32.zero).
    { destruct (Z.leb_spec 3 C) as [H3|H3].
      - destruct (paint_rgb_spec H W C (peak_ring radius p) F32.one F32.c0_9
                    F32.zero img Hrect HH HW H3) as (img1 & E & Hr1 & Hg1).
        exists img1. split; [assumption|]. split; [assumption|].
        intros y x i Hy Hx Hi Hring. rewrite Hg1 by assumption. now rewrite Hring.
      - destruct (paint_spec H W C (peak_ring radius p) 0 F32.one img Hrect HH HW
                    ltac:(lia)) as (img1 & E & Hr1 & Hg1).
        exists img1. split; [assumption|]. split; [assumption|].
        intros y x i Hy Hx Hi Hring. rewrite Hg1 by assumption. now rewrite Hring. }
    destruct Hstep as (img1 & -> & Hr1 & Hg1). cbn [bind].
    destruct (IH img1 Hr1) as (img' & E & Hr' & Hg').
    exists img'. split; [assumption|]. split; [assumption|].
    intros y x i Hy Hx Hi Hall. inversion Hall; subst.
    rewrite Hg' by assumption. now apply Hg1.
Qed.

Lemma annotate_preview_ok (frame : list (list (list f32))) (peaks : list (Z * Z))
  (radius dc_r H W C : Z) :
  rect3 H W C frame -> 1 <= H -> 1 <= W -> 1 <= C ->
  Forall fits_peak peaks ->
  exists preview,
    _annotate_preview frame peaks radius dc_r H W = Ok preview /\
    rect3 H W C preview.
Proof.
  intros Hrect HH HW HC Hfit. unfold _annotate_preview.
  rewrite (channels_rect3 H W C frame Hrect HH HW).
  pose proof (rect3_map H W C F32.clip01 frame Hrect) as Hclip.
  set (prev0 := map (map (map F32.clip01)) frame) in *.
  assert (Hdc : exists p1,
            (if 0 <? dc_r
             then if 3 <=? C
                  then paint_rgb H W (ring_of (H / 2) (W / 2) (dc_r + 1) (dc_r - 1))
                         F32.c0_2 F32.c0_5 F32.one prev0
                  else Ok prev0
             else Ok prev0) = Ok p1 /\ rect3 H W C p1).
  { destruct (0 <? dc_r); [|now exists prev0].
    destruct (Z.leb_spec 3 C) as [H3|H3]; [|now exists prev0].
    destruct (paint_rgb_spec H W C (ring_of (H / 2) (W / 2) (dc_r + 1) (dc_r - 1))
                F32.c0_2 F32.c0_5 F32.one prev0 Hclip HH HW H3) as (p1 & E & Hr1 & _).
    now exists p1. }
  destruct Hdc as (p1 & -> & Hr1). cbn [bind].
  destruct (annotate_peaks_spec H W C radius peaks p1 Hr1 HH HW HC Hfit)
    as (p2 & E & Hr2 & _).
  now exists p2.
Qed.

Lemma annotate_preview_dc_ring (frame : list (list (list f32)))
  (peaks : list (Z * Z)) (radius dc_r H W C y x : Z) :
  rect3 H W C frame -> 1 <= H <= 2 ^ 31 -> 1 <= W <= 2 ^ 31 -> 3 <= C ->
  0 < dc_r ->
  Forall fits_peak peaks ->
  0 <= y < H -> 0 <= x < W ->
  (x - W / 2) ^ 2 + (y - H / 2) ^ 2 <= (dc_r + 1) ^ 2 ->
  (dc_r - 1) ^ 2 < (x - W / 2) ^ 2 + (y - H / 2) ^ 2 ->
  Forall (fun p => peak_ring radius p y x = false) peaks ->
  exists preview,
    _annotate_preview frame peaks radius dc_r H W = Ok preview /\
    get3 preview y x 0 F32.zero = F32.c0_2 /\
    get3 preview y x 1 F32.zero = F32.c0_5 /\
    get3 preview y x 2 F32.zero = F32.one.
Proof.
  intros Hrect HH HW HC Hdc Hfit Hy Hx Hout Hin Hfree.
  unfold _annotate_preview.
  rewrite (channels_rect3 H W C frame Hrect) by lia.
  pose proof (rect3_map H W C F32.clip01 frame Hrect) as Hclip.
  set (prev0 := map (map (map F32.clip01)) frame) in *.
  destruct (Z.ltb_spec 0 dc_r); [|lia].
  destruct (Z.leb_spec 3 C); [|lia].
  destruct (paint_rgb_spec H W C (ring_of (H / 2) (W / 2) (dc_r + 1) (dc_r - 1))
              F32.c0_2 F32.c0_5 F32.one prev0 Hclip ltac:(lia) ltac:(lia) HC)
    as (p1 & -> & Hr1 & Hg1).
  cbn [bind].
  destruct (annotate_peaks_spec H W C radius peaks p1 Hr1 ltac:(lia) ltac:(lia)
              ltac:(lia) Hfit) as (p2 & -> & Hr2 & Hg2).
  exists p2. split; [reflexivity|].
  assert (Hring : ring_of (H / 2) (W / 2) (dc_r + 1) (dc_r - 1) y x = true).
  { unfold ring_of.
    pose proof (half_range W ltac:(lia)). pose proof (half_range H ltac:(lia)).
    rewrite !in_disk_exact by lia.
    apply andb_true_iff. split; [apply Z.leb_le; lia|].
    apply negb_true_iff. apply Z.leb_gt. lia. }
  rewrite !Hg2 by (try assumption; lia).
  rewrite !Hg1 by (try assumption; lia).
  rewrite Hring. repeat split; reflexivity.
Qed.

End Annotate.

(** * Applying a mask *)

Lemma len_zip_with {A B C : Type} (f : A -> B -> C) (l : list A) (l' : list B) :
  len (zip_with f l l') = Z.min (len l) (len l').
Proof.
  revert l'. induction l as [|a l IH]; intros [|b l']; unfold len in *; simpl;
    try lia. specialize (IH l'). lia.
Qed.

Lemma nth_zip_with {A B C : Type} (f : A -> B -> C) (l : list A) (l' : list B)
  (n : nat) (da : A) (db : B) (dc : C) :
  (n < List.length l)%nat -> (n < List.length l')%nat ->
  nth n (zip_with f l l') dc = f (nth n l da) (nth n l' db).
Proof.
  revert l' n. induction l as [|a l IH]; intros [|b l'] n Hn Hn'; simpl in *; try lia.
  destruct n as [|n]; [reflexivity|]. apply IH; lia.
Qed.

Lemma get_zip_with {A B C : Type} (f : A -> B -> C) (l : list A) (l' : list B)
  (i : Z) (da : A) (db : B) (dc : C) :
  0 <= i < len l -> 0 <= i < len l' ->
  get (zip_with f l l') i dc = f (get l i da) (get l' i db).
Proof.
  intros Hi Hi'. unfold get, len in *. destruct (Z.ltb_spec i 0); [lia|].
  apply nth_zip_with; lia.
Qed.

Lemma get3_apply_mask (H W C : Z) (frame : list (list (list f32)))
  (mask : list (list f32)) (y x k : Z) :
  rect3 H W C frame -> rect2 H W mask ->
  0 <= y < H -> 0 <= x < W -> 0 <= k < C ->
  get3 (apply_mask frame mask) y x k F32.zero =
  F32.mul (get3 frame y x k F32.zero) (F32.sub F32.one (get2 mask y x F32.zero)).
Proof.
  intros Hf Hm Hy Hx Hk. unfold get3, get2, apply_mask.
  pose proof Hf as [Hlf _]. pose proof Hm as [Hlm _].
  pose proof (rect3_rect2 H W C frame Hf) as Hf2.
  rewrite (get_zip_with _ frame mask y [] [] []) by lia.
  rewrite (get_zip_with _ _ _ x [] F32.zero [])
    by (rewrite ?(rect2_get H W frame y), ?(rect2_get H W mask y); assumption).
  rewrite (get_map (fun v => F32.mul v
             (F32.sub F32.one (get (get mask y []) x F32.zero))) _ k F32.zero F32.zero);
    [reflexivity|].
  fold (get2 frame y x []). now rewrite (rect3_px H W C).
Qed.

Lemma get3_mask_image (H W : Z) (mask : list (list f32)) (y x k : Z) :
  rect2 H W mask -> 0 <= y < H -> 0 <= x < W -> 0 <= k < 3 ->
  get3 (mask_image mask) y x k F32.zero = get2 mask y x F32.zero.
Proof.
  intros Hm Hy Hx Hk. unfold get3, mask_image.
  rewrite (get2_map H W _ mask y x F32.zero []) by assumption.
  assert (k = 0 \/ k = 1 \/ k = 2) as [-> | [-> | ->]] by lia; reflexivity.
Qed.

(** * Sequencing over the frames *)

Lemma mapM_Forall2 {A B : Type} (f : A -> result B) (l : list A) (bs : list B) :
  mapM f l = Ok bs -> Forall2 (fun a b => f a = Ok b) l bs.
Proof.
  revert bs. induction l as [|a l IH]; intros bs Hm; cbn [mapM] in Hm.
  - inversion Hm. constructor.
  - destruct (f a) as [b|e] eqn:Ea; [|discriminate]. cbn [bind] in Hm.
    destruct (mapM f l) as [bs'|e] eqn:El; [|discriminate]. cbn [bind] in Hm.
    inversion Hm; subst. constructor; [assumption | now apply IH].
Qed.

Lemma mapM_ok {A B : Type} (f : A -> result B) (l : list A) :
  (forall a, In a l -> exists b, f a = Ok b) -> exists bs, mapM f l = Ok bs.
Proof.
  induction l as [|a l IH]; intros Hf.
  - now exists [].
  - destruct (Hf a) as (b & Hb); [now left|].
    destruct IH as (bs & Hbs); [intros a' Ha'; apply Hf; now right|].
    exists (b :: bs). cbn [mapM]. rewrite Hb. cbn [bind]. rewrite Hbs. reflexivity.
Qed.

Lemma Forall2_len {A B : Type} (P : A -> B -> Prop) (l : list A) (l' : list B) :
  Forall2 P l l' -> len l' = len l.
Proof. intros HF. unfold len. now rewrite (Forall2_length HF). Qed.

Lemma Forall2_get {A B : Type} (P : A -> B -> Prop) (l : list A) (l' : list B)
  (i : Z) (da : A) (db : B) :
  Forall2 P l l' -> 0 <= i < len l -> P (get l i da) (get l' i db).
Proof.
  intros HF Hi. unfold get, len in *. destruct (Z.ltb_spec i 0); [lia|].
  remember (Z.to_nat i) as n eqn:En.
  assert (Hn : (n < List.length l)%nat) by lia. clear En Hi H i.
  revert n Hn. induction HF as [|a b l l' Hab HF IH]; intros n Hn; simpl in *; [lia|].
  destruct n as [|n]; [assumption|]. apply IH. lia.
Qed.

(** * The two nodes, frame by frame *)

Lemma to_gray_ok (H W C : Z) (frame : list (list (list f32))) :
  rect3 H W C frame -> 1 <= H -> 1 <= W -> 1 <= C ->
  exists gray, _to_gray frame = Ok gray /\ rect2 H W gray.
Proof.
  intros Hrect HH HW HC. unfold _to_gray.
  rewrite (channels_rect3 H W C frame Hrect HH HW).
  pose proof (rect3_rect2 H W C frame Hrect) as Hr2.
  destruct (3 <=? C).
  - eexists. split; [reflexivity|]. now apply rect2_map.
  - destruct (Z.eqb_spec C 0); [lia|].
    eexists. split; [reflexivity|]. now apply rect2_map.
Qed.

Lemma amax_ok (H W : Z) (gray : list (list f32)) :
  rect2 H W gray -> 1 <= H -> 1 <= W -> exists g, amax gray = Ok g.
Proof.
  intros Hrect HH HW. unfold amax.
  destruct (List.concat gray) as [|x l] eqn:E.
  - exfalso.
    assert (Hin : In (get2 gray 0 0 F32.zero) (List.concat gray)).
    { apply (In_concat_get2 gray H W _ F32.zero Hrect). exists 0, 0.
      repeat split; lia. }
    rewrite E in Hin. contradiction.
  - eexists. reflexivity.
Qed.

Lemma detect_peaks_ok (H W : Z) (gray : list (list f32)) (thr : f32) (md pdc : Z) :
  rect2 H W gray -> 1 <= H -> 1 <= W ->
  exists peaks, detect_peaks H W gray thr md pdc = Ok peaks /\
                Forall (in_image H W) peaks.
Proof.
  intros Hrect HH HW. unfold detect_peaks.
  destruct (amax_ok H W gray Hrect HH HW) as (g & ->). cbn [bind].
  eexists. split; [reflexivity|].
  apply Forall_forall. intros [r c] Hin. apply In_argwhere in Hin.
  set (lm := mapi2 _ gray) in *.
  assert (Hlm : rect2 H W lm) by (apply rect2_mapi2; assumption).
  assert (Hlm' : rect2 H W (if 0 <? pdc
                            then assign_where (in_disk (H / 2) (W / 2) pdc) false lm
                            else lm)).
  { destruct (0 <? pdc); [now apply rect2_mapi2 | assumption]. }
  destruct Hin as (Hr & Hc & _). pose proof Hlm' as [Hl _].
  rewrite Hl in Hr. rewrite (rect2_get H W _ r Hlm' Hr) in Hc.
  split; assumption.
Qed.

Section Frames.

Context {L : Library}.

Lemma feathered_rect (H W : Z) (mask : list (list f32)) (feather : Z) :
  (forall m s, rect2 H W m -> rect2 H W (gaussian_filter m s)) ->
  rect2 H W mask -> rect2 H W (feathered mask feather).
Proof.
  intros Hg Hm. unfold feathered. destruct (0 <? feather); [|assumption].
  apply rect2_map. now apply Hg.
Qed.

Lemma build_circular_mask_ok (H W : Z) (peaks : list (Z * Z)) (radius feather : Z) :
  0 <= H <= 2 ^ 31 -> 0 <= W <= 2 ^ 31 ->
  Forall (in_image H W) peaks ->
  exists mask,
    _build_circular_mask H W peaks radius feather = Ok mask /\
    ((forall m s, rect2 H W m -> rect2 H W (gaussian_filter m s)) ->
     rect2 H W mask).
Proof.
  intros HH HW Hin. unfold _build_circular_mask.
  rewrite zeros_ok by lia. cbn [bind].
  destruct (draw_circles_spec H W (map (fun p => (fst p, snd p, radius)) peaks)
              (tab2 H W (fun _ _ => F32.zero))) as (m0 & -> & Hrect & _).
  { apply rect2_tab2; lia. }
  { apply Forall_map. eapply Forall_impl; [|exact Hin].
    intros p [Hr Hc]. assert (2 ^ 31 < 2 ^ 63) by reflexivity.
    split; cbn [fst snd]; unfold I64.fits; apply andb_true_iff;
      split; [apply Z.leb_le | apply Z.ltb_lt | apply Z.leb_le | apply Z.ltb_lt]; lia. }
  cbn [bind]. eexists. split; [reflexivity|].
  intros Hg. now apply feathered_rect.
Qed.

Lemma auto_frame_spec (H W C : Z) (thr : f32) (md nr pdc feather : Z)
  (frame : list (list (list f32))) :
  rect3 H W C frame -> 1 <= H <= 2 ^ 31 -> 1 <= W <= 2 ^ 31 -> 1 <= C ->
  exists fo gray mask,
    auto_frame H W thr md nr pdc feather frame = Ok fo /\
    _to_gray frame = Ok gray /\ rect2 H W gray /\
    detect_peaks H W gray thr md pdc = Ok (fo_peaks fo) /\
    _build_circular_mask H W (fo_peaks fo) nr feather = Ok mask /\
    ((forall m s, rect2 H W m -> rect2 H W (gaussian_filter m s)) ->
     rect2 H W mask) /\
    fo_filtered fo = apply_mask frame mask /\ fo_mask fo = mask_image mask.
Proof.
  intros Hrect HH HW HC. unfold auto_frame.
  destruct (to_gray_ok H W C frame Hrect ltac:(lia) ltac:(lia) HC) as (gray & Eg & Hgr).
  rewrite Eg. cbn [bind].
  destruct (detect_peaks_ok H W gray thr md pdc Hgr ltac:(lia) ltac:(lia))
    as (peaks & Ep & Hin).
  rewrite Ep. cbn [bind].
  destruct (build_circular_mask_ok H W peaks nr feather ltac:(lia) ltac:(lia) Hin)
    as (mask & Em & Hmr).
  rewrite Em. cbn [bind].
  destruct (annotate_preview_ok frame peaks nr pdc H W C Hrect ltac:(lia) ltac:(lia) HC)
    as (pv & Epv & _).
  { eapply Forall_impl; [|exact Hin]. intros p [Hr Hc].
    assert (2 ^ 31 < 2 ^ 63) by reflexivity.
    split; unfold I64.fits; apply andb_true_iff;
      split; [apply Z.leb_le | apply Z.ltb_lt | apply Z.leb_le | apply Z.ltb_lt]; lia. }
  rewrite Epv. cbn [bind].
  eexists. exists gray, mask. split; [reflexivity|]. cbn. auto 10.
Qed.

Lemma hd_rect3 (H W C : Z) (frames : list (list (list (list f32)))) :
  frames <> [] -> Forall (rect3 H W C) frames -> 1 <= H ->
  height (hd [] frames) = H /\ width (hd [] frames) = W /\ rect3 H W C (hd [] frames).
Proof.
  intros Hne Hall HH. destruct frames as [|f rest]; [congruence|].
  inversion Hall; subst. cbn [hd].
  pose proof (rect3_rect2 H W C f ltac:(assumption)) as Hr2.
  split; [now destruct Hr2|]. split; [now apply (width_rect2 H W)|assumption].
Qed.

Lemma frame_masked (H W C : Z) (frame : list (list (list f32)))
  (mask : list (list f32)) (y x : Z) :
  rect3 H W C frame -> rect2 H W mask -> 0 <= y < H -> 0 <= x < W ->
  (forall k, 0 <= k < C ->
     get3 (apply_mask frame mask) y x k F32.zero =
     F32.mul (get3 frame y x k F32.zero)
             (F32.sub F32.one (get3 (mask_image mask) y x 0 F32.zero))) /\
  (forall j, 0 <= j < 3 ->
     get3 (mask_image mask) y x j F32.zero = get3 (mask_image mask) y x 0 F32.zero).
Proof.
  intros Hf Hm Hy Hx. split.
  - intros k Hk. rewrite (get3_mask_image H W) by (try assumption; lia).
    now apply (get3_apply_mask H W C).
  - intros j Hj. now rewrite !(get3_mask_image H W) by (try assumption; lia).
Qed.

End Frames.

Section NodeLemmas.

Context {L : Library}.

Lemma apply_notch_spec (spectrum : tensor) (H W C : Z) (thr : f32)
  (md nr pdc feather : Z) :
  wf_batch H W C (to_bhwc spectrum) ->
  exists out o rest,
    apply_notch spectrum thr md nr pdc feather = Ok out /\
    Forall2 (fun frame fo => auto_frame H W thr md nr pdc feather frame = Ok fo)
            (to_bhwc spectrum) (o :: rest) /\
    filtered_spectrum out = map fo_filtered (o :: rest) /\
    notch_mask out = map fo_mask (o :: rest) /\
    peak_positions out = json_dumps (JList (map (peak_obj nr) (fo_peaks o))).
Proof.
  intros (Hne & Hall & HH & HW & HC). unfold apply_notch.
  destruct (hd_rect3 H W C (to_bhwc spectrum) Hne Hall ltac:(lia)) as (-> & -> & _).
  destruct (mapM_ok (auto_frame H W thr md nr pdc feather) (to_bhwc spectrum))
    as (outs & Eo).
  { intros frame Hin. rewrite Forall_forall in Hall.
    destruct (auto_frame_spec H W C thr md nr pdc feather frame (Hall frame Hin)
                HH HW HC) as (fo & _ & _ & E & _).
    now exists fo. }
  rewrite Eo. cbn [bind].
  pose proof (mapM_Forall2 _ _ _ Eo) as HF.
  destruct outs as [|o rest].
  { inversion HF as [Hnil|]. congruence. }
  cbn [map np_stack bind].
  eexists. exists o, rest. split; [reflexivity|]. cbn. auto.
Qed.

Lemma save_temp_image_ok (H W C : Z) (frame : list (list (list f32))) :
  rect3 H W C frame -> 1 <= H -> 1 <= W -> 1 <= C ->
  exists img, _save_temp_image frame = Ok img.
Proof.
  intros Hrect HH HW HC. unfold _save_temp_image.
  rewrite (channels_rect3 H W C frame Hrect HH HW).
  destruct (Z.eqb_spec C 0); [lia|]. eexists. reflexivity.
Qed.

Lemma manual_run_spec (points : list json) (spectrum : tensor) (H W C : Z)
  (feather pdc : Z) (circles : list (Z * Z * Z)) :
  wf_batch H W C (to_bhwc spectrum) ->
  point_circles points = Ok circles -> Forall fits_circle circles ->
  exists out mask0,
    manual_run points spectrum feather pdc = Ok out /\
    manual_mask H W circles pdc = Ok mask0 /\ rect2 H W mask0 /\
    m_filtered out =
      map (fun frame => apply_mask frame (feathered mask0 feather)) (to_bhwc spectrum) /\
    m_mask out =
      map (fun _ => mask_image (feathered mask0 feather)) (to_bhwc spectrum).
Proof.
  intros (Hne & Hall & HH & HW & HC) Hpc Hfit. unfold manual_run.
  destruct (hd_rect3 H W C (to_bhwc spectrum) Hne Hall ltac:(lia)) as (-> & -> & Hhd).
  assert (Hmm : exists mask0, manual_mask H W circles pdc = Ok mask0 /\ rect2 H W mask0).
  { assert (E0 : exists m0, manual_mask H W circles 0 = Ok m0).
    { unfold manual_mask. rewrite zeros_ok by lia. cbn [bind].
      destruct (draw_circles_spec H W circles (tab2 H W (fun _ _ => F32.zero)))
        as (m' & Hm' & _); [apply rect2_tab2; lia | assumption |].
      rewrite Hm'. cbn [bind]. eexists. reflexivity. }
    destruct E0 as (m0 & E0).
    destruct (manual_mask_spec H W circles pdc m0 ltac:(lia) ltac:(lia) E0)
      as (mask & E & Hr & _).
    now exists mask. }
  destruct Hmm as (mask0 & Em & Hr0).
  assert (Hframe : forall frame,
            manual_frame points H W feather pdc frame =
            Ok (apply_mask frame (feathered mask0 feather),
                mask_image (feathered mask0 feather))).
  { intros frame. unfold manual_frame. rewrite Hpc. cbn [bind]. rewrite Em. reflexivity. }
  assert (Hmap : mapM (manual_frame points H W feather pdc) (to_bhwc spectrum) =
                 Ok (map (fun frame => (apply_mask frame (feathered mask0 feather),
                                        mask_image (feathered mask0 feather)))
                         (to_bhwc spectrum))).
  { clear - Hframe. induction (to_bhwc spectrum) as [|f rest IH]; [reflexivity|].
    cbn [mapM map]. rewrite Hframe. cbn [bind]. rewrite IH. reflexivity. }
  rewrite Hmap. cbn [bind]. rewrite !map_map. cbn [fst snd].
  destruct (to_bhwc spectrum) as [|f rest] eqn:Ef; [congruence|].
  cbn [map np_stack bind hd].
  destruct (save_temp_image_ok H W C f) as (img & ->); try lia.
  { now inversion Hall. }
  cbn [bind]. eexists. exists mask0. split; [reflexivity|]. cbn. auto.
Qed.

Lemma masked_auto (spectrum : tensor) (H W C : Z) (thr : f32)
  (md nr pdc feather : Z) :
  wf_batch H W C (to_bhwc spectrum) ->
  (forall m s, rect2 H W m -> rect2 H W (gaussian_filter m s)) ->
  exists out,
    apply_notch spectrum thr md nr pdc feather = Ok out /\
    masked H W C (to_bhwc spectrum) (filtered_spectrum out) (notch_mask out).
Proof.
  intros Hwf Hg.
  destruct (apply_notch_spec spectrum H W C thr md nr pdc feather Hwf)
    as (out & o & rest & E & HF & Ef & Em & _).
  exists out. split; [assumption|].
  destruct Hwf as (Hne & Hall & HH & HW & HC).
  pose proof (Forall2_len _ _ _ HF) as Hlen.
  unfold masked. rewrite Ef, Em, !len_map. split; [assumption|]. split; [assumption|].
  intros b y x Hb Hy Hx. unfold get4.
  rewrite (get_map fo_filtered _ b empty_frame_out []) by lia.
  rewrite (get_map fo_mask _ b empty_frame_out []) by lia.
  pose proof (Forall2_get _ _ _ b [] empty_frame_out HF Hb) as Hfo. cbn beta in Hfo.
  assert (Hrect : rect3 H W C (get (to_bhwc spectrum) b [])).
  { rewrite Forall_forall in Hall. apply Hall. now apply get_In. }
  destruct (auto_frame_spec H W C thr md nr pdc feather _ Hrect HH HW HC)
    as (fo & gray & mask & E' & _ & _ & _ & _ & Hmr & Hfil & Hmk).
  rewrite E' in Hfo. inversion Hfo as [Heq]. rewrite <- Heq, Hfil, Hmk.
  apply (frame_masked H W C); auto.
Qed.

Lemma masked_manual (points : list json) (spectrum : tensor) (H W C : Z)
  (feather pdc : Z) (circles : list (Z * Z * Z)) :
  wf_batch H W C (to_bhwc spectrum) ->
  (forall m s, rect2 H W m -> rect2 H W (gaussian_filter m s)) ->
  point_circles points = Ok circles -> Forall fits_circle circles ->
  exists out,
    manual_run points spectrum feather pdc = Ok out /\
    masked H W C (to_bhwc spectrum) (m_filtered out) (m_mask out).
Proof.
  intros Hwf Hg Hpc Hfit.
  destruct (manual_run_spec points spectrum H W C feather pdc circles Hwf Hpc Hfit)
    as (out & mask0 & E & _ & Hr0 & Ef & Em).
  exists out. split; [assumption|].
  destruct Hwf as (Hne & Hall & HH & HW & HC).
  unfold masked. rewrite Ef, Em, !len_map. split; [reflexivity|]. split; [reflexivity|].
  intros b y x Hb Hy Hx. unfold get4.
  rewrite (get_map (fun frame => apply_mask frame (feathered mask0 feather))
             _ b [] []) by lia.
  rewrite (get_map (fun _ => mask_image (feathered mask0 feather)) _ b [] []) by lia.
  assert (Hrect : rect3 H W C (get (to_bhwc spectrum) b [])).
  { rewrite Forall_forall in Hall. apply Hall. now apply get_In. }
  apply (frame_masked H W C); auto. now apply feathered_rect.
Qed.

Lemma point_circles_fits (points : list json) (circles : list (Z * Z * Z))
  (spectrum : tensor) (feather pdc : Z) (out : manual_out) :
  to_bhwc spectrum <> [] ->
  point_circles points = Ok circles ->
  manual_run points spectrum feather pdc = Ok out ->
  Forall fits_circle circles.
Proof.
  intros Hne Hpc Hrun. unfold manual_run in Hrun.
  destruct (to_bhwc spectrum) as [|f rest]; [congruence|].
  cbn [mapM] in Hrun. unfold manual_frame at 1 in Hrun.
  rewrite Hpc in Hrun. cbn [bind] in Hrun.
  unfold manual_mask in Hrun.
  destruct (zeros _ _) as [z|e]; [|discriminate]. cbn [bind] in Hrun.
  destruct (draw_circles circles z) as [m|e] eqn:Ed; [|discriminate].
  eapply draw_circles_fits; eassumption.
Qed.

(** The points written by the automatic node are read back as its circles. *)
Lemma point_circles_peak_objs (nr : Z) (peaks : list (Z * Z)) :
  point_circles (map (peak_obj nr) peaks) =
  Ok (map (fun p => (fst p, snd p, nr)) peaks).
Proof.
  unfold point_circles.
  assert (E1 : mapM (fun p =>
                 y <- (v <- py_get p "y" (JInt 0) ;; py_int v) ;;
                 x <- (v <- py_get p "x" (JInt 0) ;; py_int v) ;;
                 Ok (y, x)) (map (peak_obj nr) peaks) = Ok peaks).
  { induction peaks as [|[r c] rest IH]; [reflexivity|].
    cbn [map mapM]. rewrite IH. reflexivity. }
  assert (E2 : mapM (fun p => v <- py_get p "r" (JInt 8) ;; py_int v)
                 (map (peak_obj nr) peaks) = Ok (map (fun _ => nr) peaks)).
  { clear E1. induction peaks as [|[r c] rest IH]; [reflexivity|].
    cbn [map mapM]. rewrite IH. reflexivity. }
  rewrite E1. cbn [bind]. rewrite E2. cbn [bind]. f_equal.
  clear. induction peaks as [|[r c] rest IH]; [reflexivity|].
  cbn [map zip_with fst snd]. now rewrite IH.
Qed.

Lemma roundtrip_frame (H W : Z) (thr : f32) (md nr pdc : Z)
  (frame : list (list (list f32))) (fo : frame_out) :
  auto_frame H W thr md nr pdc 0 frame = Ok fo ->
  json_loads (json_dumps (JList (map (peak_obj nr) (fo_peaks fo)))) =
    Some (JList (map (peak_obj nr) (fo_peaks fo))) ->
  manual_frame (parse_points (json_dumps (JList (map (peak_obj nr) (fo_peaks fo)))))
               H W 0 0 frame = Ok (fo_filtered fo, fo_mask fo).
Proof.
  intros Hauto Hrt. unfold parse_points. rewrite Hrt.
  unfold manual_frame. rewrite point_circles_peak_objs. cbn [bind].
  unfold auto_frame in Hauto.
  destruct (_to_gray frame) as [gray|e]; [|discriminate]. cbn [bind] in Hauto.
  destruct (detect_peaks H W gray thr md pdc) as [peaks|e]; [|discriminate].
  cbn [bind] in Hauto.
  destruct (_build_circular_mask H W peaks nr 0) as [mask|e] eqn:Em; [|discriminate].
  cbn [bind] in Hauto.
  destruct (_annotate_preview frame peaks nr pdc H W) as [pv|e]; [|discriminate].
  cbn [bind] in Hauto. inversion Hauto; subst fo. cbn [fo_peaks fo_filtered fo_mask].
  unfold _build_circular_mask in Em. unfold manual_mask.
  destruct (zeros H W) as [z|e]; [|discriminate]. cbn [bind] in *.
  destruct (draw_circles _ z) as [m|e]; [|discriminate]. cbn [bind] in *.
  change (0 <? 0) with false. cbv iota. now inversion Em.
Qed.

Lemma manual_run_ui_image (points : list json) (spectrum : tensor)
  (feather pdc : Z) (out : manual_out) :
  manual_run points spectrum feather pdc = Ok out ->
  _save_temp_image (hd [] (to_bhwc spectrum)) = Ok (ui_image out).
Proof.
  unfold manual_run. intros Hrun.
  destruct (mapM _ (to_bhwc spectrum)) as [outs|e]; [|discriminate].
  cbn [bind] in Hrun.
  destruct (np_stack (map fst outs)) as [tf|e]; [|discriminate]. cbn [bind] in Hrun.
  destruct (np_stack (map snd outs)) as [tm|e]; [|discriminate]. cbn [bind] in Hrun.
  destruct (_save_temp_image (hd [] (to_bhwc spectrum))) as [img|e]; [|discriminate].
  cbn [bind] in Hrun. now inversion Hrun.
Qed.

End NodeLemmas.

Lemma blur_rect (H W : Z) (m : list (list f32)) (s : Z) :
  1 <= H -> 0 <= W -> rect2 H W m -> rect2 H W (Ref.blur m s).
Proof.
  intros HH HW Hm. unfold Ref.blur.
  replace (height m) with H by (now destruct Hm).
  rewrite (width_rect2 H W m Hm HH). apply rect2_tab2; lia.
Qed.

Lemma is_zero_leb (a b : f32) :
  F32.is_zero a = true -> F32.is_zero b = true -> F32.leb a b = true.
Proof. destruct a, b; try discriminate; reflexivity. Qed.

Lemma mul_finite_zero (t g : f32) :
  F32.is_finite t = true -> F32.is_zero g = true -> F32.is_zero (F32.mul t g) = true.
Proof. destruct t, g; try discriminate; reflexivity. Qed.

Lemma zeros_detect (H W : Z) (gray : list (list f32)) (thr : f32) (md pdc : Z) :
  rect2 H W gray -> 1 <= H <= 2 ^ 31 -> 1 <= W <= 2 ^ 31 ->
  (forall y x, 0 <= y < H -> 0 <= x < W -> F32.is_zero (get2 gray y x F32.zero) = true) ->
  F32.is_finite thr = true ->
  exists peaks,
    detect_peaks H W gray thr md pdc = Ok peaks /\
    forall r c,
      In (r, c) peaks <->
      (0 <= r < H /\ 0 <= c < W /\
       (0 < pdc -> pdc ^ 2 < (c - W / 2) ^ 2 + (r - H / 2) ^ 2)).
Proof.
  intros Hrect HH HW Hz Hthr.
  assert (Hnan : no_nan gray).
  { apply (Forall_get2 _ H W gray F32.zero Hrect). intros y x Hy Hx.
    specialize (Hz y x Hy Hx). now destruct (get2 gray y x F32.zero). }
  destruct (detect_peaks_spec H W gray thr md pdc Hrect HH HW Hnan)
    as (peaks & gmax & E & [(i & j & Hi & Hj & Hg) _] & Hiff).
  exists peaks. split; [assumption|].
  intros r c. rewrite Hiff. split.
  - intros (Hr & Hc & _ & _ & Hout). auto.
  - intros (Hr & Hc & Hout). repeat split; try lia; try assumption.
    + intros i' j' (Hi' & Hj' & _). apply is_zero_leb; now apply Hz.
    + apply is_zero_leb; [|now apply Hz].
      apply mul_finite_zero; [assumption|]. rewrite Hg. now apply Hz.
Qed.

Lemma get_firstn {A : Type} (n : nat) (l : list A) (k : Z) (d : A) :
  0 <= k < Z.of_nat n -> get (firstn n l) k d = get l k d.
Proof.
  intros Hk. unfold get. destruct (Z.ltb_spec k 0); [lia|].
  remember (Z.to_nat k) as i eqn:Ei. assert (Hi : (i < n)%nat) by lia.
  clear - Hi. revert i l Hi. induction n as [|n IH]; intros i l Hi; [lia|].
  destruct l as [|a l]; [reflexivity|]. destruct i as [|i]; [reflexivity|].
  cbn [firstn nth]. apply IH. lia.
Qed.

Section PreviewExport.

Context {L : Library}.

Lemma save_temp_image_spec (H W C : Z) (frame : list (list (list f32))) :
  rect3 H W C frame -> 1 <= H -> 1 <= W -> 1 <= C ->
  exists img,
    _save_temp_image frame = Ok img /\
    forall y x, 0 <= y < H -> 0 <= x < W ->
      (C = 1 ->
       get2 (pixels img) y x [] =
       [encode_u8 (get3 frame y x 0 F32.zero); encode_u8 (get3 frame y x 0 F32.zero);
        encode_u8 (get3 frame y x 0 F32.zero)]) /\
      (C <> 1 ->
       forall k, 0 <= k < Z.min 3 C ->
         get3 (pixels img) y x k 0 = encode_u8 (get3 frame y x k F32.zero)).
Proof.
  intros Hrect HH HW HC. unfold _save_temp_image.
  rewrite (channels_rect3 H W C frame Hrect HH HW).
  destruct (Z.eqb_spec C 0); [lia|].
  eexists. split; [reflexivity|]. cbn [pixels].
  pose proof (rect3_rect2 H W C frame Hrect) as Hr2.
  pose proof (rect3_map H W C (fun v => astype_u8 (F32.mul (F32.clip01 v) F32.c255))
                frame Hrect) as Hr8.
  set (img_u8 := map (map (map (fun v => astype_u8 (F32.mul (F32.clip01 v) F32.c255))))
                     frame) in *.
  pose proof (rect3_rect2 H W C img_u8 Hr8) as Hr82.
  intros y x Hy Hx. split.
  - intros ->. change (1 =? 1) with true. cbv iota.
    rewrite (get2_map H W _ img_u8 y x [] []) by assumption.
    cbv zeta. fold (get3 img_u8 y x 0 0). unfold img_u8.
    rewrite (get3_map H W 1 _ frame y x 0 F32.zero 0) by (try assumption; lia).
    reflexivity.
  - intros HC1. destruct (Z.eqb_spec C 1); [lia|]. intros k Hk.
    unfold get3. rewrite (get2_map H W (firstn 3) img_u8 y x [] []) by assumption.
    rewrite get_firstn by lia. fold (get3 img_u8 y x k 0). unfold img_u8.
    rewrite (get3_map H W C _ frame y x k F32.zero 0) by (try assumption; lia).
    reflexivity.
Qed.

End PreviewExport.

(** ** The reference JSON library reads back the exported peaks *)

Module RefFacts.

Import Ref.

(** A number ends before [rest]. *)
Definition ends_number (rest : string) : Prop :=
match rest with
| EmptyString => True
| String c _ =>
    is_digit c = false /\ (c =? ".")%char = false /\
    (c =? "e")%char = false /\ (c =? "E")%char = false
end.

(** [s] is read as the integer [z], whatever follows the number. *)
Definition int_text (s : string) (z : Z) : Prop :=
(forall f rest, ends_number rest ->
   parse_value (S f) (String.append s rest) = Some (JInt z, rest)) /\
(forall rest, skip_ws (String.append s rest) = String.append s rest) /\
(1 <= String.length s)%nat.

Lemma span_digits_uint (u : Decimal.uint) (rest : string) :
match rest with String c _ => is_digit c = false | EmptyString => True end ->
span_digits (String.append (NilEmpty.string_of_uint u) rest) =
(NilEmpty.string_of_uint u, rest).
Proof.
intros Hrest. induction u; cbn [NilEmpty.string_of_uint String.append span_digits];
  try (change (is_digit _) with true; cbv iota; rewrite IHu; reflexivity).
destruct rest as [|c r]; [reflexivity|]. cbn [span_digits]. now rewrite Hrest.
Qed.

Lemma to_uint_head (p : positive) :
exists c s, NilEmpty.string_of_uint (Pos.to_uint p) = String c s /\
            is_digit c = true /\ (c =? "0")%char = false.
Proof.
pose proof (DecimalPos.Unsigned.to_of (Pos.to_uint p)) as Hn.
rewrite DecimalPos.Unsigned.of_to in Hn. cbn [N.to_uint] in Hn.
pose proof (DecimalPos.Unsigned.to_uint_nonnil p) as Hnil.
destruct (Pos.to_uint p) as [|u|u|u|u|u|u|u|u|u|u] eqn:E;
  try congruence;
  try (eexists; eexists; split; [reflexivity | split; reflexivity]).
exfalso. rewrite unorm_D0 in Hn.
destruct (Decimal.uint_eq_dec u Decimal.Nil) as [->|Hu].
- pose proof (DecimalPos.Unsigned.of_to p) as Hof.
  rewrite E in Hof. discriminate Hof.
- pose proof (nb_digits_unorm u Hu) as Hlen.
  rewrite <- Hn in Hlen. cbn [Decimal.nb_digits] in Hlen. lia.
Qed.

Lemma digits_value_uint (p : positive) :
digits_value (NilEmpty.string_of_uint (Pos.to_uint p)) = Zpos p.
Proof.
unfold digits_value.
pose proof (DecimalPos.Unsigned.to_uint_nonnil p) as Hnil.
assert (E : NilEmpty.string_of_uint (Pos.to_uint p) =
            NilZero.string_of_uint (Pos.to_uint p)).
{ unfold NilZero.string_of_uint. destruct (Pos.to_uint p); congruence. }
rewrite E, NilZero.usu by assumption.
unfold Z.of_uint. now rewrite DecimalPos.Unsigned.of_to.
Qed.

Lemma digit_cases (c : ascii) :
is_digit c = true ->
c = "0"%char \/ c = "1"%char \/ c = "2"%char \/ c = "3"%char \/ c = "4"%char \/
c = "5"%char \/ c = "6"%char \/ c = "7"%char \/ c = "8"%char \/ c = "9"%char.
Proof.
destruct c as [[] [] [] [] [] [] [] []]; intros H; try discriminate H; tauto.
Qed.

Lemma parse_value_digit (f : nat) (c : ascii) (s : string) :
is_digit c = true ->
parse_value (S f) (String c s) = scan_number (String c s).
Proof.
intros H. destruct (digit_cases c H) as [->|[->|[->|[->|[->|[->|[->|[->|[->| ->]]]]]]]]];
  reflexivity.
Qed.

Lemma parse_value_minus (f : nat) (c : ascii) (s : string) :
is_digit c = true ->
parse_value (S f) (String "-" (String c s)) = scan_number (String "-" (String c s)).
Proof.
intros H. destruct (digit_cases c H) as [->|[->|[->|[->|[->|[->|[->|[->|[->| ->]]]]]]]]];
  reflexivity.
Qed.

Lemma digit_not_ws (c : ascii) : is_digit c = true -> is_ws c = false.
Proof.
intros H. destruct (digit_cases c H) as [->|[->|[->|[->|[->|[->|[->|[->|[->| ->]]]]]]]]];
  reflexivity.
Qed.

Lemma scan_tail (neg : bool) (ip rest : string) (z : Z) :
ends_number rest ->
(let '(frac, rest1) :=
   match rest with
   | String dot (String d r') =>
       if (dot =? ".")%char && is_digit d
       then span_digits (String d r')
       else (EmptyString, rest)
   | _ => (EmptyString, rest)
   end in
 let '(ex, rest2) :=
   match rest1 with
   | String e r' =>
       if (e =? "e")%char || (e =? "E")%char then
         let '(eneg, r'') :=
           match r' with
           | String sg (String d r3) =>
               if (sg =? "-")%char then (true, String d r3)
               else if (sg =? "+")%char then (false, String d r3)
               else (false, r')
           | _ => (false, r')
           end in
         let '(es, r3) := span_digits r'' in
         match es with
         | EmptyString => (None, rest1)
         | _ => (Some (if eneg then - digits_value es else digits_value es), r3)
         end
       else (None, rest1)
   | EmptyString => (None, rest1)
   end in
 match frac, ex with
 | EmptyString, None => Some (JInt z, rest2)
 | _, _ =>
     let e10 := match ex with Some e => e | None => 0 end in
     Some (JFloat (f64_of_decimal neg (digits_value (String.append ip frac))
                     (e10 - Z.of_nat (String.length frac))), rest2)
 end) = Some (JInt z, rest).
Proof.
intros Hrest. destruct rest as [|c r]; [reflexivity|].
destruct Hrest as (Hd & Hdot & He & HE).
destruct r as [|d r']; rewrite ?Hdot; cbn [andb]; rewrite He, HE; reflexivity.
Qed.

Lemma scan_number_pos (p : positive) (rest : string) :
ends_number rest ->
scan_number (String.append (NilEmpty.string_of_uint (Pos.to_uint p)) rest) =
Some (JInt (Zpos p), rest).
Proof.
intros Hrest.
destruct (to_uint_head p) as (c & s & E & Hc & Hc0).
assert (Hspan : span_digits (String.append (NilEmpty.string_of_uint (Pos.to_uint p)) rest)
                = (NilEmpty.string_of_uint (Pos.to_uint p), rest)).
{ apply span_digits_uint. destruct rest; [exact I | apply Hrest]. }
rewrite E in Hspan |- *. cbn [String.append] in *.
unfold scan_number.
assert (Hm : (c =? "-")%char = false).
{ destruct (digit_cases c Hc) as [->|[->|[->|[->|[->|[->|[->|[->|[->| ->]]]]]]]]];
    reflexivity. }
rewrite Hm, Hc, Hc0. cbn [negb]. rewrite Hspan.
rewrite <- E. rewrite digits_value_uint.
apply (scan_tail false _ rest (Zpos p) Hrest).
Qed.


Lemma scan_number_neg (p : positive) (rest : string) :
ends_number rest ->
scan_number (String "-" (String.append (NilEmpty.string_of_uint (Pos.to_uint p)) rest)) =
Some (JInt (Zneg p), rest).
Proof.
intros Hrest.
destruct (to_uint_head p) as (c & s & E & Hc & Hc0).
assert (Hspan : span_digits (String.append (NilEmpty.string_of_uint (Pos.to_uint p)) rest)
                = (NilEmpty.string_of_uint (Pos.to_uint p), rest)).
{ apply span_digits_uint. destruct rest; [exact I | apply Hrest]. }
rewrite E in Hspan |- *. cbn [String.append] in *.
unfold scan_number.
change ("-" =? "-")%char with true. cbv iota.
rewrite Hc, Hc0. cbn [negb]. rewrite Hspan.
rewrite <- E. rewrite digits_value_uint.
apply (scan_tail true _ rest (Zneg p) Hrest).
Qed.

Lemma print_int_text (z : Z) : int_text (print_int z) z.
Proof.
unfold int_text, print_int. destruct z as [|p|p]; cbn [Z.to_int NilZero.string_of_int].
- split; [|split].
  + intros f rest Hrest. change (String.append (NilZero.string_of_uint Decimal.zero) rest)
      with (String "0" rest).
    rewrite parse_value_digit by reflexivity.
    unfold scan_number. change ("0" =? "-")%char with false. cbv iota.
    change (is_digit "0") with true. cbn [negb]. change ("0" =? "0")%char with true.
    cbv iota. apply (scan_tail false _ rest 0 Hrest).
  + intros rest. reflexivity.
  + cbn. lia.
- assert (E0 : NilZero.string_of_uint (Pos.to_uint p) =
               NilEmpty.string_of_uint (Pos.to_uint p)).
  { pose proof (DecimalPos.Unsigned.to_uint_nonnil p).
    unfold NilZero.string_of_uint. destruct (Pos.to_uint p); congruence. }
  rewrite E0. destruct (to_uint_head p) as (c & s & E & Hc & Hc0).
  split; [|split].
  + intros f rest Hrest. rewrite <- (scan_number_pos p rest Hrest).
    rewrite E. cbn [String.append]. now apply parse_value_digit.
  + intros rest. rewrite E. cbn [String.append skip_ws].
    now rewrite (digit_not_ws c Hc).
  + rewrite E. cbn. lia.
- assert (E0 : NilZero.string_of_uint (Pos.to_uint p) =
               NilEmpty.string_of_uint (Pos.to_uint p)).
  { pose proof (DecimalPos.Unsigned.to_uint_nonnil p).
    unfold NilZero.string_of_uint. destruct (Pos.to_uint p); congruence. }
  rewrite E0. destruct (to_uint_head p) as (c & s & E & Hc & Hc0).
  split; [|split].
  + intros f rest Hrest. cbn [String.append].
    rewrite <- (scan_number_neg p rest Hrest).
    rewrite E. cbn [String.append]. now apply parse_value_minus.
  + intros rest. reflexivity.
  + cbn. lia.
Qed.

Lemma append_assoc (a b c : string) :
String.append (String.append a b) c = String.append a (String.append b c).
Proof. induction a as [|x a IH]; cbn; [reflexivity | now rewrite IH]. Qed.

Lemma length_append (a b : string) :
String.length (String.append a b) = (String.length a + String.length b)%nat.
Proof. induction a as [|x a IH]; cbn; [reflexivity | now rewrite IH]. Qed.

Lemma skip_ws_space (r : string) : skip_ws (String " " r) = skip_ws r.
Proof. reflexivity. Qed.

Lemma skip_ws_stop (c : ascii) (r : string) :
is_ws c = false -> skip_ws (String c r) = String c r.
Proof. intros H. cbn [skip_ws]. now rewrite H. Qed.

(** One member [ "k": n ] of an object. *)
Lemma parse_member_step (f : nat) (k : ascii) (s R : string) :
(k =? quote)%char = false -> (k =? backslash)%char = false ->
(nat_of_ascii k <? 32)%nat = false ->
(forall rest, skip_ws (String.append s rest) = String.append s rest) ->
parse_members (S f)
  (String quote (String k (String quote (String ":" (String " "
     (String.append s R)))))) =
match parse_value f (String.append s R) with
| Some (v, r3) =>
    match skip_ws r3 with
    | String c3 r4 =>
        if (c3 =? "}")%char then Some ([(String k EmptyString, v)], r4)
        else if (c3 =? ",")%char then
          match parse_members f (skip_ws r4) with
          | Some (kvs, rest) => Some ((String k EmptyString, v) :: kvs, rest)
          | None => None
          end
        else None
    | EmptyString => None
    end
| None => None
end.
Proof.
intros Hq Hb Hc Hws.
cbn [parse_members]. change (quote =? quote)%char with true. cbv iota.
cbn [String.length scanstring]. rewrite Hq, Hb, Hc.
change (quote =? quote)%char with true. cbv iota.
rewrite (skip_ws_stop ":") by reflexivity.
change (":" =? ":")%char with true. cbv iota.
rewrite skip_ws_space, Hws. reflexivity.
Qed.

Lemma parse_member_last (f : nat) (k : ascii) (s : string) (z : Z) (rest : string) :
(k =? quote)%char = false -> (k =? backslash)%char = false ->
(nat_of_ascii k <? 32)%nat = false ->
int_text s z ->
parse_members (S (S f))
  (String quote (String k (String quote (String ":" (String " "
     (String.append s (String "}" rest))))))) =
Some ([(String k EmptyString, JInt z)], rest).
Proof.
intros Hq Hb Hc (Hparse & Hws & _).
rewrite parse_member_step by assumption.
rewrite Hparse by (cbn; auto).
rewrite (skip_ws_stop "}") by reflexivity. reflexivity.
Qed.

Lemma parse_member_more (f : nat) (k : ascii) (s : string) (z : Z) (rest : string)
(kvs : list (string * json)) (rest' : string) :
(k =? quote)%char = false -> (k =? backslash)%char = false ->
(nat_of_ascii k <? 32)%nat = false ->
int_text s z ->
parse_members (S f) (String quote rest) = Some (kvs, rest') ->
parse_members (S (S f))
  (String quote (String k (String quote (String ":" (String " "
     (String.append s (String "," (String " " (String quote rest))))))))) =
Some ((String k EmptyString, JInt z) :: kvs, rest').
Proof.
intros Hq Hb Hc (Hparse & Hws & _) Hmore.
rewrite parse_member_step by assumption.
rewrite Hparse by (cbn; auto).
rewrite (skip_ws_stop ",") by reflexivity.
change ("," =? "}")%char with false. change ("," =? ",")%char with true. cbv iota.
rewrite skip_ws_space, (skip_ws_stop quote) by reflexivity.
rewrite Hmore. reflexivity.
Qed.

Lemma parse_value_obj (f : nat) (r : string) :
parse_value (S f) (String "{" (String quote r)) =
match parse_members f (String quote r) with
| Some (kvs, rest) => Some (JDict kvs, rest)
| None => None
end.
Proof. reflexivity. Qed.

(** The text of an exported peak is read back as the peak. *)
Lemma parse_peak_text (f : nat) (sx sy sr : string) (x y r : Z) (rest : string) :
int_text sx x -> int_text sy y -> int_text sr r ->
parse_value (S (S (S (S (S f)))))
  (String "{" (String quote (String "x" (String quote (String ":" (String " "
    (String.append sx (String "," (String " "
      (String quote (String "y" (String quote (String ":" (String " "
        (String.append sy (String "," (String " "
          (String quote (String "r" (String quote (String ":" (String " "
            (String.append sr (String "}" rest)))))))))))))))))))))))) =
Some (JDict [("x"%string, JInt x); ("y"%string, JInt y); ("r"%string, JInt r)], rest).
Proof.
intros Hx Hy Hr.
rewrite parse_value_obj.
rewrite (parse_member_more (S (S f)) "x" sx x _
           [("y"%string, JInt y); ("r"%string, JInt r)] rest);
  try reflexivity; try assumption.
rewrite (parse_member_more (S f) "y" sy y _ [("r"%string, JInt r)] rest);
  try reflexivity; try assumption.
now rewrite (parse_member_last f "r" sr r rest).
Qed.

Lemma dumps_peak_obj (nr : Z) (p : Z * Z) (rest : string) :
String.append (dumps (peak_obj nr p)) rest =
String "{" (String quote (String "x" (String quote (String ":" (String " "
  (String.append (print_int (snd p)) (String "," (String " "
    (String quote (String "y" (String quote (String ":" (String " "
      (String.append (print_int (fst p)) (String "," (String " "
        (String quote (String "r" (String quote (String ":" (String " "
          (String.append (print_int nr) (String "}" rest))))))))))))))))))))))).
Proof.
unfold peak_obj. cbn [dumps map join print_str escape].
generalize (print_int (snd p)), (print_int (fst p)), (print_int nr).
intros sx sy sr.
cbv -[String.append]. cbn [String.append].
rewrite !append_assoc. cbn [String.append].
rewrite !append_assoc. cbn [String.append].
reflexivity.
Qed.

Lemma parse_peak_obj (f : nat) (nr : Z) (p : Z * Z) (rest : string) :
parse_value (S (S (S (S (S f))))) (String.append (dumps (peak_obj nr p)) rest) =
Some (peak_obj nr p, rest).
Proof.
rewrite dumps_peak_obj. apply parse_peak_text; apply print_int_text.
Qed.

Lemma length_peak_obj (nr : Z) (p : Z * Z) :
(6 <= String.length (dumps (peak_obj nr p)))%nat.
Proof.
assert (E : dumps (peak_obj nr p) = String.append (dumps (peak_obj nr p)) EmptyString).
{ generalize (dumps (peak_obj nr p)). induction s as [|c s IH]; cbn; congruence. }
rewrite E, dumps_peak_obj. cbn [String.length]. lia.
Qed.

Lemma join_head (nr : Z) (p : Z * Z) (l : list (Z * Z)) (rest : string) :
exists r,
  String.append (join ", " (map dumps (map (peak_obj nr) (p :: l)))) rest =
  String "{" r.
Proof.
destruct l as [|q l]; cbn [map join].
- rewrite dumps_peak_obj. eexists. reflexivity.
- rewrite append_assoc, dumps_peak_obj. eexists. reflexivity.
Qed.

Lemma length_join (nr : Z) (l : list (Z * Z)) :
(6 * List.length l <=
 String.length (join ", " (map dumps (map (peak_obj nr) l))))%nat.
Proof.
induction l as [|p l IH]; [cbn; lia|].
destruct l as [|q l].
- cbn [map join List.length]. pose proof (length_peak_obj nr p). lia.
- change (join ", " (map dumps (map (peak_obj nr) (p :: q :: l))))
    with (String.append (dumps (peak_obj nr p))
            (String.append ", " (join ", " (map dumps (map (peak_obj nr) (q :: l)))))).
  rewrite !length_append. pose proof (length_peak_obj nr p).
  cbn [List.length] in *. lia.
Qed.

Lemma parse_elements_eq (fuel : nat) (s : string) :
parse_elements (S fuel) s =
match parse_value fuel s with
| Some (v, r) =>
    match skip_ws r with
    | String c r1 =>
        if (c =? "]")%char then Some ([v], r1)
        else if (c =? ",")%char then
          match parse_elements fuel (skip_ws r1) with
          | Some (vs, rest) => Some (v :: vs, rest)
          | None => None
          end
        else None
    | EmptyString => None
    end
| None => None
end.
Proof. reflexivity. Qed.

Lemma parse_elements_peaks (nr : Z) (peaks : list (Z * Z)) :
forall (fuel : nat) (rest : string),
  peaks <> [] -> (List.length peaks + 5 <= fuel)%nat ->
  parse_elements fuel
    (String.append (join ", " (map dumps (map (peak_obj nr) peaks))) (String "]" rest)) =
  Some (map (peak_obj nr) peaks, rest).
Proof.
induction peaks as [|p l IH]; intros fuel rest Hne Hfuel; [congruence|].
cbn [List.length] in Hfuel.
destruct fuel as [|[|[|[|[|[|f]]]]]]; try lia.
destruct l as [|q l].
- cbn [map join]. rewrite parse_elements_eq, parse_peak_obj.
  rewrite (skip_ws_stop "]") by reflexivity. reflexivity.
- change (join ", " (map dumps (map (peak_obj nr) (p :: q :: l))))
    with (String.append (dumps (peak_obj nr p))
            (String.append ", " (join ", " (map dumps (map (peak_obj nr) (q :: l)))))).
  rewrite append_assoc, parse_elements_eq, parse_peak_obj.
  rewrite append_assoc. cbn [String.append].
  rewrite (skip_ws_stop ",") by reflexivity.
  change ("," =? "]")%char with false. change ("," =? ",")%char with true. cbv iota.
  rewrite skip_ws_space.
  destruct (join_head nr q l (String "]" rest)) as (r & Er).
  rewrite Er, (skip_ws_stop "{") by reflexivity. rewrite <- Er.
  rewrite (IH (S (S (S (S (S f))))) rest); [reflexivity | congruence |].
  cbn [List.length] in *. lia.
Qed.

(** What [dumps] writes for a list of exported peaks, [loads] reads back. *)
Lemma loads_dumps_peaks (nr : Z) (peaks : list (Z * Z)) :
loads (dumps (JList (map (peak_obj nr) peaks))) =
Some (JList (map (peak_obj nr) peaks)).
Proof.
destruct peaks as [|p l]; [reflexivity|].
cbn [dumps]. unfold loads.
set (J := join ", " (map dumps (map (peak_obj nr) (p :: l)))).
change (String.append "[" (String.append J "]")) with (String "[" (String.append J "]")).
rewrite (skip_ws_stop "[") by reflexivity.
destruct (join_head nr p l "]") as (r & Er). fold J in Er.
cbn [parse_value]. change ("[" =? quote)%char with false.
change ("[" =? "{")%char with false. change ("[" =? "[")%char with true. cbv iota.
rewrite Er, (skip_ws_stop "{") by reflexivity.
change ("{" =? "]")%char with false. cbv iota. rewrite <- Er.
cbn [String.length]. rewrite length_append.
unfold J. rewrite (parse_elements_peaks nr (p :: l)); [reflexivity | congruence |].
pose proof (length_join nr (p :: l)) as HL. clear Er. subst J.
change (String.length "]") with 1%nat. cbn [List.length] in *. lia.
Qed.

End RefFacts.

(** With the reference library the exported text is read back for every peak
    list: the round trip through the manual node needs no assumption. *)
Lemma roundtrip_frame_reference (H W : Z) (thr : f32) (md nr pdc : Z)
  (frame : list (list (list f32))) (fo : frame_out) :
  auto_frame (L := Ref.library) H W thr md nr pdc 0 frame = Ok fo ->
  manual_frame (L := Ref.library)
    (parse_points (L := Ref.library)
       (json_dumps (Library := Ref.library)
          (JList (map (peak_obj nr) (fo_peaks fo)))))
    H W 0 0 frame = Ok (fo_filtered fo, fo_mask fo).
Proof.
  intros Hauto. apply (roundtrip_frame H W thr md nr pdc frame fo Hauto).
  apply RefFacts.loads_dumps_peaks.
Qed.

(** * Part III: the claims of the specification *)

#[local] Existing Instance Ref.library.

Ltac concrete_rect :=
  repeat match goal with
  | |- _ /\ _ => split
  | |- Forall _ _ => constructor
  | |- _ = _ => reflexivity
  | |- _ <> _ => discriminate
  | |- _ <= _ => lia
  | |- _ < _ => lia
  end.

Lemma spike_wf (C r c : Z) :
  1 <= C -> rect3 3 3 C (Examples.spike C r c).
Proof.
  intros HC. apply rect3_intro.
  - apply rect2_tab2; lia.
  - intros y x Hy Hx. unfold Examples.spike. rewrite get2_tab2 by assumption.
    rewrite len_tab. lia.
Qed.

Lemma black_wf (C : Z) : 1 <= C -> rect3 3 3 C (Examples.black C).
Proof.
  intros HC. apply rect3_intro.
  - apply rect2_tab2; lia.
  - intros y x Hy Hx. unfold Examples.black. rewrite get2_tab2 by assumption.
    rewrite len_tab. lia.
Qed.

(** C1. In automatic and in manual mode, every filtered frame is the input
    frame multiplied sample by sample by (1 - mask), and the three channels of
    the mask image carry the same two-dimensional mask. *)
Theorem filtered_is_frame_times_one_minus_mask {L : Library}
  (spectrum : tensor) (H W C : Z) :
  wf_batch H W C (to_bhwc spectrum) ->
  (forall m s, rect2 H W m -> rect2 H W (gaussian_filter m s)) ->
  (forall thr md nr pdc feather,
      exists out,
        apply_notch spectrum thr md nr pdc feather = Ok out /\
        masked H W C (to_bhwc spectrum) (filtered_spectrum out) (notch_mask out)) /\
  (forall notch_points feather pdc circles,
      point_circles (parse_points notch_points) = Ok circles ->
      Forall fits_circle circles ->
      exists out,
        apply_manual_notch spectrum notch_points feather pdc = Ok out /\
        masked H W C (to_bhwc spectrum) (m_filtered out) (m_mask out)) /\
  (forall notch_points feather pdc out,
      apply_manual_notch spectrum notch_points feather pdc = Ok out ->
      masked H W C (to_bhwc spectrum) (m_filtered out) (m_mask out)).
Proof.
  intros Hwf Hg. split; [|split].
  - intros thr md nr pdc feather. now apply masked_auto.
  - intros s feather pdc circles Hpc Hfit. unfold apply_manual_notch.
    now apply masked_manual with circles.
  - intros s feather pdc out Hrun. unfold apply_manual_notch in Hrun.
    assert (Hne : to_bhwc spectrum <> []) by now destruct Hwf.
    assert (Hpc : exists circles, point_circles (parse_points s) = Ok circles).
    { unfold manual_run in Hrun. destruct (to_bhwc spectrum) as [|f rest]; [congruence|].
      cbn [mapM] in Hrun. unfold manual_frame at 1 in Hrun.
      destruct (point_circles (parse_points s)) as [cs|e]; [now exists cs | discriminate]. }
    destruct Hpc as (circles & Hpc).
    pose proof (point_circles_fits _ _ _ _ _ _ Hne Hpc Hrun) as Hfit.
    destruct (masked_manual (parse_points s) spectrum H W C feather pdc circles
                Hwf Hg Hpc Hfit) as (out' & E & Hm).
    rewrite E in Hrun. now inversion Hrun; subst.
Qed.

Lemma filtered_is_frame_times_one_minus_mask_witness :
  wf_batch 3 3 1 (to_bhwc (T4 [Examples.spike 1 1 1])) /\
  (exists out,
      apply_notch (L := Ref.library) (T4 [Examples.spike 1 1 1]) F32.c0_5 2 1 0 1 = Ok out /\
      masked 3 3 1 (to_bhwc (T4 [Examples.spike 1 1 1]))
             (filtered_spectrum out) (notch_mask out)) /\
  (exists out,
      apply_manual_notch (L := Ref.library) (T4 [Examples.spike 1 1 1])
        (Ref.dq "[{'x': 1, 'y': 1, 'r': 1}]") 1 0 = Ok out /\
      masked 3 3 1 (to_bhwc (T4 [Examples.spike 1 1 1])) (m_filtered out) (m_mask out)).
Proof.
  assert (Hwf : wf_batch 3 3 1 (to_bhwc (T4 [Examples.spike 1 1 1]))).
  { unfold wf_batch. cbn [to_bhwc]. split; [discriminate|].
    split; [repeat constructor; apply spike_wf; lia|]. lia. }
  assert (Hg : forall m s, rect2 3 3 m -> rect2 3 3 (gaussian_filter (Library := Ref.library) m s)).
  { intros m s. apply blur_rect; lia. }
  destruct (filtered_is_frame_times_one_minus_mask (L := Ref.library)
              (T4 [Examples.spike 1 1 1]) 3 3 1 Hwf Hg) as (Hauto & Hman & _).
  split; [exact Hwf|]. split.
  - apply Hauto.
  - apply (Hman _ 1 0 [(1, 1, 1)]).
    + vm_compute. reflexivity.
    + repeat constructor.
Defined.

(** C2. In automatic mode a pixel of the grayscale frame is returned as a
    peak exactly when no pixel of the square window of side
    max(3, 2 * min_distance + 1) centred on it exceeds it (it equals the
    window maximum), its value is at least threshold_rel times the global
    maximum, and, when protect_dc > 0, its squared distance to
    (H // 2, W // 2) is strictly greater than protect_dc squared. *)
Theorem peak_iff_thresholded_local_maximum (H W : Z) (gray : list (list f32))
  (threshold_rel : f32) (min_distance protect_dc : Z) :
  rect2 H W gray -> 1 <= H <= 2 ^ 31 -> 1 <= W <= 2 ^ 31 -> no_nan gray ->
  exists peaks gmax,
    detect_peaks H W gray threshold_rel min_distance protect_dc = Ok peaks /\
    is_global_max H W gray gmax /\
    forall r c,
      In (r, c) peaks <->
      (0 <= r < H /\ 0 <= c < W /\
       (forall i j, in_window H W (Z.max 3 (min_distance * 2 + 1) / 2) r c i j ->
                    F32.leb (get2 gray i j F32.zero) (get2 gray r c F32.zero) = true) /\
       F32.leb (F32.mul threshold_rel gmax) (get2 gray r c F32.zero) = true /\
       (0 < protect_dc ->
        protect_dc ^ 2 < (c - W / 2) ^ 2 + (r - H / 2) ^ 2)).
Proof. apply detect_peaks_spec. Qed.

Lemma peak_iff_thresholded_local_maximum_witness :
  detect_peaks 3 3 Examples.gray_spike F32.c0_5 2 0 = Ok [(1, 1)] /\
  exists peaks gmax,
    detect_peaks 3 3 Examples.gray_spike F32.c0_5 2 0 = Ok peaks /\
    is_global_max 3 3 Examples.gray_spike gmax /\
    forall r c,
      In (r, c) peaks <->
      (0 <= r < 3 /\ 0 <= c < 3 /\
       (forall i j, in_window 3 3 (Z.max 3 (2 * 2 + 1) / 2) r c i j ->
                    F32.leb (get2 Examples.gray_spike i j F32.zero)
                            (get2 Examples.gray_spike r c F32.zero) = true) /\
       F32.leb (F32.mul F32.c0_5 gmax) (get2 Examples.gray_spike r c F32.zero) = true /\
       (0 < 0 -> 0 ^ 2 < (c - 3 / 2) ^ 2 + (r - 3 / 2) ^ 2)).
Proof.
  split; [vm_compute; reflexivity|].
  apply (peak_iff_thresholded_local_maximum 3 3 Examples.gray_spike F32.c0_5 2 0).
  - apply rect2_tab2; lia.
  - lia.
  - lia.
  - vm_compute. repeat constructor.
Defined.

(** C10. When the grayscale reduction of a frame is zero everywhere, every
    pixel outside the DC-protection disk is reported as a peak (and no other
    pixel is). *)
Theorem zero_frame_reports_every_pixel (H W : Z) (frame : list (list (list f32)))
  (gray : list (list f32)) (threshold_rel : f32) (min_distance protect_dc : Z) :
  _to_gray frame = Ok gray ->
  rect2 H W gray -> 1 <= H <= 2 ^ 31 -> 1 <= W <= 2 ^ 31 ->
  (forall y x, 0 <= y < H -> 0 <= x < W ->
               F32.is_zero (get2 gray y x F32.zero) = true) ->
  F32.is_finite threshold_rel = true ->
  exists peaks,
    detect_peaks H W gray threshold_rel min_distance protect_dc = Ok peaks /\
    forall r c,
      In (r, c) peaks <->
      (0 <= r < H /\ 0 <= c < W /\
       (0 < protect_dc ->
        protect_dc ^ 2 < (c - W / 2) ^ 2 + (r - H / 2) ^ 2)).
Proof. intros _. apply zeros_detect. Qed.

Lemma zero_frame_reports_every_pixel_witness :
  _to_gray (Examples.black 3) = Ok Examples.gray_black /\
  detect_peaks 3 3 Examples.gray_black F32.c0_5 2 1 = Ok [(0, 0); (0, 2); (2, 0); (2, 2)] /\
  exists peaks,
    detect_peaks 3 3 Examples.gray_black F32.c0_5 2 1 = Ok peaks /\
    forall r c,
      In (r, c) peaks <->
      (0 <= r < 3 /\ 0 <= c < 3 /\
       (0 < 1 -> 1 ^ 2 < (c - 3 / 2) ^ 2 + (r - 3 / 2) ^ 2)).
Proof.
  split; [vm_compute; reflexivity|]. split; [vm_compute; reflexivity|].
  apply (zero_frame_reports_every_pixel 3 3 (Examples.black 3) Examples.gray_black
           F32.c0_5 2 1).
  - vm_compute. reflexivity.
  - apply rect2_tab2; lia.
  - lia.
  - lia.
  - intros y x Hy Hx. unfold Examples.gray_black. now rewrite get2_tab2.
  - reflexivity.
Defined.

(** C3, as stated, fails: a centre far outside the frame makes the int64
    squared distance wrap around, and a pixel that lies in no disk is set. *)
Lemma mask_footprint_counterexample :
  _build_circular_mask (L := Ref.library) 1 1 [(0, 2 ^ 32)] 0 0 = Ok [[F32.one]] /\
  (exists out,
      apply_manual_notch (L := Ref.library) (T4 [[[[F32.one]]]])
        (Ref.dq "[{'x': 4294967296, 'y': 0, 'r': 0}]") 0 0 = Ok out /\
      m_mask out = [[[[F32.one; F32.one; F32.one]]]]) /\
  existsb (fun p => (0 - snd p) ^ 2 + (0 - fst p) ^ 2 <=? 0 ^ 2) [(0, 2 ^ 32)] = false.
Proof.
  split; [vm_compute; reflexivity|]. split; [|vm_compute; reflexivity].
  eexists. split; vm_compute; reflexivity.
Qed.

(** C3 (amended). For every frame size, radius and feather value and every
    peak list whose coordinates fit in int64, the mask is built and every
    entry lies in [0,1] (the Gaussian filter returning no NaN on the binary
    mask); without feathering every entry is 0.0 or 1.0; and when the frame
    size and the centre coordinates are at most 2^30 in magnitude, so that
    the int64 squared distances do not wrap around, the entries 1.0 are the
    union of the inclusive disks. *)
Theorem mask_in_unit_interval_and_union_of_disks {L : Library}
  (H W : Z) (peaks : list (Z * Z)) (radius feather : Z) :
  0 <= H -> 0 <= W ->
  Forall fits_peak peaks ->
  (forall m0,
      draw_circles (map (fun p => (fst p, snd p, radius)) peaks)
                   (tab2 H W (fun _ _ => F32.zero)) = Ok m0 ->
      no_nan (gaussian_filter m0 feather)) ->
  exists mask,
    _build_circular_mask H W peaks radius feather = Ok mask /\
    within01 mask /\
    (feather <= 0 ->
     rect2 H W mask /\
     (forall y x, 0 <= y < H -> 0 <= x < W ->
        get2 mask y x F32.zero = F32.zero \/ get2 mask y x F32.zero = F32.one) /\
     (H <= 2 ^ 30 -> W <= 2 ^ 30 ->
      Forall (fun p => Z.abs (fst p) <= 2 ^ 30 /\ Z.abs (snd p) <= 2 ^ 30) peaks ->
      forall y x, 0 <= y < H -> 0 <= x < W ->
        get2 mask y x F32.zero =
        if existsb (fun p => (x - snd p) ^ 2 + (y - fst p) ^ 2 <=? radius ^ 2) peaks
        then F32.one else F32.zero)).
Proof.
  intros HH HW Hfit Hgauss.
  destruct (build_circular_mask_spec H W peaks radius feather HH HW Hfit Hgauss)
    as (mask & E & Hw & Hbin).
  exists mask. split; [assumption|]. split; [assumption|].
  intros Hf. destruct (Hbin Hf) as [Hrect Hget]. split; [assumption|]. split.
  - intros y x Hy Hx. rewrite Hget by assumption.
    destruct (covered _ y x); [now right | now left].
  - intros HH' HW' Hsmall y x Hy Hx. rewrite Hget by assumption.
    now rewrite (covered_is_union_of_disks H W) by (try assumption; lia).
Qed.

Lemma mask_in_unit_interval_and_union_of_disks_witness :
  (exists mask,
      _build_circular_mask (L := Ref.library) 3 3 [(0, 0); (1, 1)] 1 1 = Ok mask /\
      within01 mask) /\
  (exists mask,
      _build_circular_mask (L := Ref.library) 3 3 [(0, 0); (1, 1)] 1 0 = Ok mask /\
      forall y x, 0 <= y < 3 -> 0 <= x < 3 ->
        get2 mask y x F32.zero =
        if existsb (fun p => (x - snd p) ^ 2 + (y - fst p) ^ 2 <=? 1 ^ 2) [(0, 0); (1, 1)]
        then F32.one else F32.zero).
Proof.
  assert (Hfit : Forall fits_peak [(0, 0); (1, 1)]).
  { repeat constructor. }
  assert (Hsmall : Forall (fun p => Z.abs (fst p) <= 2 ^ 30 /\ Z.abs (snd p) <= 2 ^ 30)
                          [(0, 0); (1, 1)]).
  { repeat constructor; cbn; lia. }
  split.
  - destruct (mask_in_unit_interval_and_union_of_disks (L := Ref.library)
                3 3 [(0, 0); (1, 1)] 1 1) as (mask & E & Hw & _); try lia.
    + exact Hfit.
    + intros m0 Hm0. vm_compute in Hm0. inversion Hm0; subst m0.
      vm_compute. repeat constructor.
    + exists mask. split; assumption.
  - destruct (mask_in_unit_interval_and_union_of_disks (L := Ref.library)
                3 3 [(0, 0); (1, 1)] 1 0) as (mask & E & _ & Hu); try lia.
    + exact Hfit.
    + intros m0 Hm0. vm_compute in Hm0. inversion Hm0; subst m0.
      vm_compute. repeat constructor.
    + exists mask. split; [assumption|].
      destruct (Hu ltac:(lia)) as (_ & _ & Hdisk).
      apply Hdisk; [lia | lia | exact Hsmall].
Defined.

(** The manual loop body, fed with the exported peaks of a frame, the feather
    of the automatic run and no DC protection, returns what the automatic
    loop body returned for that frame. *)
Lemma roundtrip_frame_feathered {L : Library} (H W : Z) (thr : f32)
  (md nr pdc feather : Z) (frame : list (list (list f32))) (fo : frame_out) :
  auto_frame H W thr md nr pdc feather frame = Ok fo ->
  manual_frame (map (peak_obj nr) (fo_peaks fo)) H W feather 0 frame =
    Ok (fo_filtered fo, fo_mask fo).
Proof.
  intros Hauto.
  unfold manual_frame. rewrite point_circles_peak_objs. cbn [bind].
  unfold auto_frame in Hauto.
  destruct (_to_gray frame) as [gray|e]; [|discriminate]. cbn [bind] in Hauto.
  destruct (detect_peaks H W gray thr md pdc) as [peaks|e]; [|discriminate].
  cbn [bind] in Hauto.
  destruct (_build_circular_mask H W peaks nr feather) as [mask|e] eqn:Em; [|discriminate].
  cbn [bind] in Hauto.
  destruct (_annotate_preview frame peaks nr pdc H W) as [pv|e]; [|discriminate].
  cbn [bind] in Hauto. inversion Hauto; subst fo. cbn [fo_peaks fo_filtered fo_mask].
  unfold _build_circular_mask in Em. unfold manual_mask.
  destruct (zeros H W) as [z|e]; [|discriminate]. cbn [bind] in *.
  destruct (draw_circles _ z) as [m|e]; [|discriminate]. cbn [bind] in *.
  change (0 <? 0) with false. cbv iota. now inversion Em.
Qed.

(** C4, as stated, fails.  The node exports the peaks of the first frame
    only: on a batch of two frames with a spike at (0, 0) and at (2, 2), the
    exported text holds the peak (0, 0), and the manual mask of the second
    frame is 0.0 at (2, 2) where the automatic mask is 1.0.  And the
    automatic mask is feathered with the feather of the automatic run: with
    feather = 1 on the automatic side and feather = 0 on the manual side the
    automatic mask is positive at the corner (0, 0), the manual mask 0.0. *)
Lemma exported_peaks_roundtrip_counterexample :
  (exists out mout,
     apply_notch (L := Ref.library)
       (T4 [Examples.spike 1 0 0; Examples.spike 1 2 2]) F32.c0_5 2 1 0 0 = Ok out /\
     peak_positions out = Ref.dq "[{'x': 0, 'y': 0, 'r': 1}]" /\
     apply_manual_notch (L := Ref.library)
       (T4 [Examples.spike 1 0 0; Examples.spike 1 2 2]) (peak_positions out) 0 0 =
       Ok mout /\
     get4 (notch_mask out) 1 2 2 0 F32.zero = F32.one /\
     get4 (m_mask mout) 1 2 2 0 F32.zero = F32.zero) /\
  (exists out mout,
     apply_notch (L := Ref.library) (T4 [Examples.spike 1 1 1]) F32.c0_5 2 1 0 1 = Ok out /\
     peak_positions out = Ref.dq "[{'x': 1, 'y': 1, 'r': 1}]" /\
     apply_manual_notch (L := Ref.library)
       (T4 [Examples.spike 1 1 1]) (peak_positions out) 0 0 = Ok mout /\
     F32.ltb F32.zero (get4 (notch_mask out) 0 0 0 0 F32.zero) = true /\
     get4 (m_mask mout) 0 0 0 0 F32.zero = F32.zero).
Proof.
  split.
  - eexists. eexists. split; [vm_compute; reflexivity|].
    split; [vm_compute; reflexivity|]. split; [vm_compute; reflexivity|].
    split; vm_compute; reflexivity.
  - eexists. eexists. split; [vm_compute; reflexivity|].
    split; [vm_compute; reflexivity|]. split; [vm_compute; reflexivity|].
    split; vm_compute; reflexivity.
Qed.

(** C4 (amended). For the first frame of a well-formed batch, the only frame
    whose peaks the automatic node exports, the exported text supplied as the
    point input of the manual node, with the feather value of the automatic
    run (feather = 0 on both sides in particular) and protect_dc = 0, yields
    the mask image and the filtered frame of the automatic node for that
    frame; for a batch of one frame these are the whole outputs.  The JSON
    library is assumed to read back the peak lists it wrote. *)
Theorem exported_peaks_reproduce_first_frame {L : Library} (spectrum : tensor)
  (H W C : Z) (threshold_rel : f32)
  (min_distance notch_radius protect_dc feather : Z) (out : auto_out) :
  wf_batch H W C (to_bhwc spectrum) ->
  (forall peaks,
      json_loads (json_dumps (JList (map (peak_obj notch_radius) peaks))) =
      Some (JList (map (peak_obj notch_radius) peaks))) ->
  apply_notch spectrum threshold_rel min_distance notch_radius protect_dc feather = Ok out ->
  exists mout,
    apply_manual_notch spectrum (peak_positions out) feather 0 = Ok mout /\
    get (m_mask mout) 0 [] = get (notch_mask out) 0 [] /\
    get (m_filtered mout) 0 [] = get (filtered_spectrum out) 0 [] /\
    (len (to_bhwc spectrum) = 1 ->
     m_mask mout = notch_mask out /\ m_filtered mout = filtered_spectrum out).
Proof.
  intros Hwf Hjson Hrun.
  destruct (apply_notch_spec spectrum H W C threshold_rel min_distance notch_radius
              protect_dc feather Hwf) as (out' & o & rest & E & HF & Efil & Emask & Epos).
  rewrite E in Hrun. inversion Hrun; subst out'. clear Hrun.
  pose proof Hwf as (Hne & Hall & HH & HW & HC).
  destruct (to_bhwc spectrum) as [|f0 frames] eqn:Ef; [congruence|].
  inversion HF as [|? ? ? ? Ho HFrest]; subst.
  assert (Hf0 : rect3 H W C f0) by now inversion Hall.
  pose proof (roundtrip_frame_feathered H W threshold_rel min_distance notch_radius
                protect_dc feather f0 o Ho) as Hround.
  unfold apply_manual_notch, parse_points. rewrite Epos, Hjson.
  set (points := map (peak_obj notch_radius) (fo_peaks o)) in *.
  assert (Hin : Forall (in_image H W) (fo_peaks o)).
  { destruct (auto_frame_spec H W C threshold_rel min_distance notch_radius protect_dc
                feather f0 Hf0 HH HW HC) as (fo' & gray & mask & E' & _ & Hgr & Ep & _).
    rewrite E' in Ho. inversion Ho; subst fo'.
    destruct (detect_peaks_ok H W gray threshold_rel min_distance protect_dc Hgr
                ltac:(lia) ltac:(lia)) as (peaks & Ep' & Hin).
    rewrite Ep in Ep'. inversion Ep' as [Epk]. rewrite <- Epk in Hin. exact Hin. }
  assert (Hfit : Forall fits_circle
                   (map (fun p => (fst p, snd p, notch_radius)) (fo_peaks o))).
  { apply Forall_map. eapply Forall_impl; [|exact Hin]. intros p [Hr Hc].
    assert (2 ^ 31 < 2 ^ 63) by reflexivity.
    unfold fits_circle, I64.fits. cbn [fst snd].
    rewrite !andb_true_iff, !Z.leb_le, !Z.ltb_lt. lia. }
  assert (Hwf' : wf_batch H W C (to_bhwc spectrum)) by (rewrite Ef; exact Hwf).
  destruct (manual_run_spec points spectrum H W C feather 0 _ Hwf'
              (point_circles_peak_objs notch_radius (fo_peaks o)) Hfit)
    as (mout & mask0 & Em & Emm & _ & Emfil & Emmask).
  exists mout. split; [exact Em|].
  assert (Hfirst : apply_mask f0 (feathered mask0 feather) = fo_filtered o /\
                   mask_image (feathered mask0 feather) = fo_mask o).
  { unfold manual_frame in Hround. unfold points in Hround.
    rewrite point_circles_peak_objs in Hround. cbn [bind] in Hround.
    rewrite Emm in Hround. cbn [bind] in Hround. now inversion Hround. }
  destruct Hfirst as (Hfa & Hfm).
  rewrite Emfil, Emmask, Efil, Emask, Ef. cbn [map].
  rewrite Hfa, Hfm. split; [reflexivity|]. split; [reflexivity|].
  intros Hlen. destruct frames as [|f1 frames'].
  - inversion HFrest; subst. cbn [map]. now split.
  - unfold len in Hlen. cbn [List.length] in Hlen. lia.
Qed.

Lemma exported_peaks_reproduce_first_frame_witness :
  exists out,
    apply_notch (L := Ref.library)
      (T4 [Examples.spike 1 0 0; Examples.spike 1 2 2]) F32.c0_5 2 1 0 1 = Ok out /\
    exists mout,
      apply_manual_notch (L := Ref.library)
        (T4 [Examples.spike 1 0 0; Examples.spike 1 2 2]) (peak_positions out) 1 0 =
        Ok mout /\
      get (m_mask mout) 0 [] = get (notch_mask out) 0 [] /\
      get (m_filtered mout) 0 [] = get (filtered_spectrum out) 0 [] /\
      (len (to_bhwc (T4 [Examples.spike 1 0 0; Examples.spike 1 2 2])) = 1 ->
       m_mask mout = notch_mask out /\ m_filtered mout = filtered_spectrum out).
Proof.
  eexists. split; [vm_compute; reflexivity|].
  apply (exported_peaks_reproduce_first_frame (L := Ref.library)
           (T4 [Examples.spike 1 0 0; Examples.spike 1 2 2]) 3 3 1 F32.c0_5 2 1 0 1).
  - split; [discriminate|]. split; [|lia].
    constructor; [apply spike_wf; lia|]. constructor; [apply spike_wf; lia|]. constructor.
  - intros peaks. apply RefFacts.loads_dumps_peaks.
  - vm_compute. reflexivity.
Defined.

(** C5, as stated, fails: a parsed array whose elements are not objects makes
    the node raise, and an array of objects without keys is drawn with the
    defaults instead of being treated as empty. *)
Lemma malformed_points_counterexample :
  json_loads (Library := Ref.library) (Ref.dq "[1]") = Some (JList [JInt 1]) /\
  apply_manual_notch (L := Ref.library) (T4 [Examples.black 1]) (Ref.dq "[1]") 0 0 =
    Raise AttributeError /\
  apply_manual_notch (L := Ref.library) (T4 [Examples.black 1]) (Ref.dq "[{'x': null}]") 0 0 =
    Raise TypeError /\
  exists out_empty out_defaults,
    manual_run (L := Ref.library) [] (T4 [Examples.black 1]) 0 0 = Ok out_empty /\
    apply_manual_notch (L := Ref.library) (T4 [Examples.black 1]) (Ref.dq "[{}]") 0 0 =
      Ok out_defaults /\
    get4 (m_mask out_empty) 0 0 0 0 F32.zero = F32.zero /\
    get4 (m_mask out_defaults) 0 0 0 0 F32.zero = F32.one.
Proof.
  split; [vm_compute; reflexivity|]. split; [vm_compute; reflexivity|].
  split; [vm_compute; reflexivity|].
  eexists. eexists. split; [vm_compute; reflexivity|].
  split; [vm_compute; reflexivity|]. split; vm_compute; reflexivity.
Qed.

(** C5 (amended). When the input string is not parseable JSON, or parses to
    something that is not an array, the node behaves exactly as for the empty
    point list, and on a non-empty batch it returns without raising; an
    object without keys is read with the defaults x = 0, y = 0, r = 8. *)
Theorem unparseable_points_are_empty {L : Library} (spectrum : tensor)
  (notch_points : string) (feather protect_dc : Z) :
  (json_loads notch_points = None \/
   exists v, json_loads notch_points = Some v /\ forall l, v <> JList l) ->
  apply_manual_notch spectrum notch_points feather protect_dc =
    manual_run [] spectrum feather protect_dc /\
  (forall H W C, wf_batch H W C (to_bhwc spectrum) ->
     exists out, apply_manual_notch spectrum notch_points feather protect_dc = Ok out) /\
  point_circles [JDict []] = Ok [(0, 0, 8)].
Proof.
  intros Hbad.
  assert (E : parse_points notch_points = []).
  { unfold parse_points. destruct Hbad as [-> | (v & -> & Hv)]; [reflexivity|].
    destruct v; try reflexivity. exfalso. now apply (Hv l). }
  unfold apply_manual_notch. rewrite E. split; [reflexivity|]. split; [|reflexivity].
  intros H W C Hwf.
  destruct (manual_run_spec [] spectrum H W C feather protect_dc [] Hwf)
    as (out & _ & Hrun & _).
  - reflexivity.
  - constructor.
  - now exists out.
Qed.

Lemma unparseable_points_are_empty_witness :
  json_loads (Library := Ref.library) (Ref.dq "{not json") = None /\
  apply_manual_notch (L := Ref.library) (T4 [Examples.black 1]) (Ref.dq "{not json") 2 0 =
    manual_run [] (T4 [Examples.black 1]) 2 0 /\
  exists out,
    apply_manual_notch (L := Ref.library) (T4 [Examples.black 1]) (Ref.dq "{not json") 2 0 =
      Ok out.
Proof.
  split; [vm_compute; reflexivity|].
  destruct (unparseable_points_are_empty (L := Ref.library) (T4 [Examples.black 1])
              (Ref.dq "{not json") 2 0) as (Heq & Hok & _).
  - left. vm_compute. reflexivity.
  - split; [exact Heq|]. apply (Hok 3 3 1).
    unfold wf_batch. cbn [to_bhwc]. split; [discriminate|].
    split; [repeat constructor; apply black_wf; lia|]. lia.
Defined.

(** C6. In manual mode the mask before feathering is 1.0 on the disk of
    radius protect_dc around (H // 2, W // 2) when protect_dc > 0, and
    elsewhere it is the union of the point circles; with no points and
    protect_dc > 0 the centre disk is still suppressed.  The mask image
    returned for every frame is this mask, feathered. *)
Theorem manual_dc_disk_is_suppressed {L : Library} (points : list json)
  (spectrum : tensor) (H W C feather protect_dc : Z) (circles : list (Z * Z * Z)) :
  wf_batch H W C (to_bhwc spectrum) ->
  point_circles points = Ok circles -> Forall fits_circle circles ->
  (exists out mask0,
      manual_run points spectrum feather protect_dc = Ok out /\
      manual_mask H W circles protect_dc = Ok mask0 /\
      m_mask out =
        map (fun _ => mask_image (feathered mask0 feather)) (to_bhwc spectrum) /\
      forall y x, 0 <= y < H -> 0 <= x < W ->
        get2 mask0 y x F32.zero =
        if (0 <? protect_dc) &&
           ((x - W / 2) ^ 2 + (y - H / 2) ^ 2 <=? protect_dc ^ 2)
        then F32.one
        else if covered circles y x then F32.one else F32.zero) /\
  (exists mask0,
      manual_mask H W [] protect_dc = Ok mask0 /\
      forall y x, 0 <= y < H -> 0 <= x < W ->
        get2 mask0 y x F32.zero =
        if (0 <? protect_dc) &&
           ((x - W / 2) ^ 2 + (y - H / 2) ^ 2 <=? protect_dc ^ 2)
        then F32.one else F32.zero).
Proof.
  intros Hwf Hpc Hfit. pose proof Hwf as (_ & _ & HH & HW & _). split.
  - destruct (manual_run_spec points spectrum H W C feather protect_dc circles
                Hwf Hpc Hfit) as (out & mask0 & Hrun & Hm & _ & _ & Hmask).
    exists out, mask0. split; [assumption|]. split; [assumption|].
    split; [assumption|].
    destruct (draw_circles_spec H W circles (tab2 H W (fun _ _ => F32.zero)))
      as (m0 & Hd & Hr0 & Hg0); [apply rect2_tab2; lia | assumption |].
    destruct (manual_mask_spec H W circles protect_dc m0 ltac:(lia) ltac:(lia))
      as (mask & E & _ & Hget).
    { unfold manual_mask. rewrite zeros_ok by lia. cbn [bind]. rewrite Hd. reflexivity. }
    rewrite E in Hm. inversion Hm; subst mask0.
    intros y x Hy Hx. rewrite Hget, Hg0 by assumption.
    now rewrite get2_tab2 by assumption.
  - destruct (manual_mask_no_points H W protect_dc ltac:(lia) ltac:(lia))
      as (mask & E & _ & Hget).
    now exists mask.
Qed.

Lemma manual_dc_disk_is_suppressed_witness :
  exists out mask0,
    manual_run (L := Ref.library) [] (T4 [Examples.black 1]) 0 1 = Ok out /\
    manual_mask 3 3 [] 1 = Ok mask0 /\
    m_mask out = [mask_image mask0] /\
    get2 mask0 1 1 F32.zero = F32.one /\
    get2 mask0 0 1 F32.zero = F32.one /\
    get2 mask0 0 0 F32.zero = F32.zero.
Proof.
  destruct (manual_dc_disk_is_suppressed (L := Ref.library) [] (T4 [Examples.black 1])
              3 3 1 0 1 []) as ((out & mask0 & Hrun & Hm & Hmask & Hget) & _).
  - unfold wf_batch. cbn [to_bhwc]. split; [discriminate|].
    split; [repeat constructor; apply black_wf; lia|]. lia.
  - reflexivity.
  - constructor.
  - exists out, mask0. split; [assumption|]. split; [assumption|].
    split; [exact Hmask|].
    rewrite !Hget by lia. repeat split; reflexivity.
Defined.

(** C7, as stated, fails on a batch of several frames: the peak detected in
    the second frame is not in the exported list. *)
Lemma exported_peaks_counterexample :
  exists out fo1,
    apply_notch (L := Ref.library) (T4 [Examples.spike 1 0 0; Examples.spike 1 2 2])
      F32.c0_5 2 1 0 0 = Ok out /\
    auto_frame (L := Ref.library) 3 3 F32.c0_5 2 1 0 0 (Examples.spike 1 2 2) = Ok fo1 /\
    fo_peaks fo1 = [(2, 2)] /\
    peak_positions out = Ref.dq "[{'x': 0, 'y': 0, 'r': 1}]".
Proof.
  eexists. eexists. split; [vm_compute; reflexivity|].
  split; [vm_compute; reflexivity|]. split; vm_compute; reflexivity.
Qed.

(** C7 (amended). The peak_positions output is the JSON text of an array
    holding one object {"x": column, "y": row, "r": notch_radius} per peak
    detected in the first frame of the batch, in detection order. *)
Theorem exported_peaks_are_first_frame_peaks {L : Library} (spectrum : tensor)
  (H W C : Z) (threshold_rel : f32)
  (min_distance notch_radius protect_dc feather : Z) :
  wf_batch H W C (to_bhwc spectrum) ->
  exists out gray peaks,
    apply_notch spectrum threshold_rel min_distance notch_radius protect_dc feather
      = Ok out /\
    _to_gray (hd [] (to_bhwc spectrum)) = Ok gray /\
    detect_peaks H W gray threshold_rel min_distance protect_dc = Ok peaks /\
    peak_positions out =
      json_dumps
        (JList (map (fun p => JDict [("x"%string, JInt (snd p));
                                     ("y"%string, JInt (fst p));
                                     ("r"%string, JInt notch_radius)]) peaks)).
Proof.
  intros Hwf.
  destruct (apply_notch_spec spectrum H W C threshold_rel min_distance notch_radius
              protect_dc feather Hwf) as (out & o & rest & E & HF & _ & _ & Hpp).
  destruct Hwf as (Hne & Hall & HH & HW & HC).
  destruct (to_bhwc spectrum) as [|f fs]; [congruence|].
  inversion HF as [|? ? ? ? Ho _]; subst. inversion Hall as [|? ? Hf _]; subst.
  destruct (auto_frame_spec H W C threshold_rel min_distance notch_radius protect_dc
              feather f Hf HH HW HC) as (fo & gray & mask & E' & Eg & _ & Ep & _).
  rewrite E' in Ho. inversion Ho; subst o.
  exists out, gray, (fo_peaks fo). cbn [hd]. auto.
Qed.

Lemma exported_peaks_are_first_frame_peaks_witness :
  exists out gray peaks,
    apply_notch (L := Ref.library) (T4 [Examples.spike 1 0 0; Examples.spike 1 2 2])
      F32.c0_5 2 1 0 0 = Ok out /\
    _to_gray (Examples.spike 1 0 0) = Ok gray /\
    detect_peaks 3 3 gray F32.c0_5 2 0 = Ok peaks /\
    peak_positions out =
      json_dumps (Library := Ref.library)
        (JList (map (fun p => JDict [("x"%string, JInt (snd p));
                                     ("y"%string, JInt (fst p));
                                     ("r"%string, JInt 1)]) peaks)).
Proof.
  apply (exported_peaks_are_first_frame_peaks (L := Ref.library)
           (T4 [Examples.spike 1 0 0; Examples.spike 1 2 2]) 3 3 1 F32.c0_5 2 1 0 0).
  unfold wf_batch. cbn [to_bhwc]. split; [discriminate|].
  split; [repeat constructor; apply spike_wf; lia|]. lia.
Defined.

(** C8, as stated, fails: on a one-channel frame the ring around the centre
    is not tinted at all, and on a colour frame a peak ring drawn afterwards
    overwrites it. *)
Lemma dc_ring_counterexample :
  (0 - 3 / 2) ^ 2 + (1 - 3 / 2) ^ 2 <= (1 + 1) ^ 2 /\
  (1 - 1) ^ 2 < (0 - 3 / 2) ^ 2 + (1 - 3 / 2) ^ 2 /\
  (exists preview,
      _annotate_preview (Examples.black 1) [] 1 1 3 3 = Ok preview /\
      get2 preview 1 0 [] = [F32.zero]) /\
  (exists preview,
      _annotate_preview (Examples.black 3) [(0, 0)] 1 1 3 3 = Ok preview /\
      get2 preview 1 0 [] = [F32.one; F32.c0_9; F32.zero]).
Proof.
  split; [vm_compute; discriminate|]. split; [reflexivity|].
  split; eexists; split; vm_compute; reflexivity.
Qed.

(** C8 (amended). On a frame with at least three channels and with
    dc_r > 0, a pixel of the ring around the centre (squared distance at
    most (dc_r+1)^2 and more than (dc_r-1)^2) that lies on no peak ring has
    its first three channels set to the float32 values of (0.2, 0.5, 1.0). *)
Theorem dc_ring_is_light_blue (frame : list (list (list f32)))
  (peaks : list (Z * Z)) (radius dc_r H W C y x : Z) :
  rect3 H W C frame -> 1 <= H <= 2 ^ 31 -> 1 <= W <= 2 ^ 31 -> 3 <= C ->
  0 < dc_r ->
  Forall fits_peak peaks ->
  0 <= y < H -> 0 <= x < W ->
  (x - W / 2) ^ 2 + (y - H / 2) ^ 2 <= (dc_r + 1) ^ 2 ->
  (dc_r - 1) ^ 2 < (x - W / 2) ^ 2 + (y - H / 2) ^ 2 ->
  Forall (fun p => peak_ring radius p y x = false) peaks ->
  exists preview,
    _annotate_preview frame peaks radius dc_r H W = Ok preview /\
    get3 preview y x 0 F32.zero = F32.c0_2 /\
    get3 preview y x 1 F32.zero = F32.c0_5 /\
    get3 preview y x 2 F32.zero = F32.one.
Proof. apply annotate_preview_dc_ring. Qed.

Lemma dc_ring_is_light_blue_witness :
  exists preview,
    _annotate_preview (Examples.black 3) [] 1 1 3 3 = Ok preview /\
    get3 preview 1 0 0 F32.zero = F32.c0_2 /\
    get3 preview 1 0 1 F32.zero = F32.c0_5 /\
    get3 preview 1 0 2 F32.zero = F32.one.
Proof.
  apply (dc_ring_is_light_blue (Examples.black 3) [] 1 1 3 3 3 1 0).
  - apply black_wf. lia.
  - lia.
  - lia.
  - lia.
  - lia.
  - constructor.
  - lia.
  - lia.
  - vm_compute. discriminate.
  - reflexivity.
  - constructor.
Defined.

(** C9, as stated, fails: the sample 0.25 is encoded as 63 (the integer part
    of 63.75), while rounding gives 64. *)
Lemma preview_encoding_counterexample :
  (exists out,
      apply_manual_notch (L := Ref.library) (T4 [[[[Examples.quarter]]]])
        (Ref.dq "[]") 0 0 = Ok out /\
      pixels (ui_image out) = [[[63; 63; 63]]]) /\
  F32.mul (F32.clip01 Examples.quarter) F32.c255 = F32.of_Z 255 (-2) /\
  F32.nearest (F32.mul (F32.clip01 Examples.quarter) F32.c255) = 64.
Proof.
  split; [eexists; split; vm_compute; reflexivity|].
  split; vm_compute; reflexivity.
Qed.

(** C9 (amended). In the preview exported by the manual node every sample v
    of the first frame is encoded as the 8-bit integer part of
    clip(v, 0, 1) * 255 (the fraction is dropped, not rounded); a one-channel
    frame gives three equal channels, otherwise the first three channels are
    kept. *)
Theorem preview_encoding_truncates {L : Library} (points : list json)
  (spectrum : tensor) (feather protect_dc H W C : Z) (out : manual_out) :
  wf_batch H W C (to_bhwc spectrum) ->
  manual_run points spectrum feather protect_dc = Ok out ->
  _save_temp_image (hd [] (to_bhwc spectrum)) = Ok (ui_image out) /\
  forall y x, 0 <= y < H -> 0 <= x < W ->
    (C = 1 ->
     get2 (pixels (ui_image out)) y x [] =
     [encode_u8 (get4 (to_bhwc spectrum) 0 y x 0 F32.zero);
      encode_u8 (get4 (to_bhwc spectrum) 0 y x 0 F32.zero);
      encode_u8 (get4 (to_bhwc spectrum) 0 y x 0 F32.zero)]) /\
    (C <> 1 ->
     forall k, 0 <= k < Z.min 3 C ->
       get3 (pixels (ui_image out)) y x k 0 =
       encode_u8 (get4 (to_bhwc spectrum) 0 y x k F32.zero)).
Proof.
  intros (Hne & Hall & HH & HW & HC) Hrun.
  pose proof (manual_run_ui_image _ _ _ _ _ Hrun) as Himg.
  split; [assumption|].
  unfold get4. rewrite <- hd_get.
  destruct (hd_rect3 H W C (to_bhwc spectrum) Hne Hall ltac:(lia)) as (_ & _ & Hhd).
  destruct (save_temp_image_spec H W C _ Hhd ltac:(lia) ltac:(lia) HC)
    as (img & E & Hpx).
  rewrite E in Himg. inversion Himg; subst img. exact Hpx.
Qed.

Lemma preview_encoding_truncates_witness :
  encode_u8 Examples.quarter = 63 /\
  exists out,
    manual_run (L := Ref.library) [] (T4 [Examples.spike 1 1 1]) 0 0 = Ok out /\
    get2 (pixels (ui_image out)) 1 1 [] = [255; 255; 255] /\
    get2 (pixels (ui_image out)) 0 0 [] = [0; 0; 0].
Proof.
  split; [vm_compute; reflexivity|].
  assert (Hwf : wf_batch 3 3 1 (to_bhwc (T4 [Examples.spike 1 1 1]))).
  { unfold wf_batch. cbn [to_bhwc]. split; [discriminate|].
    split; [repeat constructor; apply spike_wf; lia|]. lia. }
  destruct (manual_run (L := Ref.library) [] (T4 [Examples.spike 1 1 1]) 0 0)
    as [out|e] eqn:Hrun; [|vm_compute in Hrun; discriminate].
  exists out. split; [reflexivity|].
  destruct (preview_encoding_truncates (L := Ref.library) [] (T4 [Examples.spike 1 1 1])
              0 0 3 3 1 out Hwf Hrun) as (_ & Hpx).
  destruct (Hpx 1 1 ltac:(lia) ltac:(lia)) as (H11 & _).
  destruct (Hpx 0 0 ltac:(lia) ltac:(lia)) as (H00 & _).
  rewrite (H11 eq_refl), (H00 eq_refl). split; vm_compute; reflexivity.
Defined.

(** The first scenario of the specification: one peak, exported as one
    object. *)
Example scenario_single_spike :
  exists out,
    apply_notch (L := Ref.library) (T4 [Examples.frame64]) F32.c0_5 4 3 0 0 = Ok out /\
    peak_positions out = Ref.dq "[{'x': 10, 'y': 10, 'r': 3}]".
Proof. eexists. split; vm_compute; reflexivity. Qed.

(** * Part IV: further properties of the code *)

(** * Exact products *)

Lemma digits2_shift (m : positive) :
  Zpos (digits2_pos (Pos.iter xO m 23)) = Zpos (digits2_pos m) + 23.
Proof. cbn [Pos.iter digits2_pos]. rewrite !Pos2Z.inj_succ. lia. Qed.

Lemma round_exact (s : bool) (m : positive) (e : Z) :
  bounded F32.prec F32.emax m e = true ->
  binary_round_aux F32.prec F32.emax s (Zpos (Pos.iter xO m 23)) (e + -23) loc_Exact =
  S754_finite s m e.
Proof.
  unfold bounded, canonical_mantissa. intros Hb.
  apply andb_true_iff in Hb. destruct Hb as [Hc He].
  apply Z.eqb_eq in Hc.
  unfold binary_round_aux, shr_fexp.
  unfold Zdigits2 at 1. rewrite digits2_shift.
  replace (Zpos (digits2_pos m) + 23 + (e + -23)) with (Zpos (digits2_pos m) + e) by lia.
  rewrite Hc. replace (e - (e + -23)) with 23 by lia.
  cbn [shr shr_record_of_loc iter_pos Pos.iter shr_1 orb shr_m loc_of_shr_record
       round_nearest_even].
  replace (e + -23 + 23) with e by lia.
  unfold Zdigits2. rewrite Hc, Z.sub_diag. cbn [shr shr_m].
  now rewrite He.
Qed.

(** Multiplying a float32 by 1.0 returns it, bit for bit. *)
Lemma mul_one_r (v : f32) : is_f32 v -> F32.mul v F32.one = v.
Proof.
  unfold is_f32, F32.mul, F32.one. destruct v as [s| s| |s m e]; cbn [valid_binary SFmul];
    intros Hv; try reflexivity; try (now rewrite xorb_false_r).
  rewrite xorb_false_r, Pos.mul_comm.
  change (8388608 * m)%positive with (Pos.iter xO m 23).
  now apply round_exact.
Qed.

Lemma mul_one_l (v : f32) : is_f32 v -> F32.mul F32.one v = v.
Proof.
  unfold is_f32, F32.mul, F32.one. destruct v as [s| s| |s m e]; cbn [valid_binary SFmul];
    intros Hv; try reflexivity.
  cbn [xorb]. change (8388608 * m)%positive with (Pos.iter xO m 23).
  rewrite Z.add_comm. now apply round_exact.
Qed.

Lemma sub_one_zero : F32.sub F32.one F32.zero = F32.one.
Proof. reflexivity. Qed.

Lemma sub_one_one : F32.sub F32.one F32.one = F32.zero.
Proof. vm_compute. reflexivity. Qed.

Lemma mul_zero_r (v : f32) :
  F32.is_finite v = true -> F32.is_zero (F32.mul v F32.zero) = true.
Proof. destruct v; try discriminate; reflexivity. Qed.

(** * Maps over arrays *)

Lemma mapi_from_ext {A B : Type} (f g : Z -> A -> B) (l : list A) (i : Z) :
  (forall j a, f j a = g j a) -> mapi_from i f l = mapi_from i g l.
Proof.
  intros Hfg. revert i. induction l as [|a l IH]; intros i; cbn; [reflexivity|].
  now rewrite Hfg, IH.
Qed.

Lemma mapi_from_comp {A B C : Type} (f : Z -> A -> B) (g : Z -> B -> C)
  (l : list A) (i : Z) :
  mapi_from i g (mapi_from i f l) = mapi_from i (fun j a => g j (f j a)) l.
Proof.
  revert i. induction l as [|a l IH]; intros i; cbn; [reflexivity|]. now rewrite IH.
Qed.

Lemma mapi_from_id {A : Type} (l : list A) (i : Z) : mapi_from i (fun _ a => a) l = l.
Proof.
  revert i. induction l as [|a l IH]; intros i; cbn; [reflexivity|]. now rewrite IH.
Qed.

Lemma mapi2_ext {A B : Type} (f g : Z -> Z -> A -> B) (a : list (list A)) :
  (forall y x v, f y x v = g y x v) -> mapi2 f a = mapi2 g a.
Proof.
  intros Hfg. unfold mapi2, mapi. apply mapi_from_ext. intros y row.
  apply mapi_from_ext. intros x v. apply Hfg.
Qed.

Lemma mapi2_comp {A B C : Type} (f : Z -> Z -> A -> B) (g : Z -> Z -> B -> C)
  (a : list (list A)) :
  mapi2 g (mapi2 f a) = mapi2 (fun y x v => g y x (f y x v)) a.
Proof.
  unfold mapi2, mapi. rewrite mapi_from_comp. apply mapi_from_ext. intros y row.
  apply mapi_from_comp.
Qed.

Lemma mapi2_id {A : Type} (a : list (list A)) : mapi2 (fun _ _ v => v) a = a.
Proof.
  unfold mapi2, mapi. rewrite <- (mapi_from_id a 0) at 2.
  apply mapi_from_ext. intros y row. apply mapi_from_id.
Qed.

(** * The circles of a mask, in closed form *)

(** The loop over the circles sets the pixels that one of the circles covers,
    unless a centre does not fit in int64. *)
Lemma draw_circles_closed (circles : list (Z * Z * Z)) (mask : list (list f32)) :
  draw_circles circles mask =
  if forallb (fun c => I64.fits (snd (fst c)) && I64.fits (fst (fst c))) circles
  then Ok (assign_where (covered circles) F32.one mask)
  else Raise OverflowError.
Proof.
  revert mask. induction circles as [|[[r c] rad] rest IH]; intros mask.
  - cbn [draw_circles forallb]. unfold assign_where, covered. cbn [existsb].
    now rewrite mapi2_id.
  - cbn [draw_circles forallb fst snd]. unfold draw_circle, to_i64.
    destruct (I64.fits c); cbn [bind andb]; [|reflexivity].
    destruct (I64.fits r); cbn [bind andb]; [|reflexivity].
    rewrite IH. destruct (forallb _ rest); [|reflexivity].
    f_equal. unfold assign_where. rewrite mapi2_comp. apply mapi2_ext.
    intros y x v. unfold covered. cbn [existsb fst snd].
    destruct (in_disk r c rad y x); cbn [orb]; [|reflexivity].
    now destruct (existsb _ rest).
Qed.

Lemma in_disk_neg (r c rad y x : Z) : in_disk r c (- rad) y x = in_disk r c rad y x.
Proof.
  unfold in_disk. replace ((- rad) ^ 2) with (rad ^ 2) by nia. reflexivity.
Qed.

Lemma forallb_map {A B : Type} (f : B -> bool) (g : A -> B) (l : list A) :
  forallb f (map g l) = forallb (fun a => f (g a)) l.
Proof. induction l as [|a l IH]; cbn; [reflexivity | now rewrite IH]. Qed.

(** * Masks: what the circles contribute *)

Lemma manual_mask_closed (H W : Z) (circles : list (Z * Z * Z)) (pdc : Z) :
  manual_mask H W circles pdc =
  if (H <? 0) || (W <? 0) then Raise ValueError
  else if forallb (fun c => I64.fits (snd (fst c)) && I64.fits (fst (fst c))) circles
  then Ok (assign_where
             (fun y x => covered circles y x ||
                         ((0 <? pdc) && in_disk (H / 2) (W / 2) pdc y x))
             F32.one (tab2 H W (fun _ _ => F32.zero)))
  else Raise OverflowError.
Proof.
  unfold manual_mask, zeros. destruct ((H <? 0) || (W <? 0)); [reflexivity|].
  cbn [bind]. rewrite draw_circles_closed.
  destruct (forallb _ circles); [|reflexivity]. cbn [bind]. f_equal.
  unfold assign_where. destruct (0 <? pdc); cbn [andb].
  - rewrite mapi2_comp. apply mapi2_ext. intros y x v.
    destruct (covered circles y x), (in_disk (H / 2) (W / 2) pdc y x); reflexivity.
  - apply mapi2_ext. intros y x v. now rewrite orb_false_r.
Qed.

Lemma build_mask_closed {L : Library} (H W : Z) (peaks : list (Z * Z))
  (radius feather : Z) :
  _build_circular_mask H W peaks radius feather =
  if (H <? 0) || (W <? 0) then Raise ValueError
  else if forallb (fun p => I64.fits (snd p) && I64.fits (fst p)) peaks
  then Ok (feathered
             (assign_where (covered (map (fun p => (fst p, snd p, radius)) peaks))
                F32.one (tab2 H W (fun _ _ => F32.zero))) feather)
  else Raise OverflowError.
Proof.
  unfold _build_circular_mask, zeros. destruct ((H <? 0) || (W <? 0)); [reflexivity|].
  cbn [bind]. rewrite draw_circles_closed, forallb_map. cbn [fst snd].
  now destruct (forallb _ peaks).
Qed.

Lemma forallb_same_set {A : Type} (f : A -> bool) (l l' : list A) :
  (forall a, In a l <-> In a l') -> forallb f l = forallb f l'.
Proof.
  intros Hset. apply eq_true_iff_eq. rewrite !forallb_forall.
  split; intros Hall a Ha; apply Hall, Hset, Ha.
Qed.

Lemma existsb_same_set {A : Type} (f : A -> bool) (l l' : list A) :
  (forall a, In a l <-> In a l') -> existsb f l = existsb f l'.
Proof.
  intros Hset. apply eq_true_iff_eq. rewrite !existsb_exists.
  split; intros (a & Ha & Hf); exists a; split; try assumption; apply Hset, Ha.
Qed.

(** X1. The mask depends on the circles as a set only. *)
Theorem mask_ignores_order_and_repeats {L : Library} (H W : Z)
  (circles circles' : list (Z * Z * Z)) (protect_dc : Z)
  (peaks peaks' : list (Z * Z)) (radius feather : Z) :
  (forall c, In c circles <-> In c circles') ->
  (forall p, In p peaks <-> In p peaks') ->
  manual_mask H W circles protect_dc = manual_mask H W circles' protect_dc /\
  _build_circular_mask H W peaks radius feather =
  _build_circular_mask H W peaks' radius feather.
Proof.
  intros Hc Hp. split.
  - rewrite !manual_mask_closed.
    rewrite (forallb_same_set _ circles circles' Hc).
    destruct ((H <? 0) || (W <? 0)); [reflexivity|].
    destruct (forallb _ circles'); [|reflexivity]. f_equal.
    unfold assign_where. apply mapi2_ext. intros y x v.
    unfold covered. now rewrite (existsb_same_set _ circles circles' Hc).
  - rewrite !build_mask_closed.
    rewrite (forallb_same_set _ peaks peaks' Hp).
    destruct ((H <? 0) || (W <? 0)); [reflexivity|].
    destruct (forallb _ peaks'); [|reflexivity]. do 2 f_equal.
    unfold assign_where. apply mapi2_ext. intros y x v.
    unfold covered. rewrite !existsb_map.
    now rewrite (existsb_same_set _ peaks peaks' Hp).
Qed.

Lemma mask_ignores_order_and_repeats_witness :
  (forall c, In c [(0, 0, 1); (2, 2, 0)] <-> In c [(2, 2, 0); (0, 0, 1); (2, 2, 0)]) /\
  (forall p, In p [(0, 0); (2, 2)] <-> In p [(2, 2); (0, 0); (2, 2)]) /\
  manual_mask 3 3 [(0, 0, 1); (2, 2, 0)] 1 =
  manual_mask 3 3 [(2, 2, 0); (0, 0, 1); (2, 2, 0)] 1 /\
  _build_circular_mask 3 3 [(0, 0); (2, 2)] 1 0 =
  _build_circular_mask 3 3 [(2, 2); (0, 0); (2, 2)] 1 0.
Proof.
  assert (H1 : forall c : Z * Z * Z,
             In c [(0, 0, 1); (2, 2, 0)] <-> In c [(2, 2, 0); (0, 0, 1); (2, 2, 0)]).
  { intros c. cbn [In]. tauto. }
  assert (H2 : forall p : Z * Z,
             In p [(0, 0); (2, 2)] <-> In p [(2, 2); (0, 0); (2, 2)]).
  { intros p. cbn [In]. tauto. }
  split; [exact H1|]. split; [exact H2|].
  exact (mask_ignores_order_and_repeats 3 3 _ _ 1 _ _ 1 0 H1 H2).
Defined.

(** X2. A negative radius draws the circle of its absolute value. *)
Theorem negative_radius_draws_the_same_circle {L : Library} (H W : Z)
  (peaks : list (Z * Z)) (radius feather : Z) (circles : list (Z * Z * Z))
  (protect_dc : Z) :
  _build_circular_mask H W peaks (- radius) feather =
  _build_circular_mask H W peaks radius feather /\
  manual_mask H W (map (fun c => (fst c, - snd c)) circles) protect_dc =
  manual_mask H W circles protect_dc.
Proof.
  split.
  - rewrite !build_mask_closed.
    destruct ((H <? 0) || (W <? 0)); [reflexivity|].
    destruct (forallb _ peaks); [|reflexivity]. do 2 f_equal.
    unfold assign_where. apply mapi2_ext. intros y x v.
    unfold covered. rewrite !existsb_map. cbn [fst snd].
    f_equal. erewrite existsb_ext_in; [reflexivity|].
    intros p _. apply in_disk_neg.
  - rewrite !manual_mask_closed. rewrite forallb_map. cbn [fst snd].
    destruct ((H <? 0) || (W <? 0)); [reflexivity|].
    destruct (forallb _ circles); [|reflexivity]. f_equal.
    unfold assign_where. apply mapi2_ext. intros y x v.
    unfold covered. rewrite existsb_map. cbn [fst snd].
    erewrite existsb_ext_in; [reflexivity|].
    intros c _. apply in_disk_neg.
Qed.

(** * Hard masks: a sample is blocked or passes unchanged *)

Lemma feathered_off {L : Library} (mask : list (list f32)) (feather : Z) :
  feather <= 0 -> feathered mask feather = mask.
Proof.
  intros Hf. unfold feathered. destruct (0 <? feather) eqn:E; [|reflexivity].
  apply Z.ltb_lt in E. lia.
Qed.

Lemma get2_hard_mask (H W : Z) (cond : Z -> Z -> bool) (y x : Z) :
  0 <= y < H -> 0 <= x < W ->
  get2 (assign_where cond F32.one (tab2 H W (fun _ _ => F32.zero))) y x F32.zero =
  if cond y x then F32.one else F32.zero.
Proof.
  intros Hy Hx.
  rewrite (get2_assign_where H W) by (try apply rect2_tab2; lia).
  now rewrite get2_tab2.
Qed.

Lemma rect2_hard_mask (H W : Z) (cond : Z -> Z -> bool) :
  0 <= H -> 0 <= W ->
  rect2 H W (assign_where cond F32.one (tab2 H W (fun _ _ => F32.zero))).
Proof.
  intros HH HW. unfold assign_where. apply rect2_mapi2. now apply rect2_tab2.
Qed.

(** The product [v * (1 - m)] for the two values of a hard mask. *)
Lemma blocked_or_passed (v : f32) (inside : bool) :
  let w := F32.mul v (F32.sub F32.one (if inside then F32.one else F32.zero)) in
  (inside = true -> F32.is_finite v = true -> F32.is_zero w = true) /\
  (inside = false -> is_f32 v -> w = v).
Proof.
  cbv zeta. destruct inside; split; try discriminate; intros _ Hv.
  - rewrite sub_one_one. now apply mul_zero_r.
  - rewrite sub_one_zero. now apply mul_one_r.
Qed.

Lemma manual_run_hard {L : Library} (points : list json) (spectrum : tensor)
  (H W C feather pdc : Z) (circles : list (Z * Z * Z)) (out : manual_out) :
  wf_batch H W C (to_bhwc spectrum) ->
  feather <= 0 ->
  point_circles points = Ok circles ->
  manual_run points spectrum feather pdc = Ok out ->
  let mask := assign_where
                (fun y x => covered circles y x ||
                            ((0 <? pdc) && in_disk (H / 2) (W / 2) pdc y x))
                F32.one (tab2 H W (fun _ _ => F32.zero)) in
  m_filtered out = map (fun frame => apply_mask frame mask) (to_bhwc spectrum) /\
  m_mask out = map (fun _ => mask_image mask) (to_bhwc spectrum).
Proof.
  intros Hwf Hf Hpc Hrun. cbv zeta.
  assert (Hne : to_bhwc spectrum <> []) by now destruct Hwf.
  pose proof (point_circles_fits _ _ _ _ _ _ Hne Hpc Hrun) as Hfit.
  destruct (manual_run_spec points spectrum H W C feather pdc circles Hwf Hpc Hfit)
    as (out' & mask0 & E & Em & _ & Efil & Emask).
  rewrite E in Hrun. inversion Hrun; subst out'. clear Hrun.
  rewrite manual_mask_closed in Em.
  destruct Hwf as (_ & _ & HH & HW & _).
  destruct ((H <? 0) || (W <? 0)); [discriminate|].
  destruct (forallb _ circles); [|discriminate].
  inversion Em; subst mask0. rewrite feathered_off in Efil, Emask by assumption.
  now split.
Qed.

(** X3. Manual node, feather = 0: inside a circle or the DC disk the mask is
    1.0 and a finite sample becomes a zero; elsewhere the mask is 0.0 and the
    sample is returned bit for bit. *)
Theorem manual_hard_mask_blocks_or_passes {L : Library} (points : list json)
  (spectrum : tensor) (H W C feather protect_dc : Z) (circles : list (Z * Z * Z))
  (out : manual_out) (b y x k : Z) :
  wf_batch H W C (to_bhwc spectrum) ->
  feather <= 0 ->
  point_circles points = Ok circles ->
  manual_run points spectrum feather protect_dc = Ok out ->
  0 <= b < len (to_bhwc spectrum) -> 0 <= y < H -> 0 <= x < W -> 0 <= k < C ->
  let v := get4 (to_bhwc spectrum) b y x k F32.zero in
  let w := get4 (m_filtered out) b y x k F32.zero in
  let inside :=
    covered circles y x ||
    ((0 <? protect_dc) && ((x - W / 2) ^ 2 + (y - H / 2) ^ 2 <=? protect_dc ^ 2)) in
  (inside = true ->
   get4 (m_mask out) b y x 0 F32.zero = F32.one /\
   (F32.is_finite v = true -> F32.is_zero w = true)) /\
  (inside = false ->
   get4 (m_mask out) b y x 0 F32.zero = F32.zero /\ (is_f32 v -> w = v)).
Proof.
  intros Hwf Hf Hpc Hrun Hb Hy Hx Hk. cbv zeta.
  destruct (manual_run_hard points spectrum H W C feather protect_dc circles out
              Hwf Hf Hpc Hrun) as (Efil & Emask).
  destruct Hwf as (_ & Hall & HH & HW & HC).
  assert (Hframe : rect3 H W C (get (to_bhwc spectrum) b [])).
  { rewrite Forall_forall in Hall. apply Hall, get_In. exact Hb. }
  assert (Hdc : in_disk (H / 2) (W / 2) protect_dc y x =
                ((x - W / 2) ^ 2 + (y - H / 2) ^ 2 <=? protect_dc ^ 2)).
  { pose proof (half_range H ltac:(lia)). pose proof (half_range W ltac:(lia)).
    apply in_disk_exact; lia. }
  unfold get4. rewrite Efil, Emask.
  set (mask := assign_where _ F32.one _).
  rewrite (get_map (fun frame => apply_mask frame mask) _ b [] []) by exact Hb.
  rewrite (get_map (fun _ : list (list (list f32)) => mask_image mask) _ b [] [])
    by exact Hb.
  subst mask.
  rewrite (get3_mask_image H W) by (try apply rect2_hard_mask; lia).
  rewrite (get3_apply_mask H W C) by (try apply rect2_hard_mask; try assumption; lia).
  rewrite get2_hard_mask by assumption. rewrite Hdc.
  set (inside := covered circles y x || _).
  destruct (blocked_or_passed (get3 (get (to_bhwc spectrum) b []) y x k F32.zero) inside)
    as (Hin & Hout).
  split; intros Ei; rewrite Ei in *; split; auto.
Qed.

Lemma manual_hard_mask_blocks_or_passes_witness :
  (get4 (to_bhwc (T4 [Examples.spike 1 1 1])) 0 1 1 0 F32.zero = F32.one /\
   exists out,
     manual_run (L := Ref.library) [JDict [("x"%string, JInt 1); ("y"%string, JInt 1);
                                           ("r"%string, JInt 0)]]
       (T4 [Examples.spike 1 1 1]) 0 0 = Ok out /\
     get4 (m_mask out) 0 1 1 0 F32.zero = F32.one /\
     F32.is_zero (get4 (m_filtered out) 0 1 1 0 F32.zero) = true).
Proof.
  split; [reflexivity|]. eexists. split; [vm_compute; reflexivity|].
  refine ((fun X => conj (proj1 X) (proj2 X eq_refl))
            (proj1 (manual_hard_mask_blocks_or_passes (L := Ref.library)
               [JDict [("x"%string, JInt 1); ("y"%string, JInt 1); ("r"%string, JInt 0)]]
               (T4 [Examples.spike 1 1 1]) 3 3 1 0 0 [(1, 1, 0)] _ 0 1 1 0
               _ _ _ _ _ _ _ _) _)).
  - repeat split; try discriminate; try lia; repeat constructor.
  - lia.
  - vm_compute. reflexivity.
  - vm_compute. reflexivity.
  - vm_compute. split; [discriminate | reflexivity].
  - lia.
  - lia.
  - lia.
  - vm_compute. reflexivity.
Defined.

Lemma in_image_fits (H W : Z) (p : Z * Z) :
  H <= 2 ^ 31 -> W <= 2 ^ 31 -> in_image H W p ->
  I64.fits (snd p) && I64.fits (fst p) = true.
Proof.
  intros HH HW [Hr Hc]. assert (2 ^ 31 < 2 ^ 63) by reflexivity.
  unfold I64.fits. rewrite !andb_true_iff, !Z.leb_le, !Z.ltb_lt. lia.
Qed.

Lemma auto_frame_hard {L : Library} (H W C : Z) (threshold_rel : f32)
  (min_distance notch_radius protect_dc feather : Z)
  (frame : list (list (list f32))) (fo : frame_out) (y x k : Z) :
  rect3 H W C frame -> 1 <= H <= 2 ^ 31 -> 1 <= W <= 2 ^ 31 -> 1 <= C ->
  feather <= 0 ->
  auto_frame H W threshold_rel min_distance notch_radius protect_dc feather frame = Ok fo ->
  0 <= y < H -> 0 <= x < W -> 0 <= k < C ->
  let v := get3 frame y x k F32.zero in
  let w := get3 (fo_filtered fo) y x k F32.zero in
  let near :=
    existsb (fun p => (x - snd p) ^ 2 + (y - fst p) ^ 2 <=? notch_radius ^ 2)
            (fo_peaks fo) in
  (near = true ->
   get3 (fo_mask fo) y x 0 F32.zero = F32.one /\
   (F32.is_finite v = true -> F32.is_zero w = true)) /\
  (near = false ->
   get3 (fo_mask fo) y x 0 F32.zero = F32.zero /\ (is_f32 v -> w = v)).
Proof.
  intros Hrect HH HW HC Hf Hrun Hy Hx Hk. cbv zeta.
  destruct (auto_frame_spec H W C threshold_rel min_distance notch_radius protect_dc
              feather frame Hrect HH HW HC)
    as (fo' & gray & mask & E & _ & Hgr & Ep & Em & _ & Efil & Emask).
  rewrite E in Hrun. inversion Hrun; subst fo'. clear Hrun.
  destruct (detect_peaks_ok H W gray threshold_rel min_distance protect_dc Hgr
              ltac:(lia) ltac:(lia)) as (peaks & Ep' & Hin).
  rewrite Ep in Ep'. inversion Ep' as [Epk]. rewrite <- Epk in Hin. clear Ep' Epk peaks.
  rewrite build_mask_closed in Em.
  destruct ((H <? 0) || (W <? 0)) eqn:Eneg.
  { apply orb_true_iff in Eneg. rewrite !Z.ltb_lt in Eneg. lia. }
  assert (Hfits : forallb (fun p => I64.fits (snd p) && I64.fits (fst p)) (fo_peaks fo)
                  = true).
  { apply forallb_forall. intros p Hp. rewrite Forall_forall in Hin.
    apply (in_image_fits H W); try lia. now apply Hin. }
  rewrite Hfits in Em. inversion Em as [Emk]. clear Em.
  rewrite feathered_off in Emk by assumption.
  assert (Hcov : covered (map (fun p => (fst p, snd p, notch_radius)) (fo_peaks fo)) y x =
                 existsb (fun p => (x - snd p) ^ 2 + (y - fst p) ^ 2 <=? notch_radius ^ 2)
                         (fo_peaks fo)).
  { unfold covered. rewrite existsb_map. cbn [fst snd]. apply existsb_ext_in.
    intros p Hp. rewrite Forall_forall in Hin. destruct (Hin p Hp) as [Hr Hc].
    apply in_disk_exact; lia. }
  rewrite Efil, Emask, <- Emk.
  rewrite (get3_mask_image H W) by (try apply rect2_hard_mask; lia).
  rewrite (get3_apply_mask H W C) by (try apply rect2_hard_mask; try assumption; lia).
  rewrite get2_hard_mask by assumption. rewrite Hcov.
  set (near := existsb _ (fo_peaks fo)).
  destruct (blocked_or_passed (get3 frame y x k F32.zero) near) as (Hi & Ho).
  split; intros Ei; rewrite Ei in *; split; auto.
Qed.

(** X4. Automatic node, feather = 0: a finite sample within [notch_radius]
    of a detected peak becomes a zero, every other sample is returned bit
    for bit. *)
Theorem auto_hard_mask_blocks_or_passes {L : Library} (H W C : Z) (threshold_rel : f32)
  (min_distance notch_radius protect_dc feather : Z)
  (frame : list (list (list f32))) (fo : frame_out) (y x k : Z) :
  rect3 H W C frame -> 1 <= H <= 2 ^ 31 -> 1 <= W <= 2 ^ 31 -> 1 <= C ->
  feather <= 0 ->
  auto_frame H W threshold_rel min_distance notch_radius protect_dc feather frame = Ok fo ->
  0 <= y < H -> 0 <= x < W -> 0 <= k < C ->
  let v := get3 frame y x k F32.zero in
  let w := get3 (fo_filtered fo) y x k F32.zero in
  let near :=
    existsb (fun p => (x - snd p) ^ 2 + (y - fst p) ^ 2 <=? notch_radius ^ 2)
            (fo_peaks fo) in
  (near = true ->
   get3 (fo_mask fo) y x 0 F32.zero = F32.one /\
   (F32.is_finite v = true -> F32.is_zero w = true)) /\
  (near = false ->
   get3 (fo_mask fo) y x 0 F32.zero = F32.zero /\ (is_f32 v -> w = v)).
Proof.
  intros Hrect HH HW HC Hf Hrun Hy Hx Hk.
  exact (auto_frame_hard H W C threshold_rel min_distance notch_radius protect_dc
           feather frame fo y x k Hrect HH HW HC Hf Hrun Hy Hx Hk).
Qed.

Lemma auto_hard_mask_blocks_or_passes_witness :
  fo_peaks Examples.spike_out = [(1, 1)] /\
  get3 (Examples.spike 1 1 1) 1 1 0 F32.zero = F32.one /\
  get3 (fo_mask Examples.spike_out) 1 1 0 F32.zero = F32.one /\
  F32.is_zero (get3 (fo_filtered Examples.spike_out) 1 1 0 F32.zero) = true.
Proof.
  split; [reflexivity|]. split; [reflexivity|].
  refine ((fun X => conj (proj1 X) (proj2 X eq_refl))
            (proj1 (auto_hard_mask_blocks_or_passes (L := Ref.library) 3 3 1 F32.c0_5
               2 1 0 0 (Examples.spike 1 1 1) Examples.spike_out 1 1 0
               _ _ _ _ _ _ _ _ _) _)).
  - apply spike_wf; lia.
  - lia.
  - lia.
  - lia.
  - lia.
  - vm_compute. reflexivity.
  - lia.
  - lia.
  - lia.
  - vm_compute. reflexivity.
Defined.

(** * No point, no change *)

Lemma zip_with_repeat {A B : Type} (f : A -> B -> A) (l : list A) (c : B) (n : nat) :
  List.length l = n -> zip_with f l (repeat c n) = map (fun a => f a c) l.
Proof.
  revert n. induction l as [|a l IH]; intros n Hn; subst n; cbn; [reflexivity|].
  now rewrite IH.
Qed.

Lemma tab_const {A : Type} (n : Z) (c : A) : tab n (fun _ => c) = repeat c (Z.to_nat n).
Proof.
  unfold tab. generalize (Z.to_nat n) as k. generalize 0%nat as s.
  intros s k. revert s. induction k as [|k IH]; intros s; cbn; [reflexivity|].
  now rewrite IH.
Qed.

Lemma map_id_on {A : Type} (P : A -> Prop) (f : A -> A) (l : list A) :
  (forall a, P a -> f a = a) -> Forall P l -> map f l = l.
Proof.
  intros Hf Hl. induction Hl as [|a l Ha Hl IH]; cbn; [reflexivity|].
  now rewrite Hf, IH.
Qed.

Lemma apply_mask_zeros (H W C : Z) (frame : list (list (list f32))) :
  rect3 H W C frame -> Forall (Forall (Forall is_f32)) frame ->
  apply_mask frame (tab2 H W (fun _ _ => F32.zero)) = frame.
Proof.
  intros (Hlen & Hrows) Hv. unfold apply_mask, tab2.
  rewrite (tab_const W F32.zero), tab_const.
  rewrite zip_with_repeat by (unfold len in Hlen; lia).
  apply (map_id_on (fun row => len row = W /\ Forall (Forall is_f32) row)).
  - intros row (Hw & Hrow).
    rewrite zip_with_repeat by (unfold len in Hw; lia).
    apply (map_id_on (Forall is_f32)); [|exact Hrow].
    intros px Hpx. apply (map_id_on is_f32); [|exact Hpx].
    intros v Hvv. rewrite sub_one_zero. now apply mul_one_r.
  - rewrite Forall_forall in *. intros row Hin. split.
    + now destruct (Hrows row Hin).
    + now apply Hv.
Qed.

(** X5. With no point, no DC protection and no feathering the manual node
    returns its input, and an all-zero mask. *)
Theorem manual_without_points_returns_input {L : Library} (spectrum : tensor)
  (H W C feather protect_dc : Z) :
  wf_batch H W C (to_bhwc spectrum) ->
  Forall (Forall (Forall (Forall is_f32))) (to_bhwc spectrum) ->
  feather <= 0 -> protect_dc <= 0 ->
  exists out,
    manual_run [] spectrum feather protect_dc = Ok out /\
    m_filtered out = to_bhwc spectrum /\
    m_mask out =
      map (fun _ => tab2 H W (fun _ _ => [F32.zero; F32.zero; F32.zero]))
          (to_bhwc spectrum).
Proof.
  intros Hwf Hv Hf Hp.
  destruct (manual_run_spec [] spectrum H W C feather protect_dc [] Hwf eq_refl
              (Forall_nil _)) as (out & mask0 & E & _).
  exists out. split; [exact E|].
  destruct (manual_run_hard [] spectrum H W C feather protect_dc [] out Hwf Hf
              eq_refl E) as (Efil & Emask).
  assert (Hz : assign_where
                 (fun y x => covered [] y x ||
                             ((0 <? protect_dc) && in_disk (H / 2) (W / 2) protect_dc y x))
                 F32.one (tab2 H W (fun _ _ => F32.zero)) =
               tab2 H W (fun _ _ => F32.zero)).
  { unfold assign_where. rewrite <- (mapi2_id (tab2 H W _)) at 2.
    apply mapi2_ext. intros y x v. unfold covered. cbn [existsb orb].
    destruct (0 <? protect_dc) eqn:Ep; [|reflexivity]. apply Z.ltb_lt in Ep. lia. }
  rewrite Hz in Efil, Emask. rewrite Efil, Emask. clear Efil Emask Hz.
  destruct Hwf as (_ & Hall & _). split.
  - apply (map_id_on (fun frame => rect3 H W C frame /\
                                   Forall (Forall (Forall is_f32)) frame)).
    + intros frame (Hr & Hfv). now apply (apply_mask_zeros H W C).
    + rewrite Forall_forall in *. intros frame Hin. split; auto.
  - apply map_ext. intros _. unfold mask_image, tab2, tab.
    rewrite map_map. apply map_ext. intros i. now rewrite map_map.
Qed.

Lemma manual_without_points_returns_input_witness :
  exists out,
    manual_run (L := Ref.library) [] (T4 [Examples.spike 1 1 1]) 0 0 = Ok out /\
    m_filtered out = to_bhwc (T4 [Examples.spike 1 1 1]) /\
    m_mask out =
      map (fun _ => tab2 3 3 (fun _ _ => [F32.zero; F32.zero; F32.zero]))
          (to_bhwc (T4 [Examples.spike 1 1 1])).
Proof.
  apply (manual_without_points_returns_input (L := Ref.library)
           (T4 [Examples.spike 1 1 1]) 3 3 1 0 0).
  - repeat split; try discriminate; try lia; repeat constructor.
  - repeat constructor.
  - lia.
  - lia.
Defined.

(** * A NaN in the frame *)

Lemma np_maximum_nan_l (a b : f32) :
  F32.is_nan a = true -> F32.is_nan (F32.np_maximum a b) = true.
Proof. intros Ha. unfold F32.np_maximum. now rewrite Ha. Qed.

Lemma np_maximum_nan_r (a b : f32) :
  F32.is_nan b = true -> F32.is_nan (F32.np_maximum a b) = true.
Proof.
  intros Hb. unfold F32.np_maximum. destruct (F32.is_nan a) eqn:Ea; [exact Ea|].
  destruct b; try discriminate. now destruct a.
Qed.

Lemma fold_np_maximum_nan (l : list f32) (x : f32) :
  F32.is_nan x = true \/ Exists (fun v => F32.is_nan v = true) l ->
  F32.is_nan (fold_left F32.np_maximum l x) = true.
Proof.
  revert x. induction l as [|b l IH]; intros x [Hx|Hl]; cbn [fold_left].
  - exact Hx.
  - inversion Hl.
  - apply IH. left. now apply np_maximum_nan_l.
  - apply IH. inversion Hl as [? ? Hb|? ? Hl']; subst.
    + left. now apply np_maximum_nan_r.
    + now right.
Qed.

Lemma Exists_concat {A : Type} (P : A -> Prop) (a : list (list A)) :
  Exists (Exists P) a -> Exists P (List.concat a).
Proof.
  induction 1 as [row a Hrow|row a _ IH]; cbn [List.concat]; apply Exists_app; auto.
Qed.

Lemma amax_nan (gray : list (list f32)) :
  Exists (Exists (fun v => F32.is_nan v = true)) gray ->
  exists g, amax gray = Ok g /\ F32.is_nan g = true.
Proof.
  intros Hn. apply Exists_concat in Hn. unfold amax.
  destruct (List.concat gray) as [|x l]; [inversion Hn|].
  eexists. split; [reflexivity|]. apply fold_np_maximum_nan.
  inversion Hn; subst; auto.
Qed.

Lemma concat_mapi_nil {A B : Type} (l : list A) (i : Z) :
  List.concat (mapi_from i (fun _ _ => @nil B) l) = [].
Proof. revert i. induction l as [|a l IH]; intros i; cbn; auto. Qed.

Lemma argwhere_none {A : Type} (a : list (list A)) :
  argwhere (mapi2 (fun _ _ _ => false) a) = [].
Proof.
  unfold argwhere, mapi2, mapi. rewrite mapi_from_comp.
  erewrite mapi_from_ext; [apply concat_mapi_nil|].
  intros y row. cbv beta. rewrite mapi_from_comp. apply concat_mapi_nil.
Qed.

Lemma detect_peaks_nan (H W : Z) (gray : list (list f32)) (thr : f32) (md pdc : Z) :
  Exists (Exists (fun v => F32.is_nan v = true)) gray ->
  detect_peaks H W gray thr md pdc = Ok [].
Proof.
  intros Hn. unfold detect_peaks.
  destruct (amax_nan gray Hn) as (g & -> & Hg). cbn [bind]. f_equal.
  destruct g; try discriminate.
  assert (Et : F32.mul thr S754_nan = S754_nan) by now destruct thr.
  rewrite Et.
  assert (El : mapi2 (fun (y x : Z) (v : f32) =>
                        F32.eqb v (get2 (maximum_filter gray (Z.max 3 (md * 2 + 1))) y x
                                        F32.zero) && F32.leb S754_nan v) gray =
               mapi2 (fun _ _ _ => false) gray).
  { apply mapi2_ext. intros y x v. apply andb_false_r. }
  rewrite El. destruct (0 <? pdc).
  - unfold assign_where. rewrite mapi2_comp.
    erewrite mapi2_ext; [apply argwhere_none|].
    intros y x v. cbv beta. now destruct (in_disk _ _ _ _ _).
  - apply argwhere_none.
Qed.

(** X6. A NaN among the gray samples of a frame disables the detection: the
    frame has no peak. *)
Theorem nan_sample_suppresses_detection {L : Library} (H W : Z) (threshold_rel : f32)
  (min_distance notch_radius protect_dc feather : Z)
  (frame : list (list (list f32))) (gray : list (list f32)) (fo : frame_out) :
  _to_gray frame = Ok gray ->
  Exists (Exists (fun v => F32.is_nan v = true)) gray ->
  auto_frame H W threshold_rel min_distance notch_radius protect_dc feather frame = Ok fo ->
  detect_peaks H W gray threshold_rel min_distance protect_dc = Ok [] /\
  fo_peaks fo = [].
Proof.
  intros Eg Hn Hrun.
  pose proof (detect_peaks_nan H W gray threshold_rel min_distance protect_dc Hn) as Ep.
  split; [exact Ep|].
  unfold auto_frame in Hrun. rewrite Eg in Hrun. cbn [bind] in Hrun.
  rewrite Ep in Hrun. cbn [bind] in Hrun.
  destruct (_build_circular_mask H W [] notch_radius feather); [|discriminate].
  cbn [bind] in Hrun.
  destruct (_annotate_preview frame [] notch_radius protect_dc H W); [|discriminate].
  cbn [bind] in Hrun. now inversion Hrun.
Qed.

Lemma nan_sample_suppresses_detection_witness :
  exists fo,
    auto_frame (L := Ref.library) 1 2 F32.c0_5 2 1 0 0 [[[S754_nan]; [F32.one]]] = Ok fo /\
    detect_peaks 1 2 [[S754_nan; F32.one]] F32.c0_5 2 0 = Ok [] /\
    fo_peaks fo = [].
Proof.
  eexists. split; [vm_compute; reflexivity|].
  apply (nan_sample_suppresses_detection (L := Ref.library) 1 2 F32.c0_5 2 1 0 0
           [[[S754_nan]; [F32.one]]]).
  - reflexivity.
  - repeat constructor.
  - vm_compute. reflexivity.
Defined.

(** * The order of the peaks *)

Lemma StronglySorted_app {A : Type} (R : A -> A -> Prop) (l l' : list A) :
  StronglySorted R l -> StronglySorted R l' ->
  (forall a b, In a l -> In b l' -> R a b) ->
  StronglySorted R (l ++ l').
Proof.
  intros Hl Hl' Hlt. induction Hl as [|a l Hl IH Ha]; cbn [app]; [exact Hl'|].
  constructor.
  - apply IH. intros x b Hx Hb. apply Hlt; [now right | exact Hb].
  - apply Forall_app. split; [exact Ha|].
    apply Forall_forall. intros b Hb. apply Hlt; [now left | exact Hb].
Qed.

Lemma row_positions_sorted (y : Z) (row : list bool) (j : Z) :
  let l := List.concat (mapi_from j (fun x (b : bool) => if b then [(y, x)] else []) row) in
  StronglySorted row_major_lt l /\ Forall (fun p => fst p = y /\ j <= snd p) l.
Proof.
  cbv zeta. revert j. induction row as [|b row IH]; intros j; cbn [mapi_from List.concat].
  - split; constructor.
  - destruct (IH (j + 1)) as (Hs & Hall).
    assert (Hall' : Forall (fun p : Z * Z => fst p = y /\ j <= snd p)
                      (List.concat (mapi_from (j + 1)
                         (fun x (b : bool) => if b then [(y, x)] else []) row))).
    { eapply Forall_impl; [|exact Hall]. cbv beta. intros p [? ?]. split; lia. }
    destruct b; cbn [app]; [|now split].
    split.
    + constructor; [exact Hs|]. eapply Forall_impl; [|exact Hall].
      cbv beta. intros p [Hf Hsn]. right. cbn [fst snd]. split; [now symmetry | lia].
    + constructor; [cbn; split; lia | exact Hall'].
Qed.

Lemma argwhere_sorted (m : list (list bool)) (i : Z) :
  let l := List.concat (mapi_from i (fun y row =>
             List.concat (mapi_from 0 (fun x (b : bool) => if b then [(y, x)] else []) row))
             m) in
  StronglySorted row_major_lt l /\ Forall (fun p => i <= fst p) l.
Proof.
  cbv zeta. revert i. induction m as [|row m IH]; intros i; cbn [mapi_from List.concat].
  - split; constructor.
  - destruct (IH (i + 1)) as (Hs & Hall).
    destruct (row_positions_sorted i row 0) as (Hrs & Hrall). cbv zeta in Hrs, Hrall.
    split.
    + apply StronglySorted_app; [exact Hrs | exact Hs |].
      intros a b Ha Hb. rewrite Forall_forall in Hrall, Hall.
      destruct (Hrall a Ha) as [Hfa _]. pose proof (Hall b Hb) as Hfb. cbv beta in Hfb.
      left. lia.
    + apply Forall_app. split.
      * eapply Forall_impl; [|exact Hrall]. cbv beta. intros p [? _]. lia.
      * eapply Forall_impl; [|exact Hall]. cbv beta. intros p ?. lia.
Qed.

Lemma row_major_lt_irrefl (p : Z * Z) : ~ row_major_lt p p.
Proof. unfold row_major_lt. lia. Qed.

Lemma sorted_NoDup (l : list (Z * Z)) : StronglySorted row_major_lt l -> NoDup l.
Proof.
  induction 1 as [|a l Hl IH Ha]; constructor; [|exact IH].
  intros Hin. rewrite Forall_forall in Ha. exact (row_major_lt_irrefl a (Ha a Hin)).
Qed.

(** X7. The peaks of a frame come in row-major order (by row, then by
    column), each position once; the exported JSON array keeps that order. *)
Theorem peaks_are_in_row_major_order (H W : Z) (gray : list (list f32))
  (threshold_rel : f32) (min_distance protect_dc : Z) (peaks : list (Z * Z)) :
  detect_peaks H W gray threshold_rel min_distance protect_dc = Ok peaks ->
  StronglySorted row_major_lt peaks /\ NoDup peaks.
Proof.
  intros Hd. unfold detect_peaks in Hd.
  destruct (amax gray) as [g|e]; [|discriminate]. cbn [bind] in Hd.
  inversion Hd as [Ep]. clear Hd Ep.
  set (lm := if 0 <? protect_dc then _ else _).
  assert (Hs : StronglySorted row_major_lt (argwhere lm)).
  { unfold argwhere, mapi. apply argwhere_sorted. }
  split; [exact Hs | now apply sorted_NoDup].
Qed.

Lemma peaks_are_in_row_major_order_witness :
  detect_peaks 3 3 (tab2 3 3 (fun _ _ => F32.zero)) F32.c0_5 2 1 =
    Ok [(0, 0); (0, 2); (2, 0); (2, 2)] /\
  StronglySorted row_major_lt [(0, 0); (0, 2); (2, 0); (2, 2)] /\
  NoDup [(0, 0); (0, 2); (2, 0); (2, 2)].
Proof.
  split; [vm_compute; reflexivity|].
  apply (peaks_are_in_row_major_order 3 3 (tab2 3 3 (fun _ _ => F32.zero)) F32.c0_5 2 1).
  vm_compute. reflexivity.
Defined.

(** * Exceptions of the nodes *)

(** X8. An empty batch makes both nodes raise [ValueError] ([np.stack] of no
    array), whatever the other inputs are, malformed points included. *)
Theorem empty_batch_raises_value_error {L : Library} (spectrum : tensor)
  (threshold_rel : f32) (min_distance notch_radius protect_dc feather : Z)
  (notch_points : string) :
  to_bhwc spectrum = [] ->
  apply_notch spectrum threshold_rel min_distance notch_radius protect_dc feather =
    Raise ValueError /\
  apply_manual_notch spectrum notch_points feather protect_dc = Raise ValueError.
Proof.
  intros He. unfold apply_notch, apply_manual_notch, manual_run.
  rewrite He. cbn [mapM bind map np_stack]. now split.
Qed.

Lemma empty_batch_raises_value_error_witness :
  apply_notch (L := Ref.library) (T3 []) F32.c0_5 10 8 0 2 = Raise ValueError /\
  apply_manual_notch (L := Ref.library) (T3 []) (Ref.dq "[1]") 2 0 = Raise ValueError.
Proof.
  apply (empty_batch_raises_value_error (L := Ref.library) (T3 [])). reflexivity.
Defined.

Lemma not_fits_forallb (circles : list (Z * Z * Z)) :
  Exists (fun c => ~ fits_circle c) circles ->
  forallb (fun c => I64.fits (snd (fst c)) && I64.fits (fst (fst c))) circles = false.
Proof.
  induction 1 as [c l Hc|c l _ IH]; cbn [forallb].
  - unfold fits_circle in Hc.
    destruct (I64.fits (snd (fst c))), (I64.fits (fst (fst c))); cbn; try reflexivity.
    exfalso. apply Hc. now split.
  - rewrite IH. apply andb_false_r.
Qed.

(** X9. On a well-formed batch the manual node raises exactly when a point
    does not convert (the exception of the conversion) or when a centre does
    not fit in int64 ([OverflowError]). *)
Theorem manual_node_exceptions {L : Library} (points : list json) (spectrum : tensor)
  (H W C feather protect_dc : Z) :
  wf_batch H W C (to_bhwc spectrum) ->
  (forall e, point_circles points = Raise e ->
             manual_run points spectrum feather protect_dc = Raise e) /\
  (forall circles, point_circles points = Ok circles ->
                   Exists (fun c => ~ fits_circle c) circles ->
                   manual_run points spectrum feather protect_dc = Raise OverflowError) /\
  (forall circles, point_circles points = Ok circles ->
                   Forall fits_circle circles ->
                   exists out, manual_run points spectrum feather protect_dc = Ok out).
Proof.
  intros Hwf. split; [|split].
  - intros e He. destruct Hwf as (Hne & _). unfold manual_run.
    destruct (to_bhwc spectrum) as [|f rest]; [congruence|].
    cbn [mapM]. unfold manual_frame at 1. rewrite He. reflexivity.
  - intros circles Hpc Hbad. pose proof Hwf as (Hne & Hall & HH & HW & HC).
    unfold manual_run.
    destruct (hd_rect3 H W C (to_bhwc spectrum) Hne Hall ltac:(lia)) as (-> & -> & _).
    destruct (to_bhwc spectrum) as [|f rest]; [congruence|].
    cbn [mapM]. unfold manual_frame at 1. rewrite Hpc. cbn [bind].
    rewrite manual_mask_closed, (not_fits_forallb circles Hbad).
    destruct ((H <? 0) || (W <? 0)) eqn:En; [|reflexivity].
    apply orb_true_iff in En. rewrite !Z.ltb_lt in En. lia.
  - intros circles Hpc Hfit.
    destruct (manual_run_spec points spectrum H W C feather protect_dc circles
                Hwf Hpc Hfit) as (out & _ & E & _).
    now exists out.
Qed.

Lemma manual_node_exceptions_witness :
  manual_run (L := Ref.library) [JInt 1] (T4 [Examples.spike 1 1 1]) 0 0 =
    Raise AttributeError /\
  manual_run (L := Ref.library) [JDict [("x"%string, JInt (2 ^ 63))]]
    (T4 [Examples.spike 1 1 1]) 0 0 = Raise OverflowError.
Proof.
  assert (Hwf : wf_batch 3 3 1 (to_bhwc (T4 [Examples.spike 1 1 1]))).
  { repeat split; try discriminate; try lia; repeat constructor. }
  split.
  - apply (proj1 (manual_node_exceptions (L := Ref.library) [JInt 1]
                    (T4 [Examples.spike 1 1 1]) 3 3 1 0 0 Hwf)).
    reflexivity.
  - apply (proj1 (proj2 (manual_node_exceptions (L := Ref.library)
                    [JDict [("x"%string, JInt (2 ^ 63))]]
                    (T4 [Examples.spike 1 1 1]) 3 3 1 0 0 Hwf)) [(0, 2 ^ 63, 8)]).
    + reflexivity.
    + constructor. unfold fits_circle. cbn. intros [_ Hx]. discriminate Hx.
Defined.

(** * The preview, sample by sample *)

Lemma annotate_peaks_pointwise (H W C radius : Z) (peaks : list (Z * Z))
  (img : list (list (list f32))) :
  rect3 H W C img -> 1 <= H -> 1 <= W -> 1 <= C ->
  Forall fits_peak peaks ->
  exists img',
    annotate_peaks C radius H W peaks img = Ok img' /\ rect3 H W C img' /\
    forall y x i, 0 <= y < H -> 0 <= x < W -> 0 <= i < C ->
      get3 img' y x i F32.zero =
      if existsb (fun p => peak_ring radius p y x) peaks
      then ring_sample C F32.one F32.c0_9 F32.zero i (get3 img y x i F32.zero)
      else get3 img y x i F32.zero.
Proof.
  intros Hrect HH HW HC Hfit. revert img Hrect.
  induction Hfit as [|p rest [Hr Hc] Hrest IH]; intros img Hrect.
  - exists img. cbn. auto.
  - cbn [annotate_peaks]. unfold annotate_peak, to_i64. rewrite Hc, Hr. cbn [bind].
    cbv zeta.
    change (ring_of (fst p) (snd p) (radius + 2) (Z.max 0 (radius - 1)))
      with (peak_ring radius p).
    assert (Hstep : exists img1,
              (if 3 <=? C
               then paint_rgb H W (peak_ring radius p) F32.one F32.c0_9 F32.zero img
               else paint H W (peak_ring radius p) 0 F32.one img) = Ok img1 /\
              rect3 H W C img1 /\
              forall y x i, 0 <= y < H -> 0 <= x < W -> 0 <= i < C ->
                get3 img1 y x i F32.zero =
                if peak_ring radius p y x
                then ring_sample C F32.one F32.c0_9 F32.zero i (get3 img y x i F32.zero)
                else get3 img y x i F32.zero).
    { unfold ring_sample. destruct (Z.leb_spec 3 C) as [H3|H3].
      - destruct (paint_rgb_spec H W C (peak_ring radius p) F32.one F32.c0_9
                    F32.zero img Hrect HH HW H3) as (img1 & E & Hr1 & Hg1).
        exists img1. split; [assumption|]. split; [assumption|].
        intros y x i Hy Hx Hi. now rewrite Hg1 by assumption.
      - destruct (paint_spec H W C (peak_ring radius p) 0 F32.one img Hrect HH HW
                    ltac:(lia)) as (img1 & E & Hr1 & Hg1).
        exists img1. split; [assumption|]. split; [assumption|].
        intros y x i Hy Hx Hi. rewrite Hg1 by assumption.
        destruct (peak_ring radius p y x); cbn [andb]; reflexivity. }
    destruct Hstep as (img1 & -> & Hr1 & Hg1). cbn [bind].
    destruct (IH img1 Hr1) as (img' & E & Hr' & Hg').
    exists img'. split; [assumption|]. split; [assumption|].
    intros y x i Hy Hx Hi. rewrite Hg', Hg1 by assumption. cbn [existsb].
    destruct (peak_ring radius p y x), (existsb _ rest); cbn [orb]; try reflexivity.
    unfold ring_sample. destruct (3 <=? C).
    + destruct (i =? 0); [reflexivity|]. destruct (i =? 1); [reflexivity|].
      now destruct (i =? 2).
    + now destruct (i =? 0).
Qed.

Lemma annotate_preview_pointwise (frame : list (list (list f32)))
  (peaks : list (Z * Z)) (radius dc_r H W C : Z) :
  rect3 H W C frame -> 1 <= H -> 1 <= W -> 1 <= C ->
  Forall fits_peak peaks ->
  exists preview,
    _annotate_preview frame peaks radius dc_r H W = Ok preview /\
    rect3 H W C preview /\
    forall y x i, 0 <= y < H -> 0 <= x < W -> 0 <= i < C ->
      let base := F32.clip01 (get3 frame y x i F32.zero) in
      let dc :=
        if (0 <? dc_r) && (3 <=? C) &&
           ring_of (H / 2) (W / 2) (dc_r + 1) (dc_r - 1) y x
        then ring_sample C F32.c0_2 F32.c0_5 F32.one i base
        else base in
      get3 preview y x i F32.zero =
      if existsb (fun p => peak_ring radius p y x) peaks
      then ring_sample C F32.one F32.c0_9 F32.zero i dc
      else dc.
Proof.
  intros Hrect HH HW HC Hfit. unfold _annotate_preview.
  rewrite (channels_rect3 H W C frame Hrect HH HW).
  pose proof (rect3_map H W C F32.clip01 frame Hrect) as Hclip.
  assert (Hbase : forall y x i, 0 <= y < H -> 0 <= x < W -> 0 <= i < C ->
            get3 (map (map (map F32.clip01)) frame) y x i F32.zero =
            F32.clip01 (get3 frame y x i F32.zero)).
  { intros y x i Hy Hx Hi. now apply (get3_map H W C). }
  set (prev0 := map (map (map F32.clip01)) frame) in *.
  assert (Hdc : exists p1,
            (if 0 <? dc_r
             then if 3 <=? C
                  then paint_rgb H W (ring_of (H / 2) (W / 2) (dc_r + 1) (dc_r - 1))
                         F32.c0_2 F32.c0_5 F32.one prev0
                  else Ok prev0
             else Ok prev0) = Ok p1 /\ rect3 H W C p1 /\
            forall y x i, 0 <= y < H -> 0 <= x < W -> 0 <= i < C ->
              get3 p1 y x i F32.zero =
              if (0 <? dc_r) && (3 <=? C) &&
                 ring_of (H / 2) (W / 2) (dc_r + 1) (dc_r - 1) y x
              then ring_sample C F32.c0_2 F32.c0_5 F32.one i
                     (F32.clip01 (get3 frame y x i F32.zero))
              else F32.clip01 (get3 frame y x i F32.zero)).
  { unfold ring_sample. destruct (0 <? dc_r); cbn [andb]; [|now exists prev0].
    destruct (Z.leb_spec 3 C) as [H3|H3]; cbn [andb]; [|now exists prev0].
    destruct (paint_rgb_spec H W C (ring_of (H / 2) (W / 2) (dc_r + 1) (dc_r - 1))
                F32.c0_2 F32.c0_5 F32.one prev0 Hclip HH HW H3) as (p1 & E & Hr1 & Hg1).
    exists p1. split; [assumption|]. split; [assumption|].
    intros y x i Hy Hx Hi. rewrite Hg1, Hbase by assumption. reflexivity. }
  destruct Hdc as (p1 & -> & Hr1 & Hg1). cbn [bind].
  destruct (annotate_peaks_pointwise H W C radius peaks p1 Hr1 HH HW HC Hfit)
    as (p2 & E & Hr2 & Hg2).
  exists p2. split; [assumption|]. split; [assumption|].
  intros y x i Hy Hx Hi. cbv zeta. now rewrite Hg2, Hg1 by assumption.
Qed.

Lemma ring_sample_in_unit (C : Z) (v0 v1 v2 : f32) (i : Z) (old : f32) :
  in_unit v0 -> in_unit v1 -> in_unit v2 -> in_unit old ->
  in_unit (ring_sample C v0 v1 v2 i old).
Proof.
  intros H0 H1 H2 Ho. unfold ring_sample.
  destruct (3 <=? C), (i =? 0), (i =? 1), (i =? 2); assumption.
Qed.

(** X10. Every sample of the annotated preview of a frame lies in [0, 1],
    unless the sample of the frame is a NaN. *)
Theorem preview_samples_stay_in_unit_interval (frame : list (list (list f32)))
  (peaks : list (Z * Z)) (radius dc_r H W C y x k : Z) :
  rect3 H W C frame -> 1 <= H -> 1 <= W -> 1 <= C ->
  Forall fits_peak peaks ->
  0 <= y < H -> 0 <= x < W -> 0 <= k < C ->
  F32.is_nan (get3 frame y x k F32.zero) = false ->
  exists preview,
    _annotate_preview frame peaks radius dc_r H W = Ok preview /\
    rect3 H W C preview /\
    in_unit (get3 preview y x k F32.zero).
Proof.
  intros Hrect HH HW HC Hfit Hy Hx Hk Hnan.
  destruct (annotate_preview_pointwise frame peaks radius dc_r H W C Hrect HH HW HC Hfit)
    as (preview & E & Hr & Hg).
  exists preview. split; [exact E|]. split; [exact Hr|].
  rewrite (Hg y x k Hy Hx Hk). cbv zeta.
  assert (Hb : in_unit (F32.clip01 (get3 frame y x k F32.zero)))
    by now apply clip01_range.
  assert (Hdc : in_unit
            (if (0 <? dc_r) && (3 <=? C) &&
                ring_of (H / 2) (W / 2) (dc_r + 1) (dc_r - 1) y x
             then ring_sample C F32.c0_2 F32.c0_5 F32.one k
                    (F32.clip01 (get3 frame y x k F32.zero))
             else F32.clip01 (get3 frame y x k F32.zero))).
  { destruct ((0 <? dc_r) && (3 <=? C) &&
              ring_of (H / 2) (W / 2) (dc_r + 1) (dc_r - 1) y x); [|exact Hb].
    apply ring_sample_in_unit; try exact Hb; split; reflexivity. }
  destruct (existsb _ peaks); [|exact Hdc].
  apply ring_sample_in_unit; try exact Hdc; split; reflexivity.
Qed.

Lemma preview_samples_stay_in_unit_interval_witness :
  exists preview,
    _annotate_preview (Examples.spike 3 1 1) [(1, 1)] 1 1 3 3 = Ok preview /\
    rect3 3 3 3 preview /\
    in_unit (get3 preview 0 0 1 F32.zero).
Proof.
  apply (preview_samples_stay_in_unit_interval (Examples.spike 3 1 1) [(1, 1)] 1 1
           3 3 3 0 0 1).
  - apply spike_wf; lia.
  - lia.
  - lia.
  - lia.
  - repeat constructor.
  - lia.
  - lia.
  - lia.
  - reflexivity.
Defined.

Lemma peak_ring_exact (H W radius : Z) (p : Z * Z) (y x : Z) :
  H <= 2 ^ 31 -> W <= 2 ^ 31 -> in_image H W p -> 0 <= y < H -> 0 <= x < W ->
  peak_ring radius p y x =
  ((x - snd p) ^ 2 + (y - fst p) ^ 2 <=? (radius + 2) ^ 2) &&
  negb ((x - snd p) ^ 2 + (y - fst p) ^ 2 <=? Z.max 0 (radius - 1) ^ 2).
Proof.
  intros HH HW [Hr Hc] Hy Hx. unfold peak_ring, ring_of.
  now rewrite !in_disk_exact by lia.
Qed.

(** X11. A pixel on the ring of a detected peak (farther than
    max(0, radius - 1) and at most radius + 2 from it) is yellow in the
    preview: (1.0, 0.9, 0.0) on a frame with at least three channels, 1.0 on
    the first channel of the others. *)
Theorem peak_ring_is_yellow (frame : list (list (list f32)))
  (peaks : list (Z * Z)) (radius dc_r H W C y x : Z) (p : Z * Z) :
  rect3 H W C frame -> 1 <= H <= 2 ^ 31 -> 1 <= W <= 2 ^ 31 -> 1 <= C ->
  Forall (in_image H W) peaks -> In p peaks ->
  0 <= y < H -> 0 <= x < W ->
  (x - snd p) ^ 2 + (y - fst p) ^ 2 <= (radius + 2) ^ 2 ->
  Z.max 0 (radius - 1) ^ 2 < (x - snd p) ^ 2 + (y - fst p) ^ 2 ->
  exists preview,
    _annotate_preview frame peaks radius dc_r H W = Ok preview /\
    get3 preview y x 0 F32.zero = F32.one /\
    (3 <= C ->
     get3 preview y x 1 F32.zero = F32.c0_9 /\
     get3 preview y x 2 F32.zero = F32.zero).
Proof.
  intros Hrect HH HW HC Hin Hp Hy Hx Hout Hinn.
  assert (Hfit : Forall fits_peak peaks).
  { eapply Forall_impl; [|exact Hin]. intros q Hq.
    pose proof (in_image_fits H W q ltac:(lia) ltac:(lia) Hq) as Hf.
    apply andb_true_iff in Hf. destruct Hf. now split. }
  destruct (annotate_preview_pointwise frame peaks radius dc_r H W C Hrect
              ltac:(lia) ltac:(lia) HC Hfit) as (preview & E & Hr & Hg).
  exists preview. split; [exact E|].
  assert (Hex : existsb (fun q => peak_ring radius q y x) peaks = true).
  { apply existsb_exists. exists p. split; [exact Hp|].
    rewrite Forall_forall in Hin.
    rewrite (peak_ring_exact H W) by (try apply Hin; try assumption; lia).
    apply andb_true_iff. split; [apply Z.leb_le; lia|].
    apply negb_true_iff, Z.leb_gt. lia. }
  split.
  - rewrite (Hg y x 0) by lia. cbv zeta. rewrite Hex. unfold ring_sample.
    now destruct (3 <=? C).
  - intros H3. split.
    + rewrite (Hg y x 1) by lia. cbv zeta. rewrite Hex. unfold ring_sample.
      destruct (Z.leb_spec 3 C); [reflexivity | lia].
    + rewrite (Hg y x 2) by lia. cbv zeta. rewrite Hex. unfold ring_sample.
      destruct (Z.leb_spec 3 C); [reflexivity | lia].
Qed.

Lemma peak_ring_is_yellow_witness :
  exists preview,
    _annotate_preview (Examples.spike 3 1 1) [(1, 1)] 1 0 3 3 = Ok preview /\
    get3 preview 0 1 0 F32.zero = F32.one /\
    (3 <= 3 ->
     get3 preview 0 1 1 F32.zero = F32.c0_9 /\
     get3 preview 0 1 2 F32.zero = F32.zero).
Proof.
  apply (peak_ring_is_yellow (Examples.spike 3 1 1) [(1, 1)] 1 0 3 3 3 0 1 (1, 1)).
  - apply spike_wf; lia.
  - lia.
  - lia.
  - lia.
  - repeat constructor; cbn; lia.
  - now left.
  - lia.
  - lia.
  - cbn. lia.
  - cbn. lia.
Defined.

(** X12. The annotator changes nothing else: a sample that lies on no peak
    ring and not on the DC ring, or on a channel that is not painted (the
    fourth and later ones, or the second of a two-channel frame), is the
    clipped sample of the frame. *)
Theorem preview_keeps_unpainted_samples (frame : list (list (list f32)))
  (peaks : list (Z * Z)) (radius dc_r H W C y x k : Z) :
  rect3 H W C frame -> 1 <= H -> 1 <= W -> 1 <= C ->
  Forall fits_peak peaks ->
  0 <= y < H -> 0 <= x < W -> 0 <= k < C ->
  3 <= k \/ (C < 3 /\ 1 <= k) \/
  (Forall (fun p => peak_ring radius p y x = false) peaks /\
   (dc_r <= 0 \/ C < 3 \/
    ring_of (H / 2) (W / 2) (dc_r + 1) (dc_r - 1) y x = false)) ->
  exists preview,
    _annotate_preview frame peaks radius dc_r H W = Ok preview /\
    get3 preview y x k F32.zero = F32.clip01 (get3 frame y x k F32.zero).
Proof.
  intros Hrect HH HW HC Hfit Hy Hx Hk Hcase.
  destruct (annotate_preview_pointwise frame peaks radius dc_r H W C Hrect HH HW HC Hfit)
    as (preview & E & Hr & Hg).
  exists preview. split; [exact E|].
  rewrite (Hg y x k Hy Hx Hk). cbv zeta. unfold ring_sample.
  destruct Hcase as [H3|[[HC3 H1]|[Hoff Hdc]]].
  - destruct (Z.eqb_spec k 0); [lia|]. destruct (Z.eqb_spec k 1); [lia|].
    destruct (Z.eqb_spec k 2); [lia|].
    destruct (existsb _ peaks),
      ((0 <? dc_r) && (3 <=? C) &&
       ring_of (H / 2) (W / 2) (dc_r + 1) (dc_r - 1) y x), (3 <=? C); reflexivity.
  - destruct (Z.leb_spec 3 C); [lia|]. destruct (Z.eqb_spec k 0); [lia|].
    rewrite andb_false_r. cbn [andb]. now destruct (existsb _ peaks).
  - assert (Hex : existsb (fun p => peak_ring radius p y x) peaks = false).
    { clear - Hoff. induction Hoff as [|p l Hp _ IH]; cbn [existsb]; [reflexivity|].
      now rewrite Hp, IH. }
    rewrite Hex.
    assert (Hd : (0 <? dc_r) && (3 <=? C) &&
                 ring_of (H / 2) (W / 2) (dc_r + 1) (dc_r - 1) y x = false).
    { destruct Hdc as [Hd|[Hd|Hd]].
      - destruct (Z.ltb_spec 0 dc_r); [lia | reflexivity].
      - destruct (Z.leb_spec 3 C); [lia | now rewrite andb_false_r].
      - rewrite Hd. apply andb_false_r. }
    now rewrite Hd.
Qed.

Lemma preview_keeps_unpainted_samples_witness :
  exists preview,
    _annotate_preview (Examples.spike 4 1 1) [(1, 1)] 1 1 3 3 = Ok preview /\
    get3 preview 0 1 3 F32.zero =
    F32.clip01 (get3 (Examples.spike 4 1 1) 0 1 3 F32.zero).
Proof.
  apply (preview_keeps_unpainted_samples (Examples.spike 4 1 1) [(1, 1)] 1 1 3 3 4 0 1 3).
  - apply spike_wf; lia.
  - lia.
  - lia.
  - lia.
  - repeat constructor.
  - lia.
  - lia.
  - lia.
  - left. lia.
Defined.

(** * Shapes of the outputs *)

Lemma Forall_zip_with {A B C : Type} (P : C -> Prop) (f : A -> B -> C)
  (l : list A) (l' : list B) :
  (forall a b, In a l -> In b l' -> P (f a b)) -> Forall P (zip_with f l l').
Proof.
  revert l'. induction l as [|a l IH]; intros [|b l'] Hf; cbn [zip_with];
    constructor.
  - apply Hf; now left.
  - apply IH. intros a' b' Ha Hb. apply Hf; now right.
Qed.

Lemma rect3_apply_mask (H W C : Z) (frame : list (list (list f32)))
  (mask : list (list f32)) :
  rect3 H W C frame -> rect2 H W mask -> rect3 H W C (apply_mask frame mask).
Proof.
  intros (Hl & Hrows) (Hml & Hmrows). unfold apply_mask. split.
  - rewrite len_zip_with. lia.
  - apply Forall_zip_with. intros row mrow Hrow Hmrow.
    rewrite Forall_forall in Hrows, Hmrows.
    destruct (Hrows row Hrow) as (Hw & Hpx). pose proof (Hmrows mrow Hmrow) as Hmw.
    cbv beta in Hmw. split.
    + rewrite len_zip_with. lia.
    + apply Forall_zip_with. intros px m Hin _. rewrite len_map.
      rewrite Forall_forall in Hpx. now apply Hpx.
Qed.

Lemma rect3_mask_image (H W : Z) (mask : list (list f32)) :
  rect2 H W mask -> rect3 H W 3 (mask_image mask).
Proof.
  intros (Hl & Hrows). unfold mask_image. split; [now rewrite len_map|].
  apply Forall_map. eapply Forall_impl; [|exact Hrows]. cbv beta. intros row Hw.
  split; [now rewrite len_map|]. apply Forall_map. apply Forall_forall.
  intros m _. reflexivity.
Qed.

Lemma auto_frame_shapes {L : Library} (H W C : Z) (thr : f32)
  (md nr pdc feather : Z) (frame : list (list (list f32))) (fo : frame_out) :
  rect3 H W C frame -> 1 <= H <= 2 ^ 31 -> 1 <= W <= 2 ^ 31 -> 1 <= C ->
  (forall m s, rect2 H W m -> rect2 H W (gaussian_filter m s)) ->
  auto_frame H W thr md nr pdc feather frame = Ok fo ->
  rect3 H W C (fo_filtered fo) /\ rect3 H W 3 (fo_mask fo) /\
  rect3 H W C (fo_preview fo) /\ Forall (in_image H W) (fo_peaks fo).
Proof.
  intros Hrect HH HW HC Hg Hrun. unfold auto_frame in Hrun.
  destruct (to_gray_ok H W C frame Hrect ltac:(lia) ltac:(lia) HC) as (gray & Eg & Hgr).
  rewrite Eg in Hrun. cbn [bind] in Hrun.
  destruct (detect_peaks_ok H W gray thr md pdc Hgr ltac:(lia) ltac:(lia))
    as (peaks & Ep & Hin).
  rewrite Ep in Hrun. cbn [bind] in Hrun.
  destruct (build_circular_mask_ok H W peaks nr feather ltac:(lia) ltac:(lia) Hin)
    as (mask & Em & Hmr).
  rewrite Em in Hrun. cbn [bind] in Hrun. specialize (Hmr Hg).
  destruct (annotate_preview_ok frame peaks nr pdc H W C Hrect ltac:(lia) ltac:(lia) HC)
    as (pv & Epv & Hpv).
  { eapply Forall_impl; [|exact Hin]. intros p Hp.
    pose proof (in_image_fits H W p ltac:(lia) ltac:(lia) Hp) as Hf.
    apply andb_true_iff in Hf. destruct Hf. now split. }
  rewrite Epv in Hrun. cbn [bind] in Hrun. inversion Hrun; subst fo. cbn.
  split; [now apply rect3_apply_mask|]. split; [now apply rect3_mask_image|].
  now split.
Qed.

Lemma Forall2_Forall_r {A B : Type} (P : A -> Prop) (Q : B -> Prop)
  (R : A -> B -> Prop) (l : list A) (l' : list B) :
  (forall a b, P a -> R a b -> Q b) -> Forall P l -> Forall2 R l l' -> Forall Q l'.
Proof.
  intros Himp Hl HF. induction HF as [|a b l l' Hab _ IH]; constructor.
  - inversion Hl; subst. eapply Himp; eassumption.
  - apply IH. now inversion Hl.
Qed.

(** X13. On a well-formed batch of B frames of shape (H, W, C), with a
    Gaussian filter that keeps the shape of its input, the outputs keep the
    batch size and the frame size: the filtered frames and the previews have
    the shape (H, W, C) and the mask images the shape (H, W, 3). *)
Theorem outputs_keep_the_batch_shape {L : Library} (spectrum : tensor) (H W C : Z) :
  wf_batch H W C (to_bhwc spectrum) ->
  (forall m s, rect2 H W m -> rect2 H W (gaussian_filter m s)) ->
  (forall thr md nr pdc feather out,
      apply_notch spectrum thr md nr pdc feather = Ok out ->
      len (filtered_spectrum out) = len (to_bhwc spectrum) /\
      Forall (rect3 H W C) (filtered_spectrum out) /\
      len (notch_mask out) = len (to_bhwc spectrum) /\
      Forall (rect3 H W 3) (notch_mask out) /\
      len (preview out) = len (to_bhwc spectrum) /\
      Forall (rect3 H W C) (preview out)) /\
  (forall points feather pdc out,
      manual_run points spectrum feather pdc = Ok out ->
      len (m_filtered out) = len (to_bhwc spectrum) /\
      Forall (rect3 H W C) (m_filtered out) /\
      len (m_mask out) = len (to_bhwc spectrum) /\
      Forall (rect3 H W 3) (m_mask out)).
Proof.
  intros Hwf Hg. split.
  - intros thr md nr pdc feather out Hrun.
    pose proof Hwf as (Hne & Hall & HH & HW & HC).
    unfold apply_notch in Hrun.
    destruct (hd_rect3 H W C (to_bhwc spectrum) Hne Hall ltac:(lia)) as (E1 & E2 & _).
    rewrite E1, E2 in Hrun.
    destruct (mapM _ (to_bhwc spectrum)) as [outs|e] eqn:Eo; [|discriminate].
    cbn [bind] in Hrun. pose proof (mapM_Forall2 _ _ _ Eo) as HF.
    pose proof (Forall2_len _ _ _ HF) as Hlen.
    destruct outs as [|o rest].
    { inversion HF as [Hnil|]. congruence. }
    cbn [map np_stack bind] in Hrun. inversion Hrun; subst out. cbn -[len].
    change (fo_filtered o :: map fo_filtered rest) with (map fo_filtered (o :: rest)).
    change (fo_mask o :: map fo_mask rest) with (map fo_mask (o :: rest)).
    change (fo_preview o :: map fo_preview rest) with (map fo_preview (o :: rest)).
    rewrite !len_map.
    assert (Hsh : Forall (fun fo => rect3 H W C (fo_filtered fo) /\
                                    rect3 H W 3 (fo_mask fo) /\
                                    rect3 H W C (fo_preview fo)) (o :: rest)).
    { eapply Forall2_Forall_r; [|exact Hall|exact HF].
      intros frame fo Hrect Hfo. cbv beta in Hfo.
      destruct (auto_frame_shapes H W C thr md nr pdc feather frame fo Hrect HH HW HC
                  Hg Hfo) as (A1 & A2 & A3 & _).
      auto. }
    repeat split; try exact Hlen; apply Forall_map;
      (eapply Forall_impl; [|exact Hsh]); cbv beta; tauto.
  - intros points feather pdc out Hrun.
    pose proof Hwf as (Hne & Hall & HH & HW & HC).
    assert (Hpc : exists circles, point_circles points = Ok circles).
    { unfold manual_run in Hrun. destruct (to_bhwc spectrum) as [|f rest]; [congruence|].
      cbn [mapM] in Hrun. unfold manual_frame at 1 in Hrun.
      destruct (point_circles points) as [cs|e]; [now exists cs | discriminate]. }
    destruct Hpc as (circles & Hpc).
    pose proof (point_circles_fits _ _ _ _ _ _ Hne Hpc Hrun) as Hfit.
    destruct (manual_run_spec points spectrum H W C feather pdc circles Hwf Hpc Hfit)
      as (out' & mask0 & E & _ & Hr0 & Efil & Emask).
    rewrite E in Hrun. inversion Hrun; subst out'.
    pose proof (feathered_rect H W mask0 feather Hg Hr0) as Hfr.
    rewrite Efil, Emask, !len_map.
    repeat split; apply Forall_map.
    + eapply Forall_impl; [|exact Hall]. intros frame Hrect.
      now apply rect3_apply_mask.
    + apply Forall_forall. intros frame _. now apply rect3_mask_image.
Qed.

Lemma outputs_keep_the_batch_shape_witness :
  exists out,
    apply_notch (L := Ref.library) (T3 [[[F32.zero; F32.one]]]) F32.c0_5 2 1 0 1 = Ok out /\
    len (filtered_spectrum out) = 1 /\
    Forall (rect3 1 2 1) (filtered_spectrum out) /\
    len (notch_mask out) = 1 /\
    Forall (rect3 1 2 3) (notch_mask out) /\
    len (preview out) = 1 /\
    Forall (rect3 1 2 1) (preview out).
Proof.
  eexists. split; [vm_compute; reflexivity|].
  refine (proj1 (outputs_keep_the_batch_shape (L := Ref.library)
                   (T3 [[[F32.zero; F32.one]]]) 1 2 1 _ _)
            F32.c0_5 2 1 0 1 _ _).
  - repeat split; try discriminate; try lia; repeat constructor.
  - intros m s Hm. now apply blur_rect.
  - vm_compute. reflexivity.
Defined.

(** * The gray image *)

Lemma channels_firstn (n : nat) (frame : list (list (list f32))) :
  Z.of_nat n <= channels frame ->
  channels (map (map (firstn n)) frame) = Z.of_nat n.
Proof.
  unfold channels, len. destruct frame as [|[|px row] rows]; cbn [hd map List.length];
    intros Hn; try lia.
  rewrite length_firstn. lia.
Qed.

(** X14. The gray image depends on the first three channels only (a fourth
    channel, such as alpha, is ignored), and on the first channel only when
    the frame has one or two channels. *)
Theorem gray_ignores_the_other_channels (frame : list (list (list f32))) :
  (3 <= channels frame ->
   _to_gray frame = _to_gray (map (map (firstn 3)) frame)) /\
  (1 <= channels frame < 3 ->
   _to_gray frame = _to_gray (map (map (firstn 1)) frame)).
Proof.
  split; intros HC; unfold _to_gray.
  - rewrite (channels_firstn 3) by exact HC.
    destruct (Z.leb_spec 3 (channels frame)); [|lia].
    change (3 <=? Z.of_nat 3) with true. cbv iota. f_equal.
    rewrite map_map. apply map_ext. intros row. rewrite map_map. apply map_ext.
    intros px. now rewrite !get_firstn by (cbn; lia).
  - rewrite (channels_firstn 1) by lia.
    destruct (Z.leb_spec 3 (channels frame)); [lia|].
    destruct (Z.eqb_spec (channels frame) 0); [lia|].
    change (3 <=? Z.of_nat 1) with false. change (Z.of_nat 1 =? 0) with false.
    cbv iota. f_equal.
    rewrite map_map. apply map_ext. intros row. rewrite map_map. apply map_ext.
    intros px. now rewrite get_firstn by (cbn; lia).
Qed.

(** * Peaks and the global maximum *)

Lemma get2_Forall {A : Type} (P : A -> Prop) (H W : Z) (a : list (list A))
  (y x : Z) (d : A) :
  rect2 H W a -> Forall (Forall P) a -> 0 <= y < H -> 0 <= x < W ->
  P (get2 a y x d).
Proof.
  intros Hrect Hall Hy Hx. unfold get2.
  assert (Hrow : In (get a y []) a) by (apply get_In; destruct Hrect; lia).
  rewrite Forall_forall in Hall. pose proof (Hall _ Hrow) as Hr.
  rewrite Forall_forall in Hr. apply Hr, get_In.
  now rewrite (rect2_get H W a y).
Qed.

(** X15. With [threshold_rel = 1.0] the peaks are exactly the pixels that
    attain the global maximum of the frame (outside the DC disk), whatever
    [min_distance] is. *)
Theorem unit_threshold_selects_the_global_maxima (H W : Z) (gray : list (list f32))
  (min_distance protect_dc : Z) :
  rect2 H W gray -> 1 <= H <= 2 ^ 31 -> 1 <= W <= 2 ^ 31 ->
  no_nan gray -> Forall (Forall is_f32) gray ->
  exists peaks gmax,
    detect_peaks H W gray F32.one min_distance protect_dc = Ok peaks /\
    is_global_max H W gray gmax /\
    forall r c,
      In (r, c) peaks <->
      (0 <= r < H /\ 0 <= c < W /\
       F32.eqb (get2 gray r c F32.zero) gmax = true /\
       (0 < protect_dc ->
        protect_dc ^ 2 < (c - W / 2) ^ 2 + (r - H / 2) ^ 2)).
Proof.
  intros Hrect HH HW Hnan Hval.
  destruct (detect_peaks_spec H W gray F32.one min_distance protect_dc Hrect HH HW Hnan)
    as (peaks & gmax & E & Hmax & Hin).
  exists peaks, gmax. split; [exact E|]. split; [exact Hmax|].
  destruct Hmax as ((i0 & j0 & Hi0 & Hj0 & Eg) & Hle).
  assert (Hgv : is_f32 gmax).
  { rewrite Eg. now apply (get2_Forall is_f32 H W). }
  assert (Hgn : F32.is_nan gmax = false) by (rewrite Eg; now apply no_nan_get2).
  rewrite (mul_one_l gmax Hgv) in Hin.
  intros r c. rewrite Hin. clear Hin.
  pose proof (no_nan_get2 gray r c Hnan) as Hvn.
  split.
  - intros (Hr & Hc & _ & Hge & Hdc). repeat split; try assumption; try lia.
    apply eqb_leb; try assumption. split; [now apply Hle | exact Hge].
  - intros (Hr & Hc & Heq & Hdc).
    apply eqb_leb in Heq; try assumption. destruct Heq as [_ Hge].
    repeat split; try assumption; try lia.
    intros i j (Hi & Hj & _).
    apply leb_trans with gmax; try assumption; try now apply no_nan_get2.
    now apply Hle.
Qed.

Lemma unit_threshold_selects_the_global_maxima_witness :
  exists peaks gmax,
    detect_peaks 3 3 Examples.gray_spike F32.one 2 0 = Ok peaks /\
    is_global_max 3 3 Examples.gray_spike gmax /\
    forall r c,
      In (r, c) peaks <->
      (0 <= r < 3 /\ 0 <= c < 3 /\
       F32.eqb (get2 Examples.gray_spike r c F32.zero) gmax = true /\
       (0 < 0 -> 0 ^ 2 < (c - 3 / 2) ^ 2 + (r - 3 / 2) ^ 2)).
Proof.
  apply (unit_threshold_selects_the_global_maxima 3 3 Examples.gray_spike 2 0).
  - split; [reflexivity|]. repeat constructor.
  - lia.
  - lia.
  - repeat constructor.
  - repeat constructor.
Defined.

(** X16. Two peaks of a frame that are at most [max(1, min_distance)] rows
    and columns apart carry the same gray value: the window suppresses every
    smaller neighbour, ties remain. *)
Theorem close_peaks_have_equal_values (H W : Z) (gray : list (list f32))
  (threshold_rel : f32) (min_distance protect_dc : Z) (peaks : list (Z * Z))
  (p q : Z * Z) :
  rect2 H W gray -> 1 <= H <= 2 ^ 31 -> 1 <= W <= 2 ^ 31 -> no_nan gray ->
  detect_peaks H W gray threshold_rel min_distance protect_dc = Ok peaks ->
  In p peaks -> In q peaks ->
  Z.abs (fst p - fst q) <= Z.max 1 min_distance ->
  Z.abs (snd p - snd q) <= Z.max 1 min_distance ->
  F32.eqb (get2 gray (fst p) (snd p) F32.zero) (get2 gray (fst q) (snd q) F32.zero) = true.
Proof.
  intros Hrect HH HW Hnan Hd Hp Hq Hdr Hdc.
  destruct (detect_peaks_spec H W gray threshold_rel min_distance protect_dc
              Hrect HH HW Hnan) as (peaks' & gmax & E & _ & Hin).
  rewrite E in Hd. inversion Hd; subst peaks'. clear Hd.
  destruct (window_side min_distance) as [_ Hside]. rewrite Hside in Hin.
  destruct p as [pr pc], q as [qr qc]. cbn [fst snd] in *.
  apply Hin in Hp. apply Hin in Hq.
  destruct Hp as (Hpr & Hpc & Hpw & _). destruct Hq as (Hqr & Hqc & Hqw & _).
  apply eqb_leb; try now apply no_nan_get2.
  split.
  - apply Hqw. unfold in_window. repeat split; try lia.
  - apply Hpw. unfold in_window. repeat split; try lia.
Qed.

Lemma close_peaks_have_equal_values_witness :
  detect_peaks 3 3 Examples.gray_black F32.c0_5 2 0 =
    Ok [(0, 0); (0, 1); (0, 2); (1, 0); (1, 1); (1, 2); (2, 0); (2, 1); (2, 2)] /\
  F32.eqb (get2 Examples.gray_black 0 0 F32.zero)
          (get2 Examples.gray_black 1 2 F32.zero) = true.
Proof.
  split; [vm_compute; reflexivity|].
  apply (close_peaks_have_equal_values 3 3 Examples.gray_black F32.c0_5 2 0
           [(0, 0); (0, 1); (0, 2); (1, 0); (1, 1); (1, 2); (2, 0); (2, 1); (2, 2)]
           (0, 0) (1, 2)).
  - split; [reflexivity|]. repeat constructor.
  - lia.
  - lia.
  - repeat constructor.
  - vm_compute. reflexivity.
  - cbn. tauto.
  - cbn. tauto.
  - cbn. lia.
  - cbn. lia.
Defined.

(** * More points, more mask *)

(** X17. Adding points to the manual node never removes a notch: a pixel the
    hard mask covers stays covered when circles are added. *)
Theorem adding_circles_keeps_the_notches (H W : Z) (circles more : list (Z * Z * Z))
  (protect_dc : Z) (m1 m2 : list (list f32)) (y x : Z) :
  manual_mask H W circles protect_dc = Ok m1 ->
  manual_mask H W (circles ++ more) protect_dc = Ok m2 ->
  0 <= y < H -> 0 <= x < W ->
  get2 m1 y x F32.zero = F32.one -> get2 m2 y x F32.zero = F32.one.
Proof.
  intros E1 E2 Hy Hx Hone. rewrite manual_mask_closed in E1, E2.
  destruct ((H <? 0) || (W <? 0)); [discriminate|].
  destruct (forallb _ circles); [|discriminate].
  destruct (forallb _ (circles ++ more)); [|discriminate].
  inversion E1; subst m1. inversion E2; subst m2. clear E1 E2.
  rewrite get2_hard_mask in * by assumption.
  unfold covered in *. rewrite existsb_app.
  destruct (existsb _ circles); cbn [orb] in *; [reflexivity|].
  destruct ((0 <? protect_dc) && in_disk (H / 2) (W / 2) protect_dc y x);
    [now rewrite orb_true_r | discriminate].
Qed.

Lemma adding_circles_keeps_the_notches_witness :
  exists m1 m2,
    manual_mask 3 3 [(0, 0, 0)] 0 = Ok m1 /\
    manual_mask 3 3 ([(0, 0, 0)] ++ [(2, 2, 1)]) 0 = Ok m2 /\
    get2 m1 0 0 F32.zero = F32.one /\ get2 m2 0 0 F32.zero = F32.one.
Proof.
  eexists. eexists. split; [vm_compute; reflexivity|].
  split; [vm_compute; reflexivity|]. split; [reflexivity|].
  eapply (adding_circles_keeps_the_notches 3 3 [(0, 0, 0)] [(2, 2, 1)] 0 _ _ 0 0).
  - vm_compute. reflexivity.
  - vm_compute. reflexivity.
  - lia.
  - lia.
  - reflexivity.
Defined.

(** * The points of the manual node *)

(** X18. The point list converts point by point: it gives circles exactly
    when every point is an object whose entries y, x and r (0, 0 and 8 when
    the key is missing) convert with [int]; the circle of a point is
    (int(y), int(x), int(r)), so there are as many circles as points. *)
Theorem points_convert_one_by_one {L : Library} (points : list json)
  (circles : list (Z * Z * Z)) :
  point_circles points = Ok circles <->
  Forall2 (fun p c =>
             point_field p "y" 0 = Ok (fst (fst c)) /\
             point_field p "x" 0 = Ok (snd (fst c)) /\
             point_field p "r" 8 = Ok (snd c)) points circles.
Proof.
  unfold point_field. split.
  - revert circles. induction points as [|p ps IH]; intros circles Hpc.
    + cbn in Hpc. inversion Hpc. constructor.
    + unfold point_circles in Hpc. cbn [mapM] in Hpc.
      destruct (v <- py_get p "y" (JInt 0) ;; py_int v) as [y|e] eqn:Ey;
        [|discriminate]. cbn [bind] in Hpc.
      destruct (v <- py_get p "x" (JInt 0) ;; py_int v) as [x|e] eqn:Ex;
        [|discriminate]. cbn [bind] in Hpc.
      destruct (mapM _ ps) as [pk|e] eqn:Epk; [|discriminate]. cbn [bind] in Hpc.
      destruct (v <- py_get p "r" (JInt 8) ;; py_int v) as [r|e] eqn:Er;
        [|discriminate]. cbn [bind] in Hpc.
      destruct (mapM (fun p0 => v <- py_get p0 "r" (JInt 8) ;; py_int v) ps)
        as [rs|e] eqn:Ers; [|discriminate].
      cbn [bind zip_with fst snd] in Hpc. inversion Hpc; subst circles.
      constructor; [cbn [fst snd]; auto|].
      apply IH. unfold point_circles. rewrite Epk. cbn [bind]. rewrite Ers. reflexivity.
  - induction 1 as [|p c ps cs (Ey & Ex & Er) _ IH]; [reflexivity|].
    unfold point_circles in *. cbn [mapM]. rewrite Ey, Ex. cbn [bind].
    destruct (mapM _ ps) as [pk|e]; [|discriminate]. cbn [bind] in *.
    rewrite Er. cbn [bind].
    destruct (mapM (fun p0 => v <- py_get p0 "r" (JInt 8) ;; py_int v) ps)
      as [rs|e]; [|discriminate].
    cbn [bind zip_with fst snd] in *. inversion IH; subst cs.
    now destruct c as [[y x] r].
Qed.

(** * Detected peaks are removed *)

(** X19. Automatic node, feather = 0: every detected peak lies in the image,
    the mask is 1.0 there and a finite sample of the frame at the peak
    becomes a zero. *)
Theorem detected_peaks_are_notched {L : Library} (H W C : Z) (threshold_rel : f32)
  (min_distance notch_radius protect_dc feather : Z)
  (frame : list (list (list f32))) (fo : frame_out) (p : Z * Z) (k : Z) :
  rect3 H W C frame -> 1 <= H <= 2 ^ 31 -> 1 <= W <= 2 ^ 31 -> 1 <= C ->
  feather <= 0 ->
  auto_frame H W threshold_rel min_distance notch_radius protect_dc feather frame = Ok fo ->
  In p (fo_peaks fo) -> 0 <= k < C ->
  in_image H W p /\
  get3 (fo_mask fo) (fst p) (snd p) 0 F32.zero = F32.one /\
  (F32.is_finite (get3 frame (fst p) (snd p) k F32.zero) = true ->
   F32.is_zero (get3 (fo_filtered fo) (fst p) (snd p) k F32.zero) = true).
Proof.
  intros Hrect HH HW HC Hf Hrun Hp Hk.
  assert (Hin : in_image H W p).
  { destruct (auto_frame_spec H W C threshold_rel min_distance notch_radius protect_dc
                feather frame Hrect HH HW HC)
      as (fo' & gray & mask & E & _ & Hgr & Ep & _).
    rewrite E in Hrun. inversion Hrun; subst fo'.
    destruct (detect_peaks_ok H W gray threshold_rel min_distance protect_dc Hgr
                ltac:(lia) ltac:(lia)) as (peaks & Ep' & Hall).
    rewrite Ep in Ep'. inversion Ep' as [Epk]. rewrite <- Epk in Hall.
    rewrite Forall_forall in Hall. now apply Hall. }
  split; [exact Hin|]. destruct Hin as [Hr Hc].
  destruct (auto_frame_hard H W C threshold_rel min_distance notch_radius protect_dc
              feather frame fo (fst p) (snd p) k Hrect HH HW HC Hf Hrun Hr Hc Hk)
    as (Hnear & _).
  apply Hnear. apply existsb_exists. exists p. split; [exact Hp|].
  apply Z.leb_le. rewrite !Z.sub_diag. cbn. nia.
Qed.

Lemma detected_peaks_are_notched_witness :
  fo_peaks Examples.spike_out = [(1, 1)] /\
  in_image 3 3 (1, 1) /\
  get3 (fo_mask Examples.spike_out) 1 1 0 F32.zero = F32.one /\
  (F32.is_finite (get3 (Examples.spike 1 1 1) 1 1 0 F32.zero) = true ->
   F32.is_zero (get3 (fo_filtered Examples.spike_out) 1 1 0 F32.zero) = true).
Proof.
  split; [reflexivity|].
  apply (detected_peaks_are_notched (L := Ref.library) 3 3 1 F32.c0_5 2 1 0 0
           (Examples.spike 1 1 1) Examples.spike_out (1, 1) 0).
  - apply spike_wf; lia.
  - lia.
  - lia.
  - lia.
  - lia.
  - vm_compute. reflexivity.
  - now left.
  - lia.
Defined.

(** * Filtering twice *)

Lemma zip_with_idem {A B : Type} (P : A -> Prop) (Q : B -> Prop) (f : A -> B -> A)
  (l : list A) (m : list B) :
  (forall a b, P a -> Q b -> f (f a b) b = f a b) ->
  Forall P l -> Forall Q m ->
  zip_with f (zip_with f l m) m = zip_with f l m.
Proof.
  intros Hf Hl. revert m. induction Hl as [|a l Ha Hl IH]; intros [|b m] Hm;
    cbn [zip_with]; try reflexivity.
  inversion Hm; subst. rewrite Hf by assumption. now rewrite IH.
Qed.

Lemma block_twice (v m : f32) :
  is_f32 v -> m = F32.zero \/ m = F32.one ->
  F32.mul (F32.mul v (F32.sub F32.one m)) (F32.sub F32.one m) =
  F32.mul v (F32.sub F32.one m).
Proof.
  intros Hv [-> | ->].
  - rewrite sub_one_zero. rewrite (mul_one_r v Hv). exact (mul_one_r v Hv).
  - rewrite sub_one_one. destruct v as [[]|[]| |[] mv ev]; reflexivity.
Qed.

Lemma apply_mask_idem (frame : list (list (list f32))) (mask : list (list f32)) :
  Forall (Forall (Forall is_f32)) frame ->
  Forall (Forall (fun m => m = F32.zero \/ m = F32.one)) mask ->
  apply_mask (apply_mask frame mask) mask = apply_mask frame mask.
Proof.
  intros Hv Hm. unfold apply_mask.
  apply (zip_with_idem (Forall (Forall is_f32))
           (Forall (fun m => m = F32.zero \/ m = F32.one))); try assumption.
  intros row mrow Hrow Hmrow.
  apply (zip_with_idem (Forall is_f32) (fun m => m = F32.zero \/ m = F32.one));
    try assumption.
  intros px m Hpx Hmm. rewrite map_map.
  clear - Hpx Hmm. induction Hpx as [|v px Hvv _ IH]; cbn [map]; [reflexivity|].
  now rewrite block_twice, IH.
Qed.

Lemma hard_mask_values (H W : Z) (cond : Z -> Z -> bool) :
  0 <= H -> 0 <= W ->
  Forall (Forall (fun m => m = F32.zero \/ m = F32.one))
         (assign_where cond F32.one (tab2 H W (fun _ _ => F32.zero))).
Proof.
  intros HH HW. apply (Forall_get2 _ H W _ F32.zero).
  - now apply rect2_hard_mask.
  - intros y x Hy Hx. rewrite get2_hard_mask by assumption.
    destruct (cond y x); auto.
Qed.

(** X20. With feather = 0 the manual node is idempotent: run again on its
    own output with the same points, it returns that output and the same
    mask. *)
Theorem hard_mask_twice_is_once {L : Library} (points : list json) (spectrum : tensor)
  (H W C feather protect_dc : Z) (out : manual_out) :
  wf_batch H W C (to_bhwc spectrum) ->
  Forall (Forall (Forall (Forall is_f32))) (to_bhwc spectrum) ->
  feather <= 0 ->
  manual_run points spectrum feather protect_dc = Ok out ->
  exists out2,
    manual_run points (T4 (m_filtered out)) feather protect_dc = Ok out2 /\
    m_filtered out2 = m_filtered out /\ m_mask out2 = m_mask out.
Proof.
  intros Hwf Hval Hf Hrun.
  pose proof Hwf as (Hne & Hall & HH & HW & HC).
  assert (Hpc : exists circles, point_circles points = Ok circles).
  { unfold manual_run in Hrun. destruct (to_bhwc spectrum) as [|f rest]; [congruence|].
    cbn [mapM] in Hrun. unfold manual_frame at 1 in Hrun.
    destruct (point_circles points) as [cs|e]; [now exists cs | discriminate]. }
  destruct Hpc as (circles & Hpc).
  pose proof (point_circles_fits _ _ _ _ _ _ Hne Hpc Hrun) as Hfit.
  destruct (manual_run_hard points spectrum H W C feather protect_dc circles out
              Hwf Hf Hpc Hrun) as (Efil & Emask).
  set (mask := assign_where
                 (fun y x => covered circles y x ||
                             ((0 <? protect_dc) && in_disk (H / 2) (W / 2) protect_dc y x))
                 F32.one (tab2 H W (fun _ _ => F32.zero))) in *.
  assert (Hmr : rect2 H W mask) by (apply rect2_hard_mask; lia).
  assert (Hwf2 : wf_batch H W C (to_bhwc (T4 (m_filtered out)))).
  { cbn [to_bhwc]. rewrite Efil. split; [|split; [|auto]].
    - destruct (to_bhwc spectrum); [congruence | discriminate].
    - apply Forall_map. eapply Forall_impl; [|exact Hall]. intros frame Hrect.
      now apply rect3_apply_mask. }
  destruct (manual_run_spec points (T4 (m_filtered out)) H W C feather protect_dc
              circles Hwf2 Hpc Hfit) as (out2 & _ & E2 & _).
  exists out2. split; [exact E2|].
  destruct (manual_run_hard points (T4 (m_filtered out)) H W C feather protect_dc
              circles out2 Hwf2 Hf Hpc E2) as (Efil2 & Emask2).
  fold mask in Efil2, Emask2. cbn [to_bhwc] in Efil2, Emask2.
  rewrite Efil2, Emask2, Emask, Efil, !map_map. split; [|reflexivity].
  apply map_ext_in. intros frame Hin. apply apply_mask_idem.
  - rewrite Forall_forall in Hval. now apply Hval.
  - apply hard_mask_values; lia.
Qed.

Lemma hard_mask_twice_is_once_witness :
  exists out,
    manual_run (L := Ref.library) [JDict [("x"%string, JInt 1)]]
      (T4 [Examples.spike 1 1 1]) 0 0 = Ok out /\
    exists out2,
      manual_run (L := Ref.library) [JDict [("x"%string, JInt 1)]]
        (T4 (m_filtered out)) 0 0 = Ok out2 /\
      m_filtered out2 = m_filtered out /\ m_mask out2 = m_mask out.
Proof.
  eexists. split; [vm_compute; reflexivity|].
  apply (hard_mask_twice_is_once (L := Ref.library) [JDict [("x"%string, JInt 1)]]
           (T4 [Examples.spike 1 1 1]) 3 3 1 0 0).
  - repeat split; try discriminate; try lia; repeat constructor.
  - repeat constructor.
  - lia.
  - vm_compute. reflexivity.
Defined.

(** * A DC disk as large as the frame *)

Lemma no_member_nil {A : Type} (l : list A) : (forall a, ~ In a l) -> l = [].
Proof.
  destruct l as [|a l]; [reflexivity|]. intros Hn. exfalso. apply (Hn a). now left.
Qed.

(** X21. When [protect_dc] is at least the height and the width of the
    frame, the DC disk covers every pixel and no peak is detected. *)
Theorem dc_disk_over_the_frame_disables_detection (H W : Z) (gray : list (list f32))
  (threshold_rel : f32) (min_distance protect_dc : Z) :
  rect2 H W gray -> 1 <= H <= 2 ^ 31 -> 1 <= W <= 2 ^ 31 ->
  H <= protect_dc -> W <= protect_dc ->
  detect_peaks H W gray threshold_rel min_distance protect_dc = Ok [].
Proof.
  intros Hrect HH HW HpH HpW. unfold detect_peaks.
  destruct (amax_ok H W gray Hrect ltac:(lia) ltac:(lia)) as (g & ->). cbn [bind].
  destruct (Z.ltb_spec 0 protect_dc); [|lia]. f_equal.
  set (lm := mapi2 _ gray).
  assert (Hlm : rect2 H W lm) by (apply rect2_mapi2; assumption).
  apply no_member_nil. intros [y x] Hin. apply In_argwhere in Hin.
  destruct Hin as (Hy & Hx & Hv).
  assert (Hlm' : rect2 H W (assign_where (in_disk (H / 2) (W / 2) protect_dc) false lm))
    by now apply rect2_mapi2.
  pose proof Hlm' as [Hl _]. rewrite Hl in Hy.
  rewrite (rect2_get H W _ y Hlm' Hy) in Hx.
  rewrite (get2_assign_where H W) in Hv by assumption.
  pose proof (half_range H ltac:(lia)). pose proof (half_range W ltac:(lia)).
  rewrite in_disk_exact in Hv by lia.
  destruct (Z.leb_spec ((x - W / 2) ^ 2 + (y - H / 2) ^ 2) (protect_dc ^ 2))
    as [|Hfar]; [discriminate|].
  pose proof (Z.div_mod W 2 ltac:(lia)). pose proof (Z.mod_pos_bound W 2 ltac:(lia)).
  pose proof (Z.div_mod H 2 ltac:(lia)). pose proof (Z.mod_pos_bound H 2 ltac:(lia)).
  assert (Hdx : - protect_dc <= 2 * (x - W / 2) <= protect_dc) by lia.
  assert (Hdy : - protect_dc <= 2 * (y - H / 2) <= protect_dc) by lia.
  rewrite !Z.pow_2_r in Hfar.
  assert (4 * ((x - W / 2) * (x - W / 2)) <= protect_dc * protect_dc) by nia.
  assert (4 * ((y - H / 2) * (y - H / 2)) <= protect_dc * protect_dc) by nia.
  nia.
Qed.

Lemma dc_disk_over_the_frame_disables_detection_witness :
  detect_peaks 3 3 Examples.gray_spike F32.c0_5 2 3 = Ok [].
Proof.
  apply (dc_disk_over_the_frame_disables_detection 3 3 Examples.gray_spike F32.c0_5 2 3).
  - split; [reflexivity|]. repeat constructor.
  - lia.
  - lia.
  - lia.
  - lia.
Defined.

(** * Batches *)

(** X22. The automatic node treats a batch frame by frame: the filtered
    frame, the mask image and the preview of frame [b] are those the node
    returns for the batch that holds this frame alone. *)
Theorem batch_is_filtered_frame_by_frame {L : Library} (spectrum : tensor)
  (H W C : Z) (threshold_rel : f32)
  (min_distance notch_radius protect_dc feather : Z) (out : auto_out) (b : Z) :
  wf_batch H W C (to_bhwc spectrum) ->
  apply_notch spectrum threshold_rel min_distance notch_radius protect_dc feather = Ok out ->
  0 <= b < len (to_bhwc spectrum) ->
  exists out_b,
    apply_notch (T4 [get (to_bhwc spectrum) b []]) threshold_rel min_distance
      notch_radius protect_dc feather = Ok out_b /\
    filtered_spectrum out_b = [get (filtered_spectrum out) b []] /\
    notch_mask out_b = [get (notch_mask out) b []] /\
    preview out_b = [get (preview out) b []].
Proof.
  intros Hwf Hrun Hb. pose proof Hwf as (Hne & Hall & HH & HW & HC).
  unfold apply_notch in Hrun.
  destruct (hd_rect3 H W C (to_bhwc spectrum) Hne Hall ltac:(lia)) as (E1 & E2 & _).
  rewrite E1, E2 in Hrun.
  destruct (mapM _ (to_bhwc spectrum)) as [outs|e] eqn:Eo; [|discriminate].
  cbn [bind] in Hrun. pose proof (mapM_Forall2 _ _ _ Eo) as HF.
  destruct outs as [|o rest].
  { inversion HF as [Hnil|]. congruence. }
  cbn [map np_stack bind] in Hrun. inversion Hrun; subst out. clear Hrun.
  cbn [filtered_spectrum notch_mask preview].
  change (fo_filtered o :: map fo_filtered rest) with (map fo_filtered (o :: rest)).
  change (fo_mask o :: map fo_mask rest) with (map fo_mask (o :: rest)).
  change (fo_preview o :: map fo_preview rest) with (map fo_preview (o :: rest)).
  pose proof (Forall2_get _ _ _ b [] empty_frame_out HF Hb) as Hfo. cbv beta in Hfo.
  pose proof (Forall2_len _ _ _ HF) as Hlen.
  set (frame := get (to_bhwc spectrum) b []) in *.
  set (fo := get (o :: rest) b empty_frame_out) in *.
  assert (Hframe : rect3 H W C frame).
  { rewrite Forall_forall in Hall. apply Hall. unfold frame. now apply get_In. }
  assert (Hhd : height frame = H /\ width frame = W).
  { destruct (hd_rect3 H W C [frame]) as (A & B & _); try lia.
    - discriminate.
    - now constructor.
    - cbn [hd] in A, B. now split. }
  destruct Hhd as (Eh & Ew).
  unfold apply_notch. cbn [to_bhwc hd mapM]. rewrite Eh, Ew, Hfo.
  cbn [bind map np_stack]. eexists. split; [reflexivity|].
  cbn [filtered_spectrum notch_mask preview].
  change (fo_filtered o :: map fo_filtered rest) with (map fo_filtered (o :: rest)).
  change (fo_mask o :: map fo_mask rest) with (map fo_mask (o :: rest)).
  change (fo_preview o :: map fo_preview rest) with (map fo_preview (o :: rest)).
  rewrite (get_map fo_filtered _ b empty_frame_out []) by lia.
  rewrite (get_map fo_mask _ b empty_frame_out []) by lia.
  rewrite (get_map fo_preview _ b empty_frame_out []) by lia.
  auto.
Qed.

Lemma batch_is_filtered_frame_by_frame_witness :
  exists out,
    apply_notch (L := Ref.library)
      (T4 [Examples.black 1; Examples.spike 1 1 1]) F32.c0_5 2 1 0 0 = Ok out /\
    exists out_b,
      apply_notch (L := Ref.library)
        (T4 [get (to_bhwc (T4 [Examples.black 1; Examples.spike 1 1 1])) 1 []])
        F32.c0_5 2 1 0 0 = Ok out_b /\
      filtered_spectrum out_b = [get (filtered_spectrum out) 1 []] /\
      notch_mask out_b = [get (notch_mask out) 1 []] /\
      preview out_b = [get (preview out) 1 []].
Proof.
  eexists. split; [vm_compute; reflexivity|].
  apply (batch_is_filtered_frame_by_frame (L := Ref.library)
           (T4 [Examples.black 1; Examples.spike 1 1 1]) 3 3 1 F32.c0_5 2 1 0 0).
  - split; [discriminate|]. split; [|lia].
    constructor; [apply black_wf; lia|]. constructor; [apply spike_wf; lia|]. constructor.
  - vm_compute. reflexivity.
  - cbn. lia.
Defined.

(** X23. The manual node builds one mask for the whole batch: every frame
    gets the same mask image. *)
Theorem manual_mask_is_shared_by_the_frames {L : Library} (points : list json)
  (spectrum : tensor) (H W C feather protect_dc : Z) (out : manual_out) (b b' : Z) :
  wf_batch H W C (to_bhwc spectrum) ->
  manual_run points spectrum feather protect_dc = Ok out ->
  0 <= b < len (to_bhwc spectrum) -> 0 <= b' < len (to_bhwc spectrum) ->
  get (m_mask out) b [] = get (m_mask out) b' [].
Proof.
  intros Hwf Hrun Hb Hb'. pose proof Hwf as (Hne & _).
  assert (Hpc : exists circles, point_circles points = Ok circles).
  { unfold manual_run in Hrun. destruct (to_bhwc spectrum) as [|f rest]; [congruence|].
    cbn [mapM] in Hrun. unfold manual_frame at 1 in Hrun.
    destruct (point_circles points) as [cs|e]; [now exists cs | discriminate]. }
  destruct Hpc as (circles & Hpc).
  pose proof (point_circles_fits _ _ _ _ _ _ Hne Hpc Hrun) as Hfit.
  destruct (manual_run_spec points spectrum H W C feather protect_dc circles Hwf Hpc Hfit)
    as (out' & mask0 & E & _ & _ & _ & Emask).
  rewrite E in Hrun. inversion Hrun; subst out'. rewrite Emask.
  set (img := mask_image (feathered mask0 feather)).
  rewrite (get_map (fun _ : list (list (list f32)) => img) _ b [] []) by exact Hb.
  now rewrite (get_map (fun _ : list (list (list f32)) => img) _ b' [] []) by exact Hb'.
Qed.

Lemma manual_mask_is_shared_by_the_frames_witness :
  exists out,
    manual_run (L := Ref.library) [JDict [("x"%string, JInt 1)]]
      (T4 [Examples.black 1; Examples.spike 1 1 1]) 1 1 = Ok out /\
    get (m_mask out) 0 [] = get (m_mask out) 1 [].
Proof.
  eexists. split; [vm_compute; reflexivity|].
  apply (manual_mask_is_shared_by_the_frames (L := Ref.library)
           [JDict [("x"%string, JInt 1)]]
           (T4 [Examples.black 1; Examples.spike 1 1 1]) 3 3 1 1 1).
  - split; [discriminate|]. split; [|lia].
    constructor; [apply black_wf; lia|]. constructor; [apply spike_wf; lia|]. constructor.
  - vm_compute. reflexivity.
  - cbn. lia.
  - cbn. lia.
Defined.

(** * The round trip, feathered *)

(** X24. The round trip through the exported peaks holds with feathering
    too: with the feather value of the automatic run and protect_dc = 0 the
    manual loop body returns the filtered frame and the mask image of the
    automatic one (the JSON library is assumed to read back what it wrote). *)
Theorem exported_peaks_reproduce_feathered_mask {L : Library} (H W : Z)
  (threshold_rel : f32) (min_distance notch_radius protect_dc feather : Z)
  (frame : list (list (list f32))) (fo : frame_out) :
  auto_frame H W threshold_rel min_distance notch_radius protect_dc feather frame = Ok fo ->
  json_loads (json_dumps (JList (map (peak_obj notch_radius) (fo_peaks fo)))) =
    Some (JList (map (peak_obj notch_radius) (fo_peaks fo))) ->
  manual_frame
    (parse_points (json_dumps (JList (map (peak_obj notch_radius) (fo_peaks fo)))))
    H W feather 0 frame = Ok (fo_filtered fo, fo_mask fo).
Proof.
  intros Hauto Hrt. unfold parse_points. rewrite Hrt.
  unfold manual_frame. rewrite point_circles_peak_objs. cbn [bind].
  unfold auto_frame in Hauto.
  destruct (_to_gray frame) as [gray|e]; [|discriminate]. cbn [bind] in Hauto.
  destruct (detect_peaks H W gray threshold_rel min_distance protect_dc) as [peaks|e];
    [|discriminate].
  cbn [bind] in Hauto.
  destruct (_build_circular_mask H W peaks notch_radius feather) as [mask|e] eqn:Em;
    [|discriminate].
  cbn [bind] in Hauto.
  destruct (_annotate_preview frame peaks notch_radius protect_dc H W) as [pv|e];
    [|discriminate].
  cbn [bind] in Hauto. inversion Hauto; subst fo. cbn [fo_peaks fo_filtered fo_mask].
  unfold _build_circular_mask in Em. unfold manual_mask.
  destruct (zeros H W) as [z|e]; [|discriminate]. cbn [bind] in *.
  destruct (draw_circles _ z) as [m|e]; [|discriminate]. cbn [bind] in *.
  change (0 <? 0) with false. cbv iota. now inversion Em.
Qed.

Lemma exported_peaks_reproduce_feathered_mask_witness :
  exists fo,
    auto_frame (L := Ref.library) 3 3 F32.c0_5 2 1 0 1 (Examples.spike 1 1 1) = Ok fo /\
    manual_frame (L := Ref.library)
      (parse_points (json_dumps (JList (map (peak_obj 1) (fo_peaks fo)))))
      3 3 1 0 (Examples.spike 1 1 1) = Ok (fo_filtered fo, fo_mask fo).
Proof.
  eexists. split; [vm_compute; reflexivity|].
  apply (exported_peaks_reproduce_feathered_mask (L := Ref.library) 3 3 F32.c0_5 2 1 0 1).
  - vm_compute. reflexivity.
  - vm_compute. reflexivity.
Defined.
